(** * Student-Drive multimodal RAG pipeline: layout merge engine, worker pool
      and pipeline state machine

    A shallow embedding of [layout_engine.py], [worker_manager.py],
    [pipeline_orchasterator.py] and [workflow.py], with the request loop
    of the worker scripts, [chunking_engine.py] and the batching of
    [vector_store.py].

    Conventions of the embedding:
    - box coordinates, areas and overlap scores are exact rationals ([Q]);
      Python's [==] on numbers is [Qeq], its float literals [0.5], [0.2] and
      the integer [50] are the rationals [1#2], [1#5] and [50];
    - a Python string is the [string] of its UTF-8 bytes, so that equality,
      concatenation and the substring test are those of the bytes; [len]
      counts code points ([str_len]) and [str.strip()] removes the
      whitespace of Unicode ([strip]); the line break is the one-character
      string [nl];
    - a Python call that may raise is a value of [result]: [Ok v] for a
      normal return, [Raise e] for an exception reaching the caller; a call
      that may wait for ever on a worker is an [option] of it, [None] when
      it never returns;
    - dictionaries with a fixed set of keys (blocks, detections) are records,
      the worker registry ([self.workers]) is a [gmap] keyed by name;
    - the blocks of a list are distinct objects, as every caller builds
      them: the in-place updates of [merge_consecutive_blocks] and of the
      enrichment loop are returned as new values. *)

From stdpp Require Import gmap strings list.
From Stdlib Require Import QArith Lqa Lia Ascii String List Bool Permutation Sorted.
Import ListNotations.

Local Open Scope Q_scope.
Local Open Scope string_scope.
Local Open Scope list_scope.

(* ********************************************************************* *)
(** * Part I: the embedding *)
(* ********************************************************************* *)

(* ===================================================================== *)
(** ** Exceptions *)
(* ===================================================================== *)

Inductive exn : Type :=
| ZeroDivisionError
| FileNotFoundError (msg : string)
| OSError
| BrokenPipeError
| JSONDecodeError
| TypeError
| AttributeError
| KeyError
| TimeoutExpired.

Inductive result (A : Type) : Type :=
| Ok (a : A)
| Raise (e : exn).
Arguments Ok {A} a.
Arguments Raise {A} e.

Definition bind {A B : Type} (m : result A) (k : A -> result B) : result B :=
  match m with
  | Ok a => k a
  | Raise e => Raise e
  end.

Notation "'do' x <- m ; k" := (bind m (fun x => k))
  (at level 10, x name, m at level 100, k at level 200).

Definition returns {A : Type} (m : result A) : Prop := exists a, m = Ok a.

(* ===================================================================== *)
(** ** Numbers *)
(* ===================================================================== *)

Definition Qltb (a b : Q) : bool := (Qnum a * QDen b <? Qnum b * QDen a)%Z.
Definition Qleb (a b : Q) : bool := (Qnum a * QDen b <=? Qnum b * QDen a)%Z.

(** Python's binary [max(a, b)] and [min(a, b)]: the first argument is kept
    unless the second is strictly larger (smaller). *)
Definition py_max (a b : Q) : Q := if Qltb a b then b else a.
Definition py_min (a b : Q) : Q := if Qltb b a then b else a.

(** True division [a / b], raising on a zero divisor. *)
Definition py_div (a b : Q) : result Q :=
  if Qeq_bool b 0 then Raise ZeroDivisionError else Ok (a / b).

(* ===================================================================== *)
(** ** Boxes and overlap scores ([layout_engine.py], MERGE LOGIC) *)
(* ===================================================================== *)

(** [bbox = [x0, y0, x1, y1]]. *)
Record box : Type := Box { bx0 : Q; by0 : Q; bx1 : Q; by1 : Q }.

Definition box_area (b : box) : Q := (bx1 b - bx0 b) * (by1 b - by0 b).

(** [interArea = max(0, xB - xA) * max(0, yB - yA)]. *)
Definition inter_area (boxA boxB : box) : Q :=
  let xA := py_max (bx0 boxA) (bx0 boxB) in
  let yA := py_max (by0 boxA) (by0 boxB) in
  let xB := py_min (bx1 boxA) (bx1 boxB) in
  let yB := py_min (by1 boxA) (by1 boxB) in
  py_max 0 (xB - xA) * py_max 0 (yB - yA).

Definition calculate_iou (boxA boxB : box) : result Q :=
  let interArea := inter_area boxA boxB in
  let boxAArea := box_area boxA in
  let boxBArea := box_area boxB in
  if Qeq_bool (py_min boxAArea boxBArea) 0 then Ok 0
  else py_div interArea (py_min boxAArea boxBArea).

Definition calculate_intersection (boxA boxB : box) : result Q :=
  let interArea := inter_area boxA boxB in
  let boxBArea := box_area boxB in
  if Qeq_bool boxBArea 0 then Ok 0
  else py_div interArea boxBArea.

(** What the specification calls the standard intersection over union:
    the intersection area divided by the area of the union, and [0] when
    either area is [0].  Written from the specification's words, to be
    compared with [calculate_iou]. *)
Definition spec_intersection_over_union (a b : box) : Q :=
  if Qeq_bool (box_area a) 0 || Qeq_bool (box_area b) 0 then 0
  else inter_area a b / (box_area a + box_area b - inter_area a b).

(** A box with positive width and positive height. *)
Definition proper_box (b : box) : Prop := bx0 b < bx1 b /\ by0 b < by1 b.

(** Zero or negative width or height. *)
Definition degenerate (b : box) : bool :=
  Qleb (bx1 b) (bx0 b) || Qleb (by1 b) (by0 b).

(** The two boxes share no interior point. *)
Definition disjoint_boxes (a b : box) : Prop :=
  bx1 a <= bx0 b \/ bx1 b <= bx0 a \/ by1 a <= by0 b \/ by1 b <= by0 a.

(** The value [calculate_iou] returns: it never raises. *)
Definition iou_value (a b : box) : Q :=
  let m := py_min (box_area a) (box_area b) in
  if Qeq_bool m 0 then 0 else inter_area a b / m.

(** The value [calculate_intersection] returns. *)
Definition containment_value (a b : box) : Q :=
  if Qeq_bool (box_area b) 0 then 0 else inter_area a b / box_area b.

(** The two example boxes: a 10x10 square and the 5x5 square in its
    corner. *)
Definition big_square : box := Box 0 0 10 10.
Definition small_square : box := Box 0 0 5 5.

(** A box given with its corners swapped: its area is positive, its width
    and height are negative. *)
Definition swapped_square : box := Box 10 10 0 0.

(* ===================================================================== *)
(** ** Blocks and detections *)
(* ===================================================================== *)

(** The line break ["\n"]. *)
Definition nl : string := String (ascii_of_nat 10) EmptyString.

(** A layout block: [{"type", "bbox", "action", "content"}]. *)
Record block : Type := Block {
  type : string;
  bbox : box;
  action : string;
  content : string
}.

(** A base block of a page: [{"bbox", "type", "text"}]. *)
Record base_block : Type := BaseBlock {
  p_bbox : box;
  p_type : string;
  p_text : string
}.

(** A detector output: [{"type", "bbox", "conf", "source"}]. *)
Record detection : Type := Detection {
  d_type : string;
  d_bbox : box;
  d_conf : Q;
  d_source : string
}.

(** ["sep".join(parts)]. *)
Fixpoint join (sep : string) (parts : list string) : string :=
  match parts with
  | [] => EmptyString
  | [x] => x
  | x :: rest => String.append x (String.append sep (join sep rest))
  end.

(* ===================================================================== *)
(** ** [merge_consecutive_blocks] *)
(* ===================================================================== *)

(** The sort key [b["bbox"][1]]. *)
Definition top (b : block) : Q := by0 (bbox b).

(** [sorted(blocks, key=...)] is stable: among equal keys the input order
    is kept.  A stable sort has one possible output, computed here by
    insertion from the right; a block goes in front of the first block
    whose key is not smaller than its own. *)
Fixpoint insert_by_top (b : block) (l : list block) : list block :=
  match l with
  | [] => [b]
  | c :: r => if Qltb (top c) (top b) then c :: insert_by_top b r
              else b :: c :: r
  end.

Fixpoint sorted_by_top (l : list block) : list block :=
  match l with
  | [] => []
  | b :: r => insert_by_top b (sorted_by_top r)
  end.

(** [t in ["text", "title"]]. *)
Definition text_like (t : string) : bool :=
  String.eqb t "text" || String.eqb t "title".

Definition is_text_merge (current next_b : block) : bool :=
  text_like (type current) && text_like (type next_b).

Definition is_same_type (current next_b : block) : bool :=
  String.eqb (type current) (type next_b).

(** The guard of the merge branch:
    [(next_top - curr_bottom < 50) and (is_text_merge or is_same_type)]. *)
Definition should_merge (current next_b : block) : bool :=
  Qltb (by0 (bbox next_b) - by1 (bbox current)) 50
  && (is_text_merge current next_b || is_same_type current next_b).

(** The body of the merge branch: [current] after its three assignments. *)
Definition merge_into (current next_b : block) : block :=
  {| bbox := Box (py_min (bx0 (bbox current)) (bx0 (bbox next_b)))
                 (py_min (by0 (bbox current)) (by0 (bbox next_b)))
                 (py_max (bx1 (bbox current)) (bx1 (bbox next_b)))
                 (py_max (by1 (bbox current)) (by1 (bbox next_b)));
     content := String.append (content current)
                  (String.append nl (content next_b));
     type := if is_text_merge current next_b then "text" else type current;
     action := action current |}.

(** The loop over [sorted_blocks[1:]], with the final [merged.append]. *)
Fixpoint merge_walk (current : block) (rest : list block) : list block :=
  match rest with
  | [] => [current]
  | next_b :: rest' =>
      if should_merge current next_b
      then merge_walk (merge_into current next_b) rest'
      else current :: merge_walk next_b rest'
  end.

Definition merge_consecutive_blocks (blocks : list block) : list block :=
  match sorted_by_top blocks with
  | [] => []
  | current :: rest => merge_walk current rest
  end.

(* --------------------------------------------------------------------- *)
(** *** Order, and what the walk keeps *)

Definition le_top (a b : block) : Prop := top a <= top b.

(** What [merge_into] keeps of [current]: its top edge (on a sorted list),
    and its type up to the collapse of text-like types to ["text"]. *)
Definition same_head (c g : block) : Prop :=
  top g = top c /\
  (type g = type c \/ (text_like (type c) = true /\ type g = "text")).

(** Neighbours in a list on which the walk has nothing left to do. *)
Definition settled (a b : block) : Prop :=
  le_top a b /\ should_merge a b = false.

(* --------------------------------------------------------------------- *)
(** *** Which input blocks an output block was formed from *)

(** [merge_walk] with, next to [current], the input blocks merged into it
    so far, in the order they were met. *)
Fixpoint merge_walk_sources (current : block) (sources rest : list block)
  : list (block * list block) :=
  match rest with
  | [] => [(current, sources)]
  | next_b :: rest' =>
      if should_merge current next_b
      then merge_walk_sources (merge_into current next_b)
             (sources ++ [next_b]) rest'
      else (current, sources) :: merge_walk_sources next_b [next_b] rest'
  end.

Definition merge_sources (blocks : list block) : list (block * list block) :=
  match sorted_by_top blocks with
  | [] => []
  | current :: rest => merge_walk_sources current [current] rest
  end.

(** The types of an output block [o] and of the blocks it was formed from:
    all of them have the type of [o], or [o] is a ["text"] block formed from
    at least two text-like blocks. *)
Definition types_kept (o : block) (sources : list block) : Prop :=
  sources <> [] /\
  (Forall (fun s => type s = type o) sources \/
   (type o = "text" /\ (2 <= length sources)%nat /\
    Forall (fun s => text_like (type s) = true) sources)).

(** Two tables 5 units apart followed by a text block. *)
Definition tables_then_text : list block :=
  [ Block "table" (Box 0 0 100 20) "extract_table_logic" "a | b";
    Block "table" (Box 0 25 100 45) "extract_table_logic" "c | d";
    Block "text" (Box 0 50 100 60) "extract_text" "caption" ].

(* ===================================================================== *)
(** ** [intelligent_merge] *)
(* ===================================================================== *)

(** The table block appended for a detection whose joined text is
    [full_table_text]. *)
Definition table_block (t_bbox : box) (full_table_text : string) : block :=
  {| type := "table";
     bbox := t_bbox;
     action := "extract_table_logic";
     content := if String.eqb full_table_text EmptyString
                then "[EMPTY_TABLE]" else full_table_text |}.

(** The inner loop of step 1, over [enumerate(base_blocks)] from index
    [idx] on.  [calls] is a ghost: the argument pairs handed to
    [calculate_intersection] so far, in call order. *)
Fixpoint scan_base (t_bbox : box) (idx : nat) (base_blocks : list base_block)
    (t_content : list string) (consumed_indices : gset nat)
    (calls : list (box * box))
  : result (list string * gset nat * list (box * box)) :=
  match base_blocks with
  | [] => Ok (t_content, consumed_indices, calls)
  | p_block :: rest =>
      do score <- calculate_intersection t_bbox (p_bbox p_block);
      let calls' := calls ++ [(t_bbox, p_bbox p_block)] in
      if Qltb (1 # 2) score
      then scan_base t_bbox (S idx) rest (t_content ++ [p_text p_block])
             ({[ idx ]} ∪ consumed_indices) calls'
      else scan_base t_bbox (S idx) rest t_content consumed_indices calls'
  end.

(** Step 1: one pass over [table_blocks]. *)
Fixpoint process_tables (base_blocks : list base_block)
    (table_blocks : list detection) (final_blocks : list block)
    (consumed_indices : gset nat) (calls : list (box * box))
  : result (list block * gset nat * list (box * box)) :=
  match table_blocks with
  | [] => Ok (final_blocks, consumed_indices, calls)
  | t_block :: rest =>
      let t_bbox := d_bbox t_block in
      do r <- scan_base t_bbox 0 base_blocks [] consumed_indices calls;
      let '(t_content, consumed', calls') := r in
      let full_table_text := join nl t_content in
      process_tables base_blocks rest
        (final_blocks ++ [table_block t_bbox full_table_text])
        consumed' calls'
  end.

(** The block appended in step 2 for a base block that no table consumed. *)
Definition remaining_block (p_block : base_block) : block :=
  {| type := p_type p_block;
     bbox := p_bbox p_block;
     action := if String.eqb (p_type p_block) "image"
               then "crop_image" else "extract_text";
     content := p_text p_block |}.

(** Step 2, over [enumerate(base_blocks)] from index [idx] on. *)
Fixpoint process_remaining (idx : nat) (base_blocks : list base_block)
    (consumed_indices : gset nat) (final_blocks : list block) : list block :=
  match base_blocks with
  | [] => final_blocks
  | p_block :: rest =>
      if bool_decide (idx ∈ consumed_indices)
      then process_remaining (S idx) rest consumed_indices final_blocks
      else process_remaining (S idx) rest consumed_indices
             (final_blocks ++ [remaining_block p_block])
  end.

(** The inner loop of step 3: the value of [is_isolated] when the loop over
    [final_blocks] ends or breaks. *)
Fixpoint is_isolated (hw_bbox : box) (final_blocks : list block)
  : result bool :=
  match final_blocks with
  | [] => Ok true
  | fb :: rest =>
      do score <- calculate_iou hw_bbox (bbox fb);
      if Qltb (1 # 5) score then Ok false
      else is_isolated hw_bbox rest
  end.

Definition handwriting_block (hw : detection) : block :=
  {| type := "handwriting_region";
     bbox := d_bbox hw;
     action := "send_to_ocr";
     content := "[HANDWRITING_IMAGE]" |}.

(** One iteration of step 3. *)
Definition isolate_one (final_blocks : list block) (hw : detection)
  : result (list block) :=
  do isolated <- is_isolated (d_bbox hw) final_blocks;
  Ok (if isolated : bool then final_blocks ++ [handwriting_block hw]
      else final_blocks).

(** Step 3: the loop over [hw_blocks]; [final_blocks] grows as it runs. *)
Fixpoint isolate_handwriting (hw_blocks : list detection)
    (final_blocks : list block) : result (list block) :=
  match hw_blocks with
  | [] => Ok final_blocks
  | hw :: rest =>
      do final' <- isolate_one final_blocks hw;
      isolate_handwriting rest final'
  end.

(** [final_blocks] as it stands before the last line of
    [intelligent_merge], with the ghost list of containment calls. *)
Definition collect_blocks (base_blocks : list base_block)
    (table_blocks hw_blocks : list detection)
  : result (list block * list (box * box)) :=
  do r <- process_tables base_blocks table_blocks [] ∅ [];
  let '(final_blocks, consumed_indices, calls) := r in
  let final_blocks := process_remaining 0 base_blocks consumed_indices
                        final_blocks in
  do final_blocks <- isolate_handwriting hw_blocks final_blocks;
  Ok (final_blocks, calls).

Definition intelligent_merge (base_blocks : list base_block)
    (table_blocks hw_blocks : list detection) : result (list block) :=
  do r <- collect_blocks base_blocks table_blocks hw_blocks;
  Ok (merge_consecutive_blocks (fst r)).

(* --------------------------------------------------------------------- *)
(** *** The values the three steps are described with *)

(** The guard of step 1 on the value [calculate_intersection] returns. *)
Definition contained (t_bbox : box) (p_block : base_block) : bool :=
  Qltb (1 # 2) (containment_value t_bbox (p_bbox p_block)).

(** The joined text of the base blocks found inside a table box. *)
Definition table_text (base_blocks : list base_block) (t_bbox : box) : string :=
  join nl (map p_text (List.filter (contained t_bbox) base_blocks)).

(** Every call of [calculate_intersection] made for one table box. *)
Definition calls_for (base_blocks : list base_block) (t_bbox : box)
  : list (box * box) :=
  map (fun p => (t_bbox, p_bbox p)) base_blocks.

(** Where a block of [final_blocks] that is not a table block comes from. *)
Definition from_base_or_handwriting (base_blocks : list base_block)
    (hw_blocks : list detection) (b : block) : Prop :=
  (exists p, In p base_blocks /\ b = remaining_block p) \/
  (exists hw, In hw hw_blocks /\ b = handwriting_block hw).

(* --------------------------------------------------------------------- *)
(** *** Tables without text inside *)

(** No base block scores above 0.5 against the table box. *)
Definition no_text_inside (t : detection) (base_blocks : list base_block)
  : Prop :=
  forall p, In p base_blocks ->
    exists s, calculate_intersection (d_bbox t) (p_bbox p) = Ok s /\
              s <= 1 # 2.

Definition empty_table_block (t : detection) : block :=
  Block "table" (d_bbox t) "extract_table_logic" "[EMPTY_TABLE]".

(** Two table detections with no text inside, 10 units apart. *)
Definition upper_table : detection :=
  Detection "table" (Box 0 0 100 100) (9 # 10) "microsoft_detr".
Definition lower_table : detection :=
  Detection "table" (Box 0 110 100 200) (9 # 10) "microsoft_detr".

(* --------------------------------------------------------------------- *)
(** *** Handwriting: the score against the threshold *)

(** The score of a handwriting detection against a final block, as
    [calculate_iou] returns it, compared with the threshold 0.2. *)
Definition iou_exceeds (hw : detection) (fb : block) : Prop :=
  exists s, calculate_iou (d_bbox hw) (bbox fb) = Ok s /\ 1 # 5 < s.

Definition iou_within (hw : detection) (fb : block) : Prop :=
  exists s, calculate_iou (d_bbox hw) (bbox fb) = Ok s /\ s <= 1 # 5.

(** A text block, a handwriting detection inside it and one far below. *)
Definition paragraph : block :=
  Block "text" (Box 0 0 100 40) "extract_text" "typed".
Definition scribble_inside : detection :=
  Detection "handwriting" (Box 10 10 30 30) (8 # 10) "roboflow_inference".
Definition scribble_below : detection :=
  Detection "handwriting" (Box 10 300 30 330) (8 # 10) "roboflow_inference".

(** The paragraph as the base block it is built from. *)
Definition typed_line : base_block :=
  BaseBlock (Box 0 0 100 40) "text" "typed".

(** A table detection with a cell inside, and a line far below. *)
Definition ledger_table : detection :=
  Detection "table" (Box 0 300 100 400) (9 # 10) "microsoft_detr".
Definition ledger_cell : base_block :=
  BaseBlock (Box 10 310 50 330) "text" "cell".
Definition footer_line : base_block :=
  BaseBlock (Box 0 500 100 520) "text" "footer".

(** A base block of zero width and height inside a table box. *)
Definition dot_box : box := Box 5 5 5 5.
Definition dot_block : base_block := BaseBlock dot_box "text" "dot".
Definition page_table : detection :=
  Detection "table" (Box 0 0 10 10) (9 # 10) "microsoft_detr".

(* ===================================================================== *)
(** ** Python values and strings *)
(* ===================================================================== *)

(** A value as [json.loads] builds it; [PyNone] is also what [query] returns
    for an unavailable worker. *)
#[local] Set Warnings "-register-all".

Inductive pyval : Type :=
| PyNone
| PyBool (b : bool)
| PyNum (q : Q)
| PyStr (s : string)
| PyList (items : list pyval)
| PyDict (entries : list (string * pyval)).

(** Truth value of a Python value ([if v], [not v]). *)
Definition truthy (v : pyval) : bool :=
  match v with
  | PyNone => false
  | PyBool b => b
  | PyNum q => negb (Qeq_bool q 0)
  | PyStr s => negb (String.eqb s EmptyString)
  | PyList items => match items with [] => false | _ => true end
  | PyDict entries => match entries with [] => false | _ => true end
  end.

(** [needle in hay] on strings. *)
Fixpoint str_contains (needle hay : string) : bool :=
  String.prefix needle hay
  || match hay with
     | EmptyString => false
     | String _ rest => str_contains needle rest
     end.

(** A byte that continues a code point in UTF-8 ([10xxxxxx]). *)
Definition is_continuation (c : ascii) : bool :=
  let n := nat_of_ascii c in
  ((128 <=? n) && (n <? 192))%nat.

(** [len(s)]: the number of code points, one for each byte that does not
    continue one. *)
Fixpoint str_len (s : string) : nat :=
  match s with
  | EmptyString => 0%nat
  | String c rest =>
      if is_continuation c then str_len rest else S (str_len rest)
  end.

(** The code points of a text, each as its bytes: a byte joins the group
    of the byte after it when that one is a continuation byte. *)
Fixpoint code_points (l : list ascii) : list (list ascii) :=
  match l with
  | [] => []
  | c :: rest =>
      let groups := code_points rest in
      match rest, groups with
      | d :: _, g :: gs =>
          if is_continuation d then (c :: g) :: gs else [c] :: groups
      | _, _ => [c] :: groups
      end
  end.

(** Whitespace for [str.strip()]: U+0009 to U+000D, U+001C to U+0020,
    U+0085, U+00A0, U+1680, U+2000 to U+200A, U+2028, U+2029, U+202F,
    U+205F and U+3000, each by its UTF-8 bytes. *)
Definition is_space (g : list ascii) : bool :=
  match map nat_of_ascii g with
  | [n] => ((9 <=? n) && (n <=? 13) || (28 <=? n) && (n <=? 32))%nat
  | [a; n] => ((a =? 194) && ((n =? 133) || (n =? 160)))%nat
  | [a; b; n] =>
      ((a =? 225) && (b =? 154) && (n =? 128)
       || (a =? 226) && (b =? 128)
          && ((128 <=? n) && (n <=? 138)
              || (n =? 168) || (n =? 169) || (n =? 175))
       || (a =? 226) && (b =? 129) && (n =? 159)
       || (a =? 227) && (b =? 128) && (n =? 128))%nat
  | _ => false
  end.

Fixpoint lstrip_chars (l : list (list ascii)) : list (list ascii) :=
  match l with
  | g :: rest => if is_space g then lstrip_chars rest else l
  | [] => []
  end.

Definition strip (s : string) : string :=
  string_of_list_ascii
    (concat
       (rev (lstrip_chars
               (rev (lstrip_chars (code_points (list_ascii_of_string s))))))).

(** Lookup of a key in a dictionary; the last binding of a key wins, as
    when [json.loads] meets a repeated key. *)
Fixpoint dict_lookup (key : string) (entries : list (string * pyval))
  : option pyval :=
  match entries with
  | [] => None
  | (k, v) :: rest =>
      match dict_lookup key rest with
      | Some v' => Some v'
      | None => if String.eqb k key then Some v else None
      end
  end.

(** [v.get(key, default)]: only a dictionary has the method. *)
Definition py_get (v : pyval) (key : string) (default : pyval)
  : result pyval :=
  match v with
  | PyDict entries =>
      Ok (match dict_lookup key entries with
          | Some x => x
          | None => default
          end)
  | _ => Raise AttributeError
  end.

(** [v[key]] with a string key. *)
Definition py_item (v : pyval) (key : string) : result pyval :=
  match v with
  | PyDict entries =>
      match dict_lookup key entries with
      | Some x => Ok x
      | None => Raise KeyError
      end
  | _ => Raise TypeError
  end.

(** What is written to a worker: a dictionary or list goes through
    [json.dumps], anything else through [str]; the callers pass paths. *)
Inductive payload : Type :=
| PathPayload (path : string)
| JsonPayload (v : pyval).

(* ===================================================================== *)
(** ** [WorkerManager] ([worker_manager.py]) *)
(* ===================================================================== *)

(** A worker subprocess as [query] and [stop_all] see it.
    [poll] is [None] while the process runs.  [stdin_write] and
    [stdin_flush] raise when the pipe is not writable.  [stdout_readline]
    is what [stdout.readline()] does after a message was written: it
    returns the line read, [""] at end of file, or it raises; it is [None]
    when the process stays alive and writes no line, for [readline] has no
    deadline and then never returns.  [exits_on_exit_token] tells whether
    the process, once ["EXIT"] is in its pipe, is gone by the end of the
    grace period. *)
Record process : Type := Process {
  poll : option Z;
  stdin_write : string -> result unit;
  stdin_flush : result unit;
  stdout_readline : string -> option (result string);
  exits_on_exit_token : bool
}.

Definition is_running (p : process) : bool :=
  match poll p with None => true | Some _ => false end.

(** [self.worker_paths]. *)
Definition worker_paths : gmap string string :=
  <[ "vlm" := "workers/vlm_worker.py" ]>
  (<[ "ocr" := "workers/ocr_worker.py" ]>
  (<[ "table" := "workers/table_worker.py" ]>
  (<[ "audio" := "workers/audio_worker.py" ]> ∅))).

(** [self.workers]. *)
Abbreviation workers := (gmap string process).

Section WorkerManager.

(** The surroundings of the manager: [os.path.exists], [subprocess.Popen]
    on a script path, [json.dumps] and [json.loads] ([None] for a
    [JSONDecodeError]). *)
Variable path_exists : string -> bool.
Variable popen : string -> result process.
Variable json_dumps : pyval -> string.
Variable json_loads : string -> option pyval.

Definition start_worker (ws : workers) (name : string)
  : result process * workers :=
  match worker_paths !! name with
  | None => (Raise (FileNotFoundError "Worker script not found"), ws)
  | Some script_path =>
      if String.eqb script_path EmptyString || negb (path_exists script_path)
      then (Raise (FileNotFoundError "Worker script not found"), ws)
      else match popen script_path with
           | Ok p => (Ok p, <[ name := p ]> ws)
           | Raise e => (Raise e, ws)
           end
  end.

Definition get_worker (ws : workers) (name : string)
  : result process * workers :=
  match ws !! name with
  | Some p => if is_running p then (Ok p, ws) else start_worker ws name
  | None => start_worker ws name
  end.

Definition encode (data : payload) : string :=
  match data with
  | JsonPayload v => json_dumps v
  | PathPayload s => s
  end.

(** The body of the [try] block of [query]; [None] when [readline] never
    returns. *)
Definition exchange (p : process) (data : payload)
  : option (result pyval) :=
  let msg := encode data in
  match stdin_write p (String.append msg nl) with
  | Raise e => Some (Raise e)
  | Ok _ =>
      match stdin_flush p with
      | Raise e => Some (Raise e)
      | Ok _ =>
          match stdout_readline p msg with
          | None => None
          | Some (Raise e) => Some (Raise e)
          | Some (Ok response) =>
              Some (if String.eqb response EmptyString then Ok PyNone
                    else match json_loads response with
                         | Some v => Ok v
                         | None => Raise JSONDecodeError
                         end)
          end
      end
  end.

(** [get_worker] is called before the [try]; what it raises reaches the
    caller.  Whatever the [try] block raises becomes [None]; when the
    [try] block waits for ever, so does [query]. *)
Definition query (ws : workers) (worker_name : string) (data : payload)
  : option (result pyval) * workers :=
  match get_worker ws worker_name with
  | (Raise e, ws') => (Some (Raise e), ws')
  | (Ok p, ws') =>
      match exchange p data with
      | None => (None, ws')
      | Some (Ok v) => (Some (Ok v), ws')
      | Some (Raise _) => (Some (Ok PyNone), ws')
      end
  end.

(** [stop_all] on one process of [self.workers.values()], and the state
    of that process once the grace period is over.  [stop_all] itself
    does not wait: a process that was sent ["EXIT"] and leaves in time is
    counted as gone. *)
Inductive outcome : Type := StillRunning | HasExited | WasKilled.

Definition send_exit (p : process) : result unit :=
  do _ <- stdin_write p (String.append "EXIT" nl);
  stdin_flush p.

Definition stop_all_one (p : process) : outcome :=
  if is_running p then
    match send_exit p with
    | Ok _ => if exits_on_exit_token p then HasExited else StillRunning
    | Raise _ => WasKilled
    end
  else HasExited.

(** [stop_all]: the state of every process of the registry afterwards,
    and the cleared registry.  The processes do not interact, so the
    order of the loop does not show. *)
Definition stop_all (ws : workers) : gmap string outcome * workers :=
  (stop_all_one <$> ws, ∅).

(** [PipelineOrchestrator.stop_workers] on one of its four processes:
    [proc.wait(timeout=2)] raises [TimeoutExpired] when the process is
    still there after the grace period, and the handler kills it. *)
Definition wait_grace (p : process) : result unit :=
  if is_running p && negb (exits_on_exit_token p)
  then Raise TimeoutExpired else Ok tt.

Definition stop_workers_one (p : process) : outcome :=
  match (do _ <- send_exit p; wait_grace p) with
  | Ok _ => HasExited
  | Raise _ => if is_running p then WasKilled else HasExited
  end.

Definition stop_workers (procs : list (option process)) : list outcome :=
  flat_map (fun proc => match proc with
                        | Some p => [stop_workers_one p]
                        | None => []
                        end) procs.

End WorkerManager.

(* --------------------------------------------------------------------- *)
(** *** Failed exchanges, and example surroundings *)

(** The ways one exchange with a started worker can go wrong and end: the
    pipe is not writable, reading raises or meets the end of the file, or
    the line is not JSON. *)
Definition exchange_fails (json_dumps : pyval -> string)
    (json_loads : string -> option pyval) (p : process) (data : payload)
  : Prop :=
  let msg := encode json_dumps data in
  (exists e, stdin_write p (String.append msg nl) = Raise e) \/
  (exists e, stdin_flush p = Raise e) \/
  (exists e, stdout_readline p msg = Some (Raise e)) \/
  stdout_readline p msg = Some (Ok EmptyString) \/
  (exists r, stdout_readline p msg = Some (Ok r) /\ json_loads r = None).

(** The exchange that does not end: the worker takes the message, stays
    alive and writes no line. *)
Definition worker_silent (json_dumps : pyval -> string) (p : process)
    (data : payload) : Prop :=
  let msg := encode json_dumps data in
  (exists u, stdin_write p (String.append msg nl) = Ok u) /\
  (exists u, stdin_flush p = Ok u) /\
  stdout_readline p msg = None.

(** Surroundings in which no worker script is on disk. *)
Definition no_scripts : string -> bool := fun _ => false.
Definition popen_refused : string -> result process := fun _ => Raise OSError.
Definition dumps_stub : pyval -> string := fun _ => "{}".
Definition loads_nothing : string -> option pyval := fun _ => None.

(** A running worker that answers every message with a line that is not
    JSON. *)
Definition garbled_worker : process :=
  Process None (fun _ => Ok tt) (Ok tt) (fun _ => Some (Ok "not json"))
    true.

(** Surroundings in which every start yields such a worker. *)
Definition popen_garbled : string -> result process :=
  fun _ => Ok garbled_worker.

(* --------------------------------------------------------------------- *)
(** *** A worker that does not leave *)

(** A running worker whose pipe accepts what is written but that neither
    answers nor leaves: it is busy, or it hangs. *)
Definition hung_worker : process :=
  Process None (fun _ => Ok tt) (Ok tt) (fun _ => None) false.

(* ===================================================================== *)
(** ** The pipeline ([workflow.py], [pipeline_orchasterator.py]) *)
(* ===================================================================== *)

(** A block after enrichment: a worker may have put any value it returned
    into ["content"]. *)
Record eblock : Type := EBlock {
  e_type : string;
  e_bbox : box;
  e_action : string;
  e_content : pyval
}.

(** A block the enrichment has not touched. *)
Definition of_block (b : block) : eblock :=
  {| e_type := type b; e_bbox := bbox b; e_action := action b;
     e_content := PyStr (content b) |}.

(** [{"page": n, "blocks": [...]}]. *)
Record page (B : Type) : Type := Page {
  page_number : nat;
  page_blocks : list B
}.
Arguments Page {B} page_number page_blocks.
Arguments page_number {B} p.
Arguments page_blocks {B} p.

(** An entry of [rag_ready_data]. *)
Inductive rag_entry : Type :=
| AudioTranscription (file_name : string) (language duration segments : pyval)
| YoutubeTranscript (file_name url video_id : string) (segments : pyval)
| EnrichedPage (p : page eblock).

Record GraphState : Type := mkGraphState {
  file_id : string;
  file_path : string;
  file_type : string;
  layout_results : option (list (page block));
  rag_ready_data : list rag_entry;
  status : string;
  error : option string
}.

Definition SUPPORTED_AUDIO : list string :=
  [".mp3"; ".wav"; ".m4a"; ".flac"; ".ogg"; ".aac"; ".wma"].
Definition SUPPORTED_VIDEO : list string :=
  [".mp4"; ".mkv"; ".mov"; ".avi"; ".wmv"; ".webm"].

(** [x in names] for a list of strings. *)
Definition str_in (x : string) (names : list string) : bool :=
  existsb (String.eqb x) names.

(** [key in v] for a string [key]: key membership in a dictionary, element
    membership in a list, substring test in a string. *)
Definition py_in (key : string) (v : pyval) : result bool :=
  match v with
  | PyDict entries =>
      Ok (match dict_lookup key entries with Some _ => true | None => false end)
  | PyList items =>
      Ok (existsb (fun it => match it with
                             | PyStr s => String.eqb s key
                             | _ => false
                             end) items)
  | PyStr s => Ok (str_contains key s)
  | _ => Raise TypeError
  end.

(** [[item['text'] for item in ocr_results]] followed by the type check of
    [join]: every item must be a dictionary whose ["text"] is a string.
    Which exception comes first does not matter to the callers, who catch
    all of them. *)
Fixpoint item_texts (items : list pyval) : result (list string) :=
  match items with
  | [] => Ok []
  | it :: rest =>
      do v <- py_item it "text";
      match v with
      | PyStr s => do texts <- item_texts rest; Ok (s :: texts)
      | _ => Raise TypeError
      end
  end.

(** The low-signal filter: text and title blocks with less than two
    characters of content are dropped. *)
Definition low_signal (b : block) : bool :=
  text_like (type b)
  && (String.eqb (content b) EmptyString
      || (str_len (strip (content b)) <? 2)%nat).

Definition cleaned_blocks (blocks : list block) : list block :=
  List.filter (fun b => negb (low_signal b)) blocks.

(** The nodes of the graph. *)
Inductive node : Type :=
| Router | ProcessMedia | ProcessYoutube | AnalyzeLayout | EnrichContent.

Section Pipeline.

(** The worker layer, with its state [W]: [manager.query] of the workflow,
    [self.query_worker] of the orchestrator. *)
Context {W : Type}.
Variable query : W -> string -> payload -> result pyval * W.

(** The surroundings: [str] on a value that is not a string;
    [os.path.splitext(p)[1].lower()]; [os.path.basename];
    [os.path.abspath]; [extract_audio_from_video] (the path of the audio
    track, [None] when ffmpeg fails); cropping the page image to a box and
    saving it at a path; the path drawn with [uuid4] for the visit of the
    block at an index of a page; whether the annotated image of a page is on
    disk; the layout engine's [process_file]; [get_video_id] and the
    transcript fetch with its formatting; [str] on an exception. *)
Variable py_str : pyval -> string.
Variable splitext_lower : string -> string.
Variable basename : string -> string.
Variable abspath : string -> string.
Variable extract_audio_from_video : string -> option string.
Variable crop_save : box -> string -> result unit.
Variable temp_path : nat -> nat -> string.
Variable annotated_image_exists : nat -> bool.
Variable process_file : string -> result (list (page block)).
Variable get_video_id : string -> option string.
Variable fetch_segments : string -> result pyval.
Variable exn_str : exn -> string.

(** [str(v)] and [f"{v}"]. *)
Definition to_str (v : pyval) : string :=
  match v with
  | PyStr s => s
  | _ => py_str v
  end.

(* --------------------------------------------------------------------- *)
(** *** Code that threads the worker state and may raise *)

Definition M (A : Type) : Type := W -> result A * W.

Definition ret {A : Type} (a : A) : M A := fun w => (Ok a, w).

Definition bindM {A B : Type} (m : M A) (k : A -> M B) : M B :=
  fun w => match m w with
           | (Ok a, w') => k a w'
           | (Raise e, w') => (Raise e, w')
           end.

Definition lift {A : Type} (r : result A) : M A := fun w => (r, w).

(** [try: body  except Exception: pass], leaving [fallback]. *)
Definition try_except {A : Type} (body : M A) (fallback : A) : W -> A * W :=
  fun w => match body w with
           | (Ok a, w') => (a, w')
           | (Raise _, w') => (fallback, w')
           end.

Notation "'run' x <- m ; k" := (bindM m (fun x => k))
  (at level 10, x name, m at level 100, k at level 200).

(* --------------------------------------------------------------------- *)
(** *** Enrichment of one block *)

(** The OCR result turned into text: the shared part of arms A and C. *)
Definition ocr_text (ocr_results : list pyval) : result string :=
  do texts <- item_texts ocr_results;
  Ok (join nl texts).

(** Arm A, [b_type == 'table']. *)
Definition table_arm (b : block) (path : string) : M eblock :=
  let is_empty := String.eqb (strip (content b)) EmptyString in
  let is_binary := str_contains "[IMAGE_BINARY]" (content b) in
  if is_empty || is_binary then
    run _ <- lift (crop_save (bbox b) path);
    run result <- (fun w => query w "table" (PathPayload (abspath path)));
    run markdown <- lift (if truthy result
                          then py_get result "markdown" (PyStr EmptyString)
                          else Ok (PyStr EmptyString));
    run adopted <- lift (if truthy markdown
                         then do c <- py_in "[TABLE_" markdown; Ok (negb c)
                         else Ok false);
    if adopted : bool then
      ret {| e_type := type b; e_bbox := bbox b;
             e_action := "local_table_reconstructed";
             e_content := markdown |}
    else
      run ocr_results <- (fun w => query w "ocr" (PathPayload (abspath path)));
      match ocr_results with
      | PyList items =>
          run detected_text <- lift (ocr_text items);
          ret {| e_type := type b; e_bbox := bbox b;
                 e_action := "table_fallback_ocr";
                 e_content :=
                   PyStr (if String.eqb (strip detected_text) EmptyString
                          then "[NO_TEXT_FOUND]" else detected_text) |}
      | _ => ret (of_block b)
      end
  else ret (of_block b).

(** Arm B, [action == "crop_image" and b_type == 'image']. *)
Definition vlm_arm (b : block) (path : string) : M eblock :=
  run _ <- lift (crop_save (bbox b) path);
  run result <- (fun w => query w "vlm" (PathPayload (abspath path)));
  match result with
  | PyDict _ =>
      run description <- lift (py_get result "description" (PyStr EmptyString));
      ret {| e_type := type b; e_bbox := bbox b;
             e_action := "vlm_described";
             e_content :=
               PyStr (String.append "[IMAGE_DESCRIPTION]"
                        (String.append nl (to_str description))) |}
  | _ => ret (of_block b)
  end.

(** Arm C, [action == "send_to_ocr"]. *)
Definition ocr_arm (b : block) (path : string) : M eblock :=
  run _ <- lift (crop_save (bbox b) path);
  run ocr_results <- (fun w => query w "ocr" (PathPayload (abspath path)));
  match ocr_results with
  | PyList items =>
      run detected_text <- lift (ocr_text items);
      if String.eqb (strip detected_text) EmptyString
      then ret {| e_type := type b; e_bbox := bbox b;
                  e_action := action b;
                  e_content := PyStr "[OCR_NO_TEXT_FOUND]" |}
      else ret {| e_type := type b; e_bbox := bbox b;
                  e_action := "ocr_extracted";
                  e_content := PyStr detected_text |}
  | _ => ret (of_block b)
  end.

(** The [if]/[elif] chain inside the [try]. *)
Definition dispatch (b : block) (path : string) : M eblock :=
  if String.eqb (type b) "table" then table_arm b path
  else if String.eqb (action b) "crop_image" && String.eqb (type b) "image"
  then vlm_arm b path
  else if String.eqb (action b) "send_to_ocr" then ocr_arm b path
  else ret (of_block b).

(** One iteration of the loop over the blocks of a page.  The two
    assignments to the block are the last statements of their branch, so an
    exception leaves the block as it was. *)
Definition enrich_block (page_num idx : nat) (b : block) : W -> eblock * W :=
  fun w =>
    if degenerate (bbox b) then (of_block b, w)
    else try_except (dispatch b (temp_path page_num idx)) (of_block b) w.

(** [run_workers_on_blocks], and the same loop in [node_enrich_content],
    from index [idx] on. *)
Fixpoint run_workers_on_blocks (page_num idx : nat) (blocks : list block)
    (w : W) : list eblock * W :=
  match blocks with
  | [] => ([], w)
  | b :: rest =>
      let '(e, w1) := enrich_block page_num idx b w in
      let '(es, w2) := run_workers_on_blocks page_num (S idx) rest w1 in
      (e :: es, w2)
  end.

(** No arm of [dispatch] matches the block. *)
Definition no_arm (b : block) : bool :=
  negb (String.eqb (type b) "table")
  && negb (String.eqb (action b) "crop_image" && String.eqb (type b) "image")
  && negb (String.eqb (action b) "send_to_ocr").

(* --------------------------------------------------------------------- *)
(** *** The nodes *)

(** A node returns the keys it sets; the graph writes them into the
    state. *)
Definition set_routed (st : GraphState) (kind : string) : GraphState :=
  {| file_id := file_id st; file_path := file_path st;
     file_type := kind;
     layout_results := layout_results st;
     rag_ready_data := rag_ready_data st;
     status := "routed"; error := error st |}.

Definition set_failed (st : GraphState) (message : string) : GraphState :=
  {| file_id := file_id st; file_path := file_path st;
     file_type := file_type st;
     layout_results := layout_results st;
     rag_ready_data := rag_ready_data st;
     status := "failed"; error := Some message |}.

Definition set_completed (st : GraphState) (data : list rag_entry)
  : GraphState :=
  {| file_id := file_id st; file_path := file_path st;
     file_type := file_type st;
     layout_results := layout_results st;
     rag_ready_data := data;
     status := "completed"; error := error st |}.

Definition set_analyzed (st : GraphState) (results : list (page block))
  : GraphState :=
  {| file_id := file_id st; file_path := file_path st;
     file_type := file_type st;
     layout_results := Some results;
     rag_ready_data := rag_ready_data st;
     status := "analyzed"; error := error st |}.

Definition node_router (st : GraphState) : GraphState :=
  if str_contains "youtube.com" (file_path st)
     || str_contains "youtu.be" (file_path st)
  then set_routed st "youtube"
  else
    let ext := splitext_lower (file_path st) in
    if str_in ext SUPPORTED_AUDIO || str_in ext SUPPORTED_VIDEO
    then set_routed st "media"
    else set_routed st "document".

Definition node_process_youtube (st : GraphState) : GraphState :=
  match get_video_id (file_path st) with
  | None => set_failed st "Invalid YouTube URL"
  | Some video_id =>
      if String.eqb video_id EmptyString
      then set_failed st "Invalid YouTube URL"
      else match fetch_segments video_id with
           | Ok segments =>
               set_completed st
                 [YoutubeTranscript (String.append "YouTube_" video_id)
                    (file_path st) video_id segments]
           | Raise e =>
               set_failed st
                 (String.append "Transcript unavailable: " (exn_str e))
           end
  end.

(** The path handed to the transcription worker: the file itself, or the
    audio track extracted from a video; [None] when the extraction
    fails. *)
Definition media_target (st : GraphState) : option string :=
  if str_in (splitext_lower (file_path st)) SUPPORTED_VIDEO
  then match extract_audio_from_video (file_path st) with
       | Some temp_audio_path =>
           if String.eqb temp_audio_path EmptyString then None
           else Some temp_audio_path
       | None => None
       end
  else Some (file_path st).

(** [node_process_media] from the test of [result] (here [answer]) on.  The removal of the
    temporary audio file changes nothing the node returns. *)
Definition transcription_outcome (st : GraphState) (answer : pyval)
  : result GraphState :=
  do failed <- (if negb (truthy answer) then Ok true
                else py_in "error" answer);
  if failed : bool then Ok (set_failed st (to_str answer))
  else
    do language <- py_get answer "language" PyNone;
    do duration <- py_get answer "duration" PyNone;
    do segments <- py_get answer "blocks" (PyList []);
    Ok (set_completed st
          [AudioTranscription (basename (file_path st))
             language duration segments]).

Definition node_process_media (st : GraphState) : M GraphState :=
  match media_target st with
  | None => ret (set_failed st "Video extraction failed")
  | Some target_path =>
      run result <- (fun w => query w "audio"
                                (PathPayload (abspath target_path)));
      lift (transcription_outcome st result)
  end.

Definition node_analyze_layout (st : GraphState) : GraphState :=
  match process_file (file_path st) with
  | Ok results => set_analyzed st results
  | Raise e => set_failed st (exn_str e)
  end.

(** The loop over the pages: a page whose annotated image is not on disk
    is skipped. *)
Fixpoint enrich_pages (pages : list (page block)) (w : W)
  : list rag_entry * W :=
  match pages with
  | [] => ([], w)
  | page_data :: rest =>
      let cleaned := cleaned_blocks (page_blocks page_data) in
      if annotated_image_exists (page_number page_data)
      then
        let '(blocks, w1) :=
          run_workers_on_blocks (page_number page_data) 0 cleaned w in
        let '(final_pages, w2) := enrich_pages rest w1 in
        (EnrichedPage (Page (page_number page_data) blocks) :: final_pages, w2)
      else enrich_pages rest w
  end.

Definition node_enrich_content (st : GraphState) : M GraphState :=
  match layout_results st with
  | None => lift (Raise KeyError)
  | Some layout_data =>
      fun w => let '(final_pages, w') := enrich_pages layout_data w in
               (Ok (set_completed st final_pages), w')
  end.

(* --------------------------------------------------------------------- *)
(** *** The graph *)

(** [route_next_step]; [None] is [END]. *)
Definition route_next_step (st : GraphState) : option node :=
  if String.eqb (status st) "failed" then None
  else if String.eqb (file_type st) "youtube" then Some ProcessYoutube
  else if String.eqb (file_type st) "media" then Some ProcessMedia
  else Some AnalyzeLayout.

(** The edges added to [workflow]. *)
Definition next_node (n : node) (st : GraphState) : option node :=
  match n with
  | Router => route_next_step st
  | ProcessMedia => None
  | ProcessYoutube => None
  | AnalyzeLayout => Some EnrichContent
  | EnrichContent => None
  end.

Definition run_node (n : node) (st : GraphState) : M GraphState :=
  match n with
  | Router => ret (node_router st)
  | ProcessMedia => node_process_media st
  | ProcessYoutube => ret (node_process_youtube st)
  | AnalyzeLayout => ret (node_analyze_layout st)
  | EnrichContent => node_enrich_content st
  end.

(** A run from node [n]: the final state and the nodes visited, in order.
    [None] when [fuel] nodes were not enough. *)
Fixpoint invoke_from (fuel : nat) (n : node) (visited : list node)
    (st : GraphState) (w : W)
  : option (result (GraphState * list node) * W) :=
  match fuel with
  | O => None
  | S fuel' =>
      match run_node n st w with
      | (Raise e, w') => Some (Raise e, w')
      | (Ok st', w') =>
          match next_node n st' with
          | None => Some (Ok (st', visited ++ [n]), w')
          | Some n' => invoke_from fuel' n' (visited ++ [n]) st' w'
          end
      end
  end.

(** [app_workflow.invoke]: the entry point is the router, and no path of
    the graph has more than three nodes. *)
Definition app_workflow (st : GraphState) (w : W)
  : option (result (GraphState * list node) * W) :=
  invoke_from 3 Router [] st w.

End Pipeline.

(* --------------------------------------------------------------------- *)
(** *** Scenario D and a page with untouched blocks *)

(** A worker layer without state whose every answer is
    [{"error": "decode failed"}]. *)
Definition decode_failed : pyval :=
  PyDict [("error", PyStr "decode failed")].
Definition query_decode_failed
  : unit -> string -> payload -> result pyval * unit :=
  fun w _ _ => (Ok decode_failed, w).
Definition str_decode_failed : pyval -> string :=
  fun _ => "{'error': 'decode failed'}".
Definition ext_mp3 : string -> string := fun _ => ".mp3".
Definition same_path : string -> string := fun p => p.
Definition no_ffmpeg : string -> option string := fun _ => None.
Definition crop_ok : box -> string -> result unit := fun _ _ => Ok tt.
Definition one_temp_path : nat -> nat -> string :=
  fun _ _ => "temp_worker.jpg".
Definition images_on_disk : nat -> bool := fun _ => true.
Definition no_layout : string -> result (list (page block)) := fun _ => Ok [].
Definition no_video_id : string -> option string := fun _ => None.
Definition no_segments : string -> result pyval := fun _ => Ok PyNone.
Definition exn_text : exn -> string := fun _ => "error".

Definition lecture : GraphState :=
  mkGraphState "file-1" "lecture.mp3" EmptyString None [] EmptyString None.

(** A page with a caption, a table whose box has no height and a
    handwriting region. *)
Definition caption_block : block :=
  Block "text" (Box 0 0 100 20) "extract_text" "Figure 1".
Definition flat_table : block :=
  Block "table" (Box 0 30 100 30) "extract_table_logic" "[EMPTY_TABLE]".
Definition note_block : block :=
  Block "handwriting_region" (Box 0 40 100 80) "send_to_ocr"
    "[HANDWRITING_IMAGE]".

(* ===================================================================== *)
(** ** Further notions on the merge engine *)
(* ===================================================================== *)

(** [inner] lies within [outer], edges included. *)
Definition box_within (inner outer : box) : Prop :=
  bx0 outer <= bx0 inner /\ by0 outer <= by0 inner /\
  bx1 inner <= bx1 outer /\ by1 inner <= by1 outer.

(** [o] is the smallest box around the boxes [srcs]: it holds each of them
    and each of its edges is an edge of one of them. *)
Definition bounding_box (o : box) (srcs : list box) : Prop :=
  Forall (fun s => box_within s o) srcs /\
  (exists s, In s srcs /\ bx0 o = bx0 s) /\
  (exists s, In s srcs /\ by0 o = by0 s) /\
  (exists s, In s srcs /\ bx1 o = bx1 s) /\
  (exists s, In s srcs /\ by1 o = by1 s).

(** Some table detection holds the base block (score above 0.5). *)
Definition inside_some_table (table_blocks : list detection)
    (p_block : base_block) : bool :=
  existsb (fun t => contained (d_bbox t) p_block) table_blocks.

(** The score of [calculate_iou] between two final blocks is at most 0.2. *)
Definition score_within (a b : box) : Prop :=
  exists s, calculate_iou a b = Ok s /\ s <= 1 # 5.

(** What a merged block keeps of its sources: their contents joined by
    line breaks, in order, and the action of the first of them. *)
Definition text_kept (o : block) (sources : list block) : Prop :=
  content o = join nl (map content sources) /\
  exists first others, sources = first :: others /\ action o = action first.


(* ===================================================================== *)
(** ** The worker scripts: the loop over standard input *)
(* ===================================================================== *)

(** The main loop of [audio_worker.py], [table_worker.py], [ocr_worker.py]
    and [vlm_worker.py] over the lines of standard input.  [handle] is the
    line printed for a request: the JSON text of the worker's result, which
    the worker computes without raising.  The result is the list of lines
    printed. *)
Fixpoint worker_loop (handle : string -> string) (lines : list string)
  : list string :=
  match lines with
  | [] => []
  | line :: rest =>
      let path := strip line in
      if String.eqb path EmptyString then worker_loop handle rest
      else if String.eqb path "EXIT" then []
      else handle path :: worker_loop handle rest
  end.

(** A line that is blank after [strip()]. *)
Definition blank_line (line : string) : bool :=
  String.eqb (strip line) EmptyString.

(** A line that reads ["EXIT"] after [strip()]. *)
Definition exit_line (line : string) : bool :=
  String.eqb (strip line) "EXIT".

(* ===================================================================== *)
(** ** [PipelineOrchestrator] ([pipeline_orchasterator.py]) *)
(* ===================================================================== *)

(** The four process fields; [None] before [start_workers]. *)
Record orchestrator : Type := Orchestrator {
  vlm_process : option process;
  ocr_process : option process;
  table_process : option process;
  audio_process : option process
}.

(** What a call of [process_file] leaves behind: what it returned or
    raised (the data it saved), [None] when it never ended; the processes
    it started; and what [stop_workers] did to each process it was run
    on. *)
Record run_report : Type := RunReport {
  returned : option (result (list rag_entry));
  started : list process;
  teardown : list outcome
}.

Section Orchestrator.

(** The surroundings: as for [WorkerManager] and the workflow, with the
    layout engine's [process_file], [os.makedirs] on the output directory
    and the writing of the JSON file. *)
Variable popen : string -> result process.
Variable json_dumps : pyval -> string.
Variable json_loads : string -> option pyval.
Variable py_str : pyval -> string.
Variable splitext_lower : string -> string.
Variable basename : string -> string.
Variable abspath : string -> string.
Variable extract_audio_from_video : string -> option string.
Variable crop_save : box -> string -> result unit.
Variable temp_path : nat -> nat -> string.
Variable annotated_image_exists : nat -> bool.
Variable layout_process_file : string -> result (list (page block)).
Variable make_output_dir : string -> result unit.
Variable save_json : string -> list rag_entry -> result unit.

(** [start_workers]: four calls of [Popen], in this order; with the
    result, the processes started before a call raised. *)
Definition start_workers : result orchestrator * list process :=
  match popen "workers/vlm_worker.py" with
  | Raise e => (Raise e, [])
  | Ok vlm =>
      match popen "workers/ocr_worker.py" with
      | Raise e => (Raise e, [vlm])
      | Ok ocr =>
          match popen "workers/table_worker.py" with
          | Raise e => (Raise e, [vlm; ocr])
          | Ok table =>
              match popen "workers/audio_worker.py" with
              | Raise e => (Raise e, [vlm; ocr; table])
              | Ok audio =>
                  (Ok (Orchestrator (Some vlm) (Some ocr) (Some table)
                         (Some audio)),
                   [vlm; ocr; table; audio])
              end
          end
      end
  end.

(** [query_worker]: the whole exchange is inside the [try], and the
    function ends with [return None]; it does not return when [readline]
    does not. *)
Definition query_worker (proc : option process) (data : payload)
  : option pyval :=
  match proc with
  | None => Some PyNone
  | Some p =>
      match exchange json_dumps json_loads p data with
      | None => None
      | Some (Ok v) => Some v
      | Some (Raise _) => Some PyNone
      end
  end.

(** [process_media].  The message printed on failure evaluates
    [result.get('error')] when [result] is truthy. *)
Definition process_media (self : orchestrator) (file_path : string)
  : option (result (list rag_entry)) :=
  match media_target splitext_lower extract_audio_from_video
          (mkGraphState EmptyString file_path EmptyString None []
             EmptyString None) with
  | None => Some (Ok [])
  | Some target_path =>
      match query_worker (audio_process self)
              (PathPayload (abspath target_path)) with
      | None => None
      | Some answer =>
          Some
            (do failed <- (if negb (truthy answer) then Ok true
                           else py_in "error" answer);
             if failed : bool then
               do _ <- (if truthy answer then py_get answer "error" PyNone
                        else Ok (PyStr "Unknown"));
               Ok []
             else
               do language <- py_get answer "language" PyNone;
               do duration <- py_get answer "duration" PyNone;
               do segments <- py_get answer "blocks" (PyList []);
               Ok [AudioTranscription (basename file_path)
                     language duration segments])
      end
  end.

(** The worker layer [run_workers_on_blocks] uses here: [query_worker] on
    the process field of the capability.  Its state is a flag, raised by a
    call that does not return: nothing of what the loop computes after
    such a call is ever reached. *)
Definition query_field (self : orchestrator)
  : bool -> string -> payload -> result pyval * bool :=
  fun stuck name data =>
    let proc :=
      if String.eqb name "table" then table_process self
      else if String.eqb name "ocr" then ocr_process self
      else if String.eqb name "vlm" then vlm_process self
      else audio_process self in
    match query_worker proc data with
    | Some v => (Ok v, stuck)
    | None => (Ok PyNone, true)
    end.

(** The loop over the pages of the document branch: a page without its
    annotated image keeps the blocks the layout engine gave it.  With the
    pages goes the flag of [query_field]. *)
Fixpoint post_process_pages (self : orchestrator)
    (layout_results : list (page block)) (stuck : bool)
  : list rag_entry * bool :=
  match layout_results with
  | [] => ([], stuck)
  | page_data :: rest =>
      let '(blocks, stuck1) :=
        if annotated_image_exists (page_number page_data)
        then run_workers_on_blocks (query_field self) py_str abspath
               crop_save temp_path (page_number page_data) 0
               (cleaned_blocks (page_blocks page_data)) stuck
        else (map of_block (page_blocks page_data), stuck) in
      let '(others, stuck2) := post_process_pages self rest stuck1 in
      (EnrichedPage (Page (page_number page_data) blocks) :: others, stuck2)
  end.

(** The [try] block of [process_file]; [None] when a worker call in it
    does not return. *)
Definition pipeline_body (self : orchestrator) (file_path : string)
  : option (result (list rag_entry)) :=
  let file_ext := splitext_lower file_path in
  let gathered : option (result (list rag_entry)) :=
    if str_in file_ext SUPPORTED_AUDIO || str_in file_ext SUPPORTED_VIDEO
    then match make_output_dir file_path with
         | Raise e => Some (Raise e)
         | Ok _ => process_media self file_path
         end
    else match layout_process_file file_path with
         | Raise e => Some (Raise e)
         | Ok layout_results =>
             match post_process_pages self layout_results false with
             | (_, true) => None
             | (pages, false) => Some (Ok pages)
             end
         end in
  match gathered with
  | None => None
  | Some r =>
      Some (do final_data <- r;
            do _ <- save_json file_path final_data;
            Ok final_data)
  end.

(** [process_file]: [start_workers] runs before the [try]; [stop_workers]
    is the [finally] of the [try], reached when the [try] block ends. *)
Definition orchestrator_process_file (file_path : string) : run_report :=
  match start_workers with
  | (Raise e, procs) =>
      {| returned := Some (Raise e); started := procs; teardown := [] |}
  | (Ok self, procs) =>
      let body := pipeline_body self file_path in
      {| returned := body;
         started := procs;
         teardown :=
           match body with
           | Some _ =>
               stop_workers [vlm_process self; ocr_process self;
                             table_process self; audio_process self]
           | None => []
           end |}
  end.

End Orchestrator.

(** The page number of an entry of [rag_ready_data] that is a page. *)
Definition entry_page (entry : rag_entry) : option nat :=
  match entry with
  | EnrichedPage p => Some (page_number p)
  | _ => None
  end.

(** Surroundings for the examples: a layout engine that finds no page, an
    output directory that can be made, a JSON file that can be written. *)
Definition dir_ok : string -> result unit := fun _ => Ok tt.
Definition save_ok : string -> list rag_entry -> result unit :=
  fun _ _ => Ok tt.

(** A worker that answers every request with a JSON string that reports an
    error in words. *)
Definition error_text : pyval := PyStr "error: model not loaded".
Definition talkative_worker : process :=
  Process None (fun _ => Ok tt) (Ok tt) (fun _ => Some (Ok "reply")) true.
Definition loads_error_text : string -> option pyval :=
  fun _ => Some error_text.

(* ===================================================================== *)
(** ** Further notions on the enrichment *)
(* ===================================================================== *)

(** A worker layer never gives more than "unavailable": each call returns
    [None] or raises. *)
Definition workers_unavailable {W : Type}
    (query : W -> string -> payload -> result pyval * W) : Prop :=
  forall w name data,
    fst (query w name data) = Ok PyNone \/
    exists e, fst (query w name data) = Raise e.

(** The table arm has nothing to do: the content is neither blank nor an
    image placeholder. *)
Definition table_has_content (b : block) : bool :=
  negb (String.eqb (strip (content b)) EmptyString)
  && negb (str_contains "[IMAGE_BINARY]" (content b)).

(** What the OCR arm can leave in a block [b]. *)
Definition ocr_arm_result (b : block) (e : eblock) : Prop :=
  e = of_block b \/
  e = EBlock (type b) (bbox b) (action b) (PyStr "[OCR_NO_TEXT_FOUND]") \/
  exists text,
    String.eqb (strip text) EmptyString = false /\
    e = EBlock (type b) (bbox b) "ocr_extracted" (PyStr text).

(** What the captioning arm can leave in a block [b]. *)
Definition vlm_arm_result (b : block) (e : eblock) : Prop :=
  e = of_block b \/
  exists description,
    e = EBlock (type b) (bbox b) "vlm_described"
          (PyStr (String.append "[IMAGE_DESCRIPTION]"
                    (String.append nl description))).

(** What the table arm can leave in a block [b]. *)
Definition table_arm_result (b : block) (e : eblock) : Prop :=
  e = of_block b \/
  (exists markdown,
     truthy markdown = true /\ py_in "[TABLE_" markdown = Ok false /\
     e = EBlock (type b) (bbox b) "local_table_reconstructed" markdown) \/
  e = EBlock (type b) (bbox b) "table_fallback_ocr" (PyStr "[NO_TEXT_FOUND]") \/
  exists text,
    String.eqb (strip text) EmptyString = false /\
    e = EBlock (type b) (bbox b) "table_fallback_ocr" (PyStr text).

(** Surroundings for the examples: a document, a layout engine that
    raises, a worker layer that is never available, a video link. *)
Definition ext_pdf : string -> string := fun _ => ".pdf".
Definition layout_raises : string -> result (list (page block)) :=
  fun _ => Raise OSError.
Definition query_none : unit -> string -> payload -> result pyval * unit :=
  fun w _ _ => (Ok PyNone, w).
Definition report : GraphState :=
  mkGraphState "file-2" "report.pdf" EmptyString None [] EmptyString None.
Definition video_link : GraphState :=
  mkGraphState "yt_abc" "https://youtu.be/abc.mp4" EmptyString None []
    EmptyString None.

(* ===================================================================== *)
(** ** [SemanticChunker] ([chunking_engine.py]) *)
(* ===================================================================== *)

(** A chunk: [{"id", "text", "metadata": {"file_id", "page" or
    "timestamp", "type", "source"}}]. *)
Record chunk : Type := Chunk {
  chunk_id : string;
  chunk_text : pyval;
  chunk_file_id : string;
  chunk_page : option nat;
  chunk_timestamp : option pyval;
  chunk_type : string;
  chunk_source : string
}.

(** [len(v)]. *)
Definition py_len (v : pyval) : result nat :=
  match v with
  | PyStr s => Ok (str_len s)
  | PyList items => Ok (length items)
  | PyDict entries => Ok (length entries)
  | _ => Raise TypeError
  end.

(** The type a block is indexed under. *)
Definition final_type (b_type action : string) : string :=
  if String.eqb b_type "table" then "table"
  else if String.eqb b_type "image" || str_contains "vlm_described" action
  then "image_description"
  else if String.eqb b_type "handwritten" then "handwritten_text"
  else if String.eqb b_type "title" then "title"
  else "text".

(** [seg.get('text', '')] as the string it has to be for
    [text + " "]. *)
Definition segment_text (seg : pyval) : result string :=
  do text <- py_get seg "text" (PyStr EmptyString);
  match text with
  | PyStr s => Ok s
  | _ => Raise TypeError
  end.

(** Iteration over a value: the items of a list, the keys of a dictionary,
    the characters of a string. *)
Definition py_iter (v : pyval) : result (list pyval) :=
  match v with
  | PyList items => Ok items
  | PyDict entries => Ok (map (fun kv => PyStr (fst kv)) entries)
  | PyStr s =>
      Ok (map (fun g => PyStr (string_of_list_ascii g))
            (code_points (list_ascii_of_string s)))
  | _ => Raise TypeError
  end.

Section Chunker.

(** The surroundings: [str] on a value that is not a string, and the
    recursive character splitter's [split_text]. *)
Variable py_str : pyval -> string.
Variable split_text : pyval -> result (list string).

(** [f"{file_id}_p{page_num}_{block['bbox'][1]}"]. *)
Definition block_chunk_id (file_id : string) (page_num : nat) (b : eblock)
  : string :=
  String.append file_id
    (String.append "_p"
       (String.append (to_str py_str (PyNum (inject_Z (Z.of_nat page_num))))
          (String.append "_" (to_str py_str (PyNum (by0 (e_bbox b))))))).

(** The chunks of the pieces [split_texts], numbered from [i]. *)
Fixpoint split_chunks (file_id : string) (page_num : nat) (b : eblock)
    (ftype : string) (i : nat) (split_texts : list string) : list chunk :=
  match split_texts with
  | [] => []
  | text :: rest =>
      {| chunk_id :=
           String.append (block_chunk_id file_id page_num b)
             (String.append "_"
                (to_str py_str (PyNum (inject_Z (Z.of_nat i)))));
         chunk_text := PyStr text;
         chunk_file_id := file_id;
         chunk_page := Some page_num;
         chunk_timestamp := None;
         chunk_type := ftype;
         chunk_source := "document" |}
      :: split_chunks file_id page_num b ftype (S i) rest
  end.

(** The body of the loop over the blocks of a page. *)
Definition block_chunks (file_id : string) (page_num : nat) (b : eblock)
  : result (list chunk) :=
  let content := e_content b in
  do skipped <- (if negb (truthy content) then Ok true
                 else do n <- py_len content; Ok (n <? 5)%nat);
  if skipped : bool then Ok []
  else
    let ftype := final_type (e_type b) (e_action b) in
    if String.eqb ftype "table"
    then Ok [ {| chunk_id := block_chunk_id file_id page_num b;
                 chunk_text := content;
                 chunk_file_id := file_id;
                 chunk_page := Some page_num;
                 chunk_timestamp := None;
                 chunk_type := "table";
                 chunk_source := "document" |} ]
    else do split_texts <- split_text content;
         Ok (split_chunks file_id page_num b ftype 0 split_texts).

Fixpoint blocks_chunks (file_id : string) (page_num : nat)
    (blocks : list eblock) : result (list chunk) :=
  match blocks with
  | [] => Ok []
  | b :: rest =>
      do first <- block_chunks file_id page_num b;
      do others <- blocks_chunks file_id page_num rest;
      Ok (first ++ others)
  end.

(** The document loop over the entries of the data.  An entry that is not
    a page has no ["blocks"] key: its block list is the default, empty. *)
Fixpoint document_chunks (file_id : string) (data : list rag_entry)
  : result (list chunk) :=
  match data with
  | [] => Ok []
  | entry :: rest =>
      do first <- match entry with
                  | EnrichedPage p =>
                      blocks_chunks file_id (page_number p) (page_blocks p)
                  | _ => Ok []
                  end;
      do others <- document_chunks file_id rest;
      Ok (first ++ others)
  end.

(** The chunk [_process_audio] appends for the text gathered so far. *)
Definition audio_chunk (file_id : string) (current_chunk : string)
    (start_time : pyval) : chunk :=
  {| chunk_id :=
       String.append file_id
         (String.append "_audio_" (to_str py_str start_time));
     chunk_text := PyStr (strip current_chunk);
     chunk_file_id := file_id;
     chunk_page := None;
     chunk_timestamp := Some start_time;
     chunk_type := "audio_transcript";
     chunk_source := "audio" |}.

(** The loop of [_process_audio] with its closing [if current_chunk].
    Next to each chunk goes a ghost: the segments whose text it holds. *)
Fixpoint audio_loop (file_id : string) (segments : list pyval)
    (current_chunk : string) (start_time : pyval) (group : list pyval)
  : result (list (chunk * list pyval)) :=
  match segments with
  | [] =>
      Ok (if String.eqb current_chunk EmptyString then []
          else [(audio_chunk file_id current_chunk start_time, group)])
  | seg :: rest =>
      do text <- segment_text seg;
      do start_time' <- (if String.eqb current_chunk EmptyString
                         then py_get seg "start" (PyNum 0)
                         else Ok start_time);
      let current_chunk' :=
        String.append current_chunk (String.append text " ") in
      if (1000 <? str_len current_chunk')%nat
      then do others <- audio_loop file_id rest EmptyString start_time' [];
           Ok ((audio_chunk file_id current_chunk' start_time',
                group ++ [seg]) :: others)
      else audio_loop file_id rest current_chunk' start_time'
             (group ++ [seg])
  end.

Definition _process_audio (file_id : string) (segments : pyval)
  : result (list chunk) :=
  do items <- py_iter segments;
  do grouped <- audio_loop file_id items EmptyString (PyNum 0) [];
  Ok (map fst grouped).

(** [process_json] on the data read back from the JSON file. *)
Definition process_json (data : list rag_entry) (file_id : string)
  : result (list chunk) :=
  match data with
  | AudioTranscription _ _ _ segments :: _ => _process_audio file_id segments
  | _ => document_chunks file_id data
  end.

End Chunker.

(** The text a segment adds to the running chunk. *)
Definition segment_piece (seg : pyval) : string :=
  match segment_text seg with
  | Ok text => String.append text " "
  | Raise _ => EmptyString
  end.

(** The running text of a group of segments. *)
Definition group_text (group : list pyval) : string :=
  fold_left (fun acc seg => String.append acc (segment_piece seg)) group
    EmptyString.

(** A segment as the transcription worker writes it: a dictionary whose
    ["text"], if present, is a string. *)
Definition well_formed_segment (seg : pyval) : Prop :=
  exists text, segment_text seg = Ok text.

Definition is_youtube_entry (entry : rag_entry) : bool :=
  match entry with
  | YoutubeTranscript _ _ _ _ => true
  | _ => false
  end.

(** [seg.get('start', 0.0)] of a segment that is a dictionary. *)
Definition segment_start (seg : pyval) : pyval :=
  match py_get seg "start" (PyNum 0) with
  | Ok v => v
  | Raise _ => PyNum 0
  end.

(** The start of the first segment of a group. *)
Definition group_start (group : list pyval) : pyval :=
  match group with
  | seg :: _ => segment_start seg
  | [] => PyNum 0
  end.

(** A block the document loop does not skip: its content is truthy and at
    least five long. *)
Definition chunked_block (b : eblock) : Prop :=
  truthy (e_content b) = true /\
  exists n, py_len (e_content b) = Ok n /\ (5 <= n)%nat.

(** What the audio loop returns for a group of well-formed segments:
    the chunk of the group's text, stamped with the group's start, and the
    group was within 1000 characters before its last segment. *)
Definition audio_group_ok (py_str : pyval -> string) (file_id : string)
    (cg : chunk * list pyval) : Prop :=
  snd cg <> [] /\
  fst cg = audio_chunk py_str file_id (group_text (snd cg))
             (group_start (snd cg)) /\
  (str_len (group_text (removelast (snd cg))) <= 1000)%nat.

(* ===================================================================== *)
(** ** The structural fallbacks of the layout engine *)
(* ===================================================================== *)

(** The loop of [process_docx_structurally] over [doc.paragraphs], given
    the text of each paragraph, from [current_y] on; with the [break].
    The canvas the text is drawn on does not reach the result and is left
    out. *)
Fixpoint docx_blocks (paragraphs : list string) (current_y : Z)
  : list block :=
  match paragraphs with
  | [] => []
  | para :: rest =>
      let text := strip para in
      if String.eqb text EmptyString then docx_blocks rest current_y
      else
        let b := {| type := "text";
                    bbox := Box 50 (inject_Z current_y) 750
                              (inject_Z (current_y + 20));
                    action := "extract_text";
                    content := text |} in
        if (950 <? current_y + 30)%Z then [b]
        else b :: docx_blocks rest (current_y + 30)
  end.

(** [process_docx_structurally] once the document is open: one page. *)
Definition process_docx_structurally (paragraphs : list string)
  : list (page block) :=
  [Page 1 (docx_blocks paragraphs 50)].

(** The kind of a slide shape, as far as the loop tests it. *)
Inductive shape_kind : Type := PICTURE | TABLE | OTHER_SHAPE.

(** A slide shape.  [has_left] is [hasattr(shape, "left")]; the four
    lengths are integers, in EMU; [image_loads] tells whether the picture's blob can
    be opened, resized and pasted; [table_cells] holds the text of the
    cells of a table, row by row; [shape_text] is [shape.text] when the
    shape has the attribute. *)
Record shape : Type := Shape {
  has_left : bool;
  left : Z;
  shape_top : Z;
  width : Z;
  height : Z;
  shape_type : shape_kind;
  image_loads : bool;
  table_cells : list (list string);
  shape_text : option string
}.

(** [int(v / 9525)]: the quotient, rounded towards zero. *)
Definition emu_to_px (v : Z) : Z := Z.quot v 9525.

(** The blocks one shape adds, in the order of the three [if]s. *)
Definition shape_blocks (s : shape) : list block :=
  if negb (has_left s) then []
  else
    let x := emu_to_px (left s) in
    let y := emu_to_px (shape_top s) in
    let w := emu_to_px (width s) in
    let h := emu_to_px (height s) in
    if (w <=? 0)%Z || (h <=? 0)%Z then []
    else
      let bbox := Box (inject_Z x) (inject_Z y)
                    (inject_Z (x + w)) (inject_Z (y + h)) in
      (match shape_type s with
       | PICTURE =>
           if image_loads s
           then [Block "image" bbox "crop_image" "[IMAGE_BINARY]"]
           else []
       | _ => []
       end)
      ++ (match shape_type s with
          | TABLE =>
              [Block "table" bbox "extract_table_logic"
                 (join nl (map (fun row => join " | " (map strip row))
                             (table_cells s)))]
          | _ => []
          end)
      ++ (match shape_text s with
          | Some text =>
              if String.eqb (strip text) EmptyString then []
              else [Block "text" bbox "extract_text" (strip text)]
          | None => []
          end).

(** The blocks of one slide of [process_pptx_structurally]. *)
Definition slide_blocks (shapes : list shape) : list block :=
  merge_consecutive_blocks (flat_map shape_blocks shapes).

(** The text of the paragraphs that are not blank. *)
Definition docx_texts (paragraphs : list string) : list string :=
  List.filter (fun t => negb (String.eqb t EmptyString))
    (map strip paragraphs).

(* ===================================================================== *)
(** ** The vector store *)
(* ===================================================================== *)

(** [l[i:j]] for indices that are not negative. *)
Definition slice {A : Type} (l : list A) (i j : nat) : list A :=
  firstn (j - i)%nat (skipn i l).

(** [range(i, stop, step)]; the loop runs at most [fuel] times. *)
Fixpoint range_from (fuel i stop step : nat) : list nat :=
  match fuel with
  | O => []
  | S fuel' =>
      if (i <? stop)%nat then i :: range_from fuel' (i + step)%nat stop step
      else []
  end.

(** [range(0, stop, step)] for a positive step: [stop] rounds are enough. *)
Definition range_step (stop step : nat) : list nat :=
  range_from stop 0 stop step.

(** The metadata of a chunk. *)
Definition chunk_metadata (c : chunk)
  : string * option nat * option pyval * string * string :=
  (chunk_file_id c, chunk_page c, chunk_timestamp c, chunk_type c,
   chunk_source c).

(** One call of [collection.upsert]. *)
Record upsert_call (vector : Type) : Type := Upsert {
  up_ids : list string;
  up_documents : list pyval;
  up_embeddings : list vector;
  up_metadatas : list (string * option nat * option pyval * string * string)
}.
Arguments Upsert {vector}.
Arguments up_ids {vector}.
Arguments up_documents {vector}.
Arguments up_embeddings {vector}.
Arguments up_metadatas {vector}.

Section VectorStore.

Variable vector : Type.
(** [genai_client.models.embed_content] followed by the extraction of the
    vectors; [None] when either raises. *)
Variable embed_content : list pyval -> option (list vector).

(** The loop of [_generate_embeddings] over the batch starts. *)
Fixpoint embed_batches (starts : list nat) (texts : list pyval)
    (all_embeddings : list vector) : list vector :=
  match starts with
  | [] => all_embeddings
  | i :: rest =>
      let batch := slice texts i (i + 90)%nat in
      match embed_content batch with
      | Some batch_embeddings =>
          embed_batches rest texts (all_embeddings ++ batch_embeddings)
      | None => []
      end
  end.

Definition _generate_embeddings (texts : list pyval) : list vector :=
  embed_batches (range_step (length texts) 90) texts [].

(** The collection, and [collection.upsert] on it: what the call returns
    or raises, and the collection afterwards.  What a call keeps of the
    records it is given, and what it does with an id it meets twice, is
    the collection's own. *)
Variable collection : Type.
Variable upsert : collection -> upsert_call vector -> result unit * collection.

(** The loop of [add_chunks] over the batch starts; an [upsert] that
    raises ends it.  [made] is a ghost: the calls made so far, in
    order. *)
Fixpoint upsert_batches (starts : list nat) (ids : list string)
    (texts : list pyval) (embeddings : list vector)
    (metadatas : list (string * option nat * option pyval * string * string))
    (c : collection) (made : list (upsert_call vector))
  : result unit * collection * list (upsert_call vector) :=
  match starts with
  | [] => (Ok tt, c, made)
  | i :: rest =>
      let e := (i + 500)%nat in
      let call :=
        Upsert (slice ids i e) (slice texts i e) (slice embeddings i e)
          (slice metadatas i e) in
      match upsert c call with
      | (Ok _, c') =>
          upsert_batches rest ids texts embeddings metadatas c'
            (made ++ [call])
      | (Raise x, c') => (Raise x, c', made ++ [call])
      end
  end.

(** [add_chunks]: what it returns or raises, the collection afterwards,
    and the calls of [collection.upsert] it made. *)
Definition add_chunks (chunks : list chunk) (c : collection)
  : result unit * collection * list (upsert_call vector) :=
  match chunks with
  | [] => (Ok tt, c, [])
  | _ =>
      let ids := map chunk_id chunks in
      let texts := map chunk_text chunks in
      let metadatas := map chunk_metadata chunks in
      let embeddings := _generate_embeddings texts in
      if negb (length embeddings =? length ids)%nat then (Ok tt, c, [])
      else upsert_batches (range_step (length ids) 500) ids texts
             embeddings metadatas c []
  end.

(** The collection after a list of calls. *)
Definition collection_after (calls : list (upsert_call vector))
    (c : collection) : collection :=
  fold_left (fun c' call => snd (upsert c' call)) calls c.

End VectorStore.

(** The batches a list is cut into. *)
Definition batches {A : Type} (size : nat) (l : list A) : list (list A) :=
  map (fun i => slice l i (i + size)%nat) (range_step (length l) size).

(** The upsert that stores a group of chunks, each with its vector. *)
Definition upsert_of {vector : Type} (group : list (chunk * vector))
  : upsert_call vector :=
  Upsert (map (fun cv => chunk_id (fst cv)) group)
    (map (fun cv => chunk_text (fst cv)) group)
    (map snd group)
    (map (fun cv => chunk_metadata (fst cv)) group).

(* ===================================================================== *)
(** ** The file handlers of the layout engine *)
(* ===================================================================== *)

Module HybridLayoutEngine.

Section Files.

(** [os.path.splitext(path)[1].lower()] and [os.path.splitext(path)[0]]. *)
Variable splitext_lower : string -> string.
Variable splitext_root : string -> string.
Variable abspath : string -> string.
Variable path_exists : string -> bool.
(** The creation of the output directory of a file, when it is missing. *)
Variable make_output_dir : string -> result unit.
Variable process_pdf : string -> result (list (page block)).
Variable process_image : string -> result (list (page block)).
(** The conversions through Word and PowerPoint, from the office file to
    the pdf path; [false] when anything in the [try] raises. *)
Variable convert_docx : string -> string -> bool.
Variable convert_pptx : string -> string -> bool.
(** [docx.Document(path)] and [Presentation(path)], as far as the loops
    read them; [None] when the load raises. *)
Variable open_docx : string -> option (list string).
Variable open_pptx : string -> option (list (list shape)).
(** [visualize_page] on the rebuilt page, when the output directory
    exists. *)
Variable visualize_page : nat -> list block -> result unit.

(** The loop of [process_pptx_structurally] over the slides; [i] is the
    index of the first of them. *)
Fixpoint pptx_pages (slides : list (list shape)) (i : nat)
  : result (list (page block)) :=
  match slides with
  | [] => Ok []
  | shapes :: rest =>
      let merged_blocks := slide_blocks shapes in
      do _ <- visualize_page (S i) merged_blocks;
      do results <- pptx_pages rest (S i);
      Ok (Page (S i) merged_blocks :: results)
  end.

(** [process_pptx_structurally] from the path: only the load is under
    [try]. *)
Definition process_pptx_structurally_from (pptx_path : string)
  : result (list (page block)) :=
  match open_pptx pptx_path with
  | None => Ok []
  | Some slides => pptx_pages slides 0
  end.

(** [process_docx_structurally] from the path: the whole body is under
    [try]. *)
Definition process_docx_structurally_from (docx_path : string)
  : result (list (page block)) :=
  match open_docx docx_path with
  | None => Ok []
  | Some paragraphs =>
      match visualize_page 1 (docx_blocks paragraphs 50) with
      | Ok _ => Ok (process_docx_structurally paragraphs)
      | Raise _ => Ok []
      end
  end.

Definition process_docx (path : string) : result (list (page block)) :=
  let pdf_path := abspath (String.append (splitext_root path) ".pdf") in
  let docx_path := abspath path in
  let converted :=
    if negb (path_exists pdf_path) then convert_docx docx_path pdf_path
    else true in
  if converted then process_pdf pdf_path
  else process_docx_structurally_from docx_path.

Definition process_pptx (path : string) : result (list (page block)) :=
  let pdf_path := abspath (String.append (splitext_root path) ".pdf") in
  let pptx_path := abspath path in
  let converted :=
    if negb (path_exists pdf_path) then convert_pptx pptx_path pdf_path
    else true in
  if converted then process_pdf pdf_path
  else process_pptx_structurally_from pptx_path.

Definition process_file (path : string) : result (list (page block)) :=
  do _ <- make_output_dir path;
  let ext := splitext_lower path in
  if String.eqb ext ".pdf" then process_pdf path
  else if str_in ext [".jpg"; ".jpeg"; ".png"; ".bmp"] then process_image path
  else if str_in ext [".pptx"; ".ppt"] then process_pptx path
  else if str_in ext [".docx"; ".doc"] then process_docx path
  else Ok [].

End Files.

End HybridLayoutEngine.

(** The extensions the layout engine has a handler for. *)
Definition layout_extensions : list string :=
  [".pdf"; ".jpg"; ".jpeg"; ".png"; ".bmp"; ".pptx"; ".ppt"; ".docx"; ".doc"].

(** Surroundings for the examples: a text file and a Word file with no pdf
    beside them, no conversion, and three paragraphs. *)
Definition ext_txt : string -> string := fun _ => ".txt".
Definition ext_docx : string -> string := fun _ => ".docx".
Definition dir_made : string -> result unit := fun _ => Ok tt.
Definition no_pdf_beside : string -> bool := fun _ => false.
Definition no_conversion : string -> string -> bool := fun _ _ => false.
Definition three_paragraphs : string -> option (list string) :=
  fun _ => Some ["First"; "  "; "Second"].
Definition no_slides : string -> option (list (list shape)) := fun _ => None.
Definition drawn : nat -> list block -> result unit := fun _ _ => Ok tt.
Definition notes : GraphState :=
  mkGraphState "file-3" "notes.txt" EmptyString None [] EmptyString None.

(** Surroundings for the examples: vectors are numbers, every text gets
    the vector 0; the collection is the list of the records it was given,
    and it refuses a call of more than 400 records. *)
Definition embed_zero : list pyval -> option (list nat) :=
  fun batch => Some (map (fun _ => 0%nat) batch).
Definition embed_refused : list pyval -> option (list nat) := fun _ => None.
Definition upsert_append
  : list string -> upsert_call nat -> result unit * list string :=
  fun c call => (Ok tt, c ++ up_ids call).
Definition upsert_small
  : list string -> upsert_call nat -> result unit * list string :=
  fun c call =>
    if (400 <? length (up_ids call))%nat then (Raise OSError, c)
    else (Ok tt, c ++ up_ids call).
Definition one_chunk : chunk :=
  Chunk "f_p1_120" (PyStr "some text") "f" (Some 1%nat) None "text"
    "document".

(** The Arabic letter beh (U+0628) and the no-break space (U+00A0), by
    their UTF-8 bytes. *)
Definition beh : string :=
  String (ascii_of_nat 216) (String (ascii_of_nat 168) EmptyString).
Definition no_break_space : string :=
  String (ascii_of_nat 194) (String (ascii_of_nat 160) EmptyString).

(** [n] times the string [s]. *)
Fixpoint str_repeat (n : nat) (s : string) : string :=
  match n with
  | O => EmptyString
  | S n' => String.append s (str_repeat n' s)
  end.

(** A text block of one letter between spaces, and one of two letters. *)
Definition letter_block : block :=
  Block "text" (Box 0 0 100 20) "extract_text"
    (String.append no_break_space (String.append beh " ")).
Definition word_block : block :=
  Block "text" (Box 0 100 100 120) "extract_text" (String.append beh beh).
(* ********************************************************************* *)
(** * Part II: lemmas and theorems *)
(* ********************************************************************* *)

(* ===================================================================== *)
(** ** Arithmetic facts *)
(* ===================================================================== *)

Lemma Qltb_lt (a b : Q) : Qltb a b = true <-> a < b.
Proof. unfold Qltb, Qlt. apply Z.ltb_lt. Qed.

Lemma Qltb_ge (a b : Q) : Qltb a b = false <-> b <= a.
Proof. unfold Qltb, Qle. rewrite Z.ltb_ge. reflexivity. Qed.

Lemma Qleb_le (a b : Q) : Qleb a b = true <-> a <= b.
Proof. unfold Qleb, Qle. apply Z.leb_le. Qed.

Lemma Qleb_gt (a b : Q) : Qleb a b = false <-> b < a.
Proof. unfold Qleb, Qlt. rewrite Z.leb_gt. reflexivity. Qed.

Lemma py_max_cases (a b : Q) :
  (a < b /\ py_max a b = b) \/ (b <= a /\ py_max a b = a).
Proof.
  unfold py_max. destruct (Qltb a b) eqn:E.
  - left. split; [apply Qltb_lt; exact E | reflexivity].
  - right. split; [apply Qltb_ge; exact E | reflexivity].
Qed.

Lemma py_min_cases (a b : Q) :
  (b < a /\ py_min a b = b) \/ (a <= b /\ py_min a b = a).
Proof.
  unfold py_min. destruct (Qltb b a) eqn:E.
  - left. split; [apply Qltb_lt; exact E | reflexivity].
  - right. split; [apply Qltb_ge; exact E | reflexivity].
Qed.

Lemma py_min_le (a b : Q) : a <= b -> py_min a b = a.
Proof.
  intros H. destruct (py_min_cases a b) as [[H1 _] | [_ H2]]; [exfalso; lra | exact H2].
Qed.

Lemma py_max_comm (a b : Q) : py_max a b == py_max b a.
Proof.
  destruct (py_max_cases a b) as [[? E1] | [? E1]],
           (py_max_cases b a) as [[? E2] | [? E2]]; rewrite E1, E2; lra.
Qed.

Lemma py_min_comm (a b : Q) : py_min a b == py_min b a.
Proof.
  destruct (py_min_cases a b) as [[? E1] | [? E1]],
           (py_min_cases b a) as [[? E2] | [? E2]]; rewrite E1, E2; lra.
Qed.

Lemma Qeq_bool_false (a b : Q) : Qeq_bool a b = false -> ~ a == b.
Proof.
  intros H E. apply Qeq_bool_iff in E. congruence.
Qed.

(** Case analysis on every [py_max] and [py_min] of the goal. *)
Ltac minmax_cases :=
  repeat match goal with
  | |- context [py_max ?a ?b] =>
      let H := fresh "Hc" in let E := fresh "Ec" in
      destruct (py_max_cases a b) as [[H E] | [H E]];
      rewrite E in *; clear E
  | |- context [py_min ?a ?b] =>
      let H := fresh "Hc" in let E := fresh "Ec" in
      destruct (py_min_cases a b) as [[H E] | [H E]];
      rewrite E in *; clear E
  | _ : context [py_max ?a ?b] |- _ =>
      let H := fresh "Hc" in let E := fresh "Ec" in
      destruct (py_max_cases a b) as [[H E] | [H E]];
      rewrite E in *; clear E
  | _ : context [py_min ?a ?b] |- _ =>
      let H := fresh "Hc" in let E := fresh "Ec" in
      destruct (py_min_cases a b) as [[H E] | [H E]];
      rewrite E in *; clear E
  end.

(* ===================================================================== *)
(** ** Intersection area and overlap scores *)
(* ===================================================================== *)

Lemma py_max_ext (a a' b b' : Q) :
  a == a' -> b == b' -> py_max a b == py_max a' b'.
Proof. intros Ha Hb. minmax_cases; lra. Qed.

Lemma py_min_ext (a a' b b' : Q) :
  a == a' -> b == b' -> py_min a b == py_min a' b'.
Proof. intros Ha Hb. minmax_cases; lra. Qed.

Lemma inter_area_comm (a b : box) : inter_area a b == inter_area b a.
Proof.
  unfold inter_area; cbv zeta.
  assert (W : py_max 0 (py_min (bx1 a) (bx1 b) - py_max (bx0 a) (bx0 b))
              == py_max 0 (py_min (bx1 b) (bx1 a) - py_max (bx0 b) (bx0 a))).
  { apply py_max_ext; [reflexivity|].
    pose proof (py_min_comm (bx1 a) (bx1 b)).
    pose proof (py_max_comm (bx0 a) (bx0 b)). lra. }
  assert (H : py_max 0 (py_min (by1 a) (by1 b) - py_max (by0 a) (by0 b))
              == py_max 0 (py_min (by1 b) (by1 a) - py_max (by0 b) (by0 a))).
  { apply py_max_ext; [reflexivity|].
    pose proof (py_min_comm (by1 a) (by1 b)).
    pose proof (py_max_comm (by0 a) (by0 b)). lra. }
  rewrite W, H. reflexivity.
Qed.

Lemma inter_area_nonneg (a b : box) : 0 <= inter_area a b.
Proof.
  unfold inter_area; cbv zeta.
  apply Qmult_le_0_compat; minmax_cases; lra.
Qed.

(** The intersection never exceeds the area of a box of positive width and
    height. *)
Lemma inter_area_le_second (a b : box) :
  proper_box b -> inter_area a b <= box_area b.
Proof.
  intros [Hx Hy]. unfold inter_area, box_area; cbv zeta.
  assert (W : 0 <= py_max 0 (py_min (bx1 a) (bx1 b) - py_max (bx0 a) (bx0 b))
              <= bx1 b - bx0 b) by (minmax_cases; lra).
  assert (H : 0 <= py_max 0 (py_min (by1 a) (by1 b) - py_max (by0 a) (by0 b))
              <= by1 b - by0 b) by (minmax_cases; lra).
  destruct W as [W0 W1], H as [H0 H1].
  apply Qle_trans with
    ((bx1 b - bx0 b)
     * py_max 0 (py_min (by1 a) (by1 b) - py_max (by0 a) (by0 b))).
  - apply Qmult_le_compat_r; assumption.
  - rewrite (Qmult_comm (bx1 b - bx0 b)), (Qmult_comm (bx1 b - bx0 b)).
    apply Qmult_le_compat_r; [assumption | lra].
Qed.

Lemma inter_area_self (a : box) : proper_box a -> inter_area a a == box_area a.
Proof.
  intros [Hx Hy]. unfold inter_area, box_area; cbv zeta.
  minmax_cases; try lra; reflexivity.
Qed.

Lemma inter_area_disjoint (a b : box) :
  disjoint_boxes a b -> inter_area a b == 0.
Proof.
  intros D. unfold inter_area; cbv zeta.
  destruct D as [D | [D | [D | D]]].
  - assert (E : py_max 0 (py_min (bx1 a) (bx1 b) - py_max (bx0 a) (bx0 b)) == 0)
      by (minmax_cases; lra).
    rewrite E. ring.
  - assert (E : py_max 0 (py_min (bx1 a) (bx1 b) - py_max (bx0 a) (bx0 b)) == 0)
      by (minmax_cases; lra).
    rewrite E. ring.
  - assert (E : py_max 0 (py_min (by1 a) (by1 b) - py_max (by0 a) (by0 b)) == 0)
      by (minmax_cases; lra).
    rewrite E. ring.
  - assert (E : py_max 0 (py_min (by1 a) (by1 b) - py_max (by0 a) (by0 b)) == 0)
      by (minmax_cases; lra).
    rewrite E. ring.
Qed.

(** A box of area [0] has an empty intersection with every box. *)
Lemma inter_area_flat_l (a b : box) : box_area a == 0 -> inter_area a b == 0.
Proof.
  unfold box_area. intros Z0. apply Qmult_integral in Z0.
  unfold inter_area; cbv zeta. destruct Z0 as [Z0 | Z0].
  - assert (E : py_max 0 (py_min (bx1 a) (bx1 b) - py_max (bx0 a) (bx0 b)) == 0)
      by (minmax_cases; lra).
    rewrite E. ring.
  - assert (E : py_max 0 (py_min (by1 a) (by1 b) - py_max (by0 a) (by0 b)) == 0)
      by (minmax_cases; lra).
    rewrite E. ring.
Qed.

Lemma inter_area_flat_r (a b : box) : box_area b == 0 -> inter_area a b == 0.
Proof.
  intros Z0. rewrite inter_area_comm. apply inter_area_flat_l. exact Z0.
Qed.

Lemma calculate_iou_Ok (a b : box) : calculate_iou a b = Ok (iou_value a b).
Proof.
  unfold calculate_iou, iou_value, py_div; cbv zeta.
  destruct (Qeq_bool (py_min (box_area a) (box_area b)) 0); reflexivity.
Qed.

Lemma calculate_intersection_Ok (a b : box) :
  calculate_intersection a b = Ok (containment_value a b).
Proof.
  unfold calculate_intersection, containment_value, py_div; cbv zeta.
  destruct (Qeq_bool (box_area b) 0); reflexivity.
Qed.

Lemma iou_value_comm (a b : box) : iou_value a b == iou_value b a.
Proof.
  unfold iou_value; cbv zeta.
  pose proof (py_min_comm (box_area a) (box_area b)) as M.
  pose proof (inter_area_comm a b) as I.
  destruct (Qeq_bool (py_min (box_area a) (box_area b)) 0) eqn:E1,
           (Qeq_bool (py_min (box_area b) (box_area a)) 0) eqn:E2.
  - reflexivity.
  - apply Qeq_bool_iff in E1. apply Qeq_bool_false in E2.
    exfalso. apply E2. rewrite <- M. exact E1.
  - apply Qeq_bool_iff in E2. apply Qeq_bool_false in E1.
    exfalso. apply E1. rewrite M. exact E2.
  - rewrite I, M. reflexivity.
Qed.

Lemma iou_value_zero_inter (a b : box) :
  inter_area a b == 0 -> iou_value a b == 0.
Proof.
  intros I. unfold iou_value; cbv zeta.
  destruct (Qeq_bool (py_min (box_area a) (box_area b)) 0); [reflexivity|].
  rewrite I. unfold Qdiv. ring.
Qed.

Lemma iou_value_self (a : box) : proper_box a -> iou_value a a == 1.
Proof.
  intros P. pose proof (inter_area_self a P) as I.
  unfold iou_value; cbv zeta.
  assert (M : py_min (box_area a) (box_area a) = box_area a)
    by (apply py_min_le; lra).
  rewrite M.
  destruct (Qeq_bool (box_area a) 0) eqn:E.
  - apply Qeq_bool_iff in E. destruct P as [Hx Hy]. unfold box_area in E.
    apply Qmult_integral in E. destruct E; lra.
  - apply Qeq_bool_false in E. rewrite I. field. exact E.
Qed.

(** C1, as stated, fails: on a 10x10 square and a 5x5 square inside it
    [calculate_iou] returns 1, while the standard intersection over union
    is 25/100.  Positive area alone does not give a score of 1 either: on
    two copies of a box with swapped corners the score is 0. *)
Lemma calculate_iou_not_standard :
  (exists q, calculate_iou big_square small_square = Ok q /\ q == 1 /\
     spec_intersection_over_union big_square small_square == 1 # 4 /\
     ~ q == spec_intersection_over_union big_square small_square) /\
  (0 < box_area swapped_square /\
   exists q, calculate_iou swapped_square swapped_square = Ok q /\ q == 0).
Proof.
  split.
  - eexists. split; [vm_compute; reflexivity|].
    split; [reflexivity|]. split; [reflexivity|].
    vm_compute. discriminate.
  - split; [reflexivity|].
    eexists. split; [vm_compute; reflexivity | reflexivity].
Qed.

(** C1 (amended): [calculate_iou] never raises and returns the intersection
    area divided by the smaller of the two box areas (not by the union);
    this score is symmetric, is 1 on two copies of a box of positive width
    and height, is 0 on boxes that do not overlap, and is 0 whenever either
    box has area 0. *)
Theorem calculate_iou_overlap_over_min (a b : box) :
  exists q, calculate_iou a b = Ok q /\
    (~ py_min (box_area a) (box_area b) == 0 ->
       q == inter_area a b / py_min (box_area a) (box_area b)) /\
    (exists q', calculate_iou b a = Ok q' /\ q == q') /\
    (proper_box a -> exists s, calculate_iou a a = Ok s /\ s == 1) /\
    (disjoint_boxes a b -> q == 0) /\
    (box_area a == 0 \/ box_area b == 0 -> q == 0).
Proof.
  exists (iou_value a b). split; [apply calculate_iou_Ok|].
  repeat split.
  - intros NZ. unfold iou_value; cbv zeta.
    destruct (Qeq_bool (py_min (box_area a) (box_area b)) 0) eqn:E.
    + apply Qeq_bool_iff in E. contradiction.
    + reflexivity.
  - exists (iou_value b a). split; [apply calculate_iou_Ok|].
    apply iou_value_comm.
  - intros P. exists (iou_value a a). split; [apply calculate_iou_Ok|].
    apply iou_value_self. exact P.
  - intros D. apply iou_value_zero_inter. apply inter_area_disjoint. exact D.
  - intros [Z0 | Z0]; apply iou_value_zero_inter.
    + apply inter_area_flat_l. exact Z0.
    + apply inter_area_flat_r. exact Z0.
Qed.

Lemma calculate_iou_overlap_over_min_witness :
  exists q, calculate_iou big_square small_square = Ok q /\
    q == 25 / 25 /\
    (exists s, calculate_iou big_square big_square = Ok s /\ s == 1).
Proof.
  destruct (calculate_iou_overlap_over_min big_square small_square)
    as (q & Hq & Hv & _ & Hs & _).
  exists q. split; [exact Hq|]. split.
  - rewrite Hv; [reflexivity | vm_compute; discriminate].
  - apply Hs. split; reflexivity.
Defined.

(* ===================================================================== *)
(** ** [merge_consecutive_blocks] *)
(* ===================================================================== *)

(** Scenario A of the specification. *)
Example merge_hello_world :
  merge_consecutive_blocks
    [ Block "text" (Box 0 0 100 20) "extract_text" "Hello";
      Block "text" (Box 0 25 100 45) "extract_text" "World" ]
  = [ Block "text" (Box 0 0 100 45) "extract_text"
        (String.append "Hello" (String.append nl "World")) ].
Proof. reflexivity. Qed.

Lemma insert_by_top_HdRel (b : block) (l : list block) :
  HdRel le_top b l -> insert_by_top b l = b :: l.
Proof.
  intros H. destruct l as [|c r]; [reflexivity|].
  apply HdRel_inv in H. simpl.
  assert (E : Qltb (top c) (top b) = false) by (apply Qltb_ge; exact H).
  rewrite E. reflexivity.
Qed.

Lemma sorted_by_top_fixed (l : list block) :
  Sorted le_top l -> sorted_by_top l = l.
Proof.
  induction 1 as [|b l S IH H]; [reflexivity|].
  simpl. rewrite IH. apply insert_by_top_HdRel. exact H.
Qed.

Lemma insert_by_top_Sorted (b : block) (l : list block) :
  Sorted le_top l -> Sorted le_top (insert_by_top b l).
Proof.
  induction 1 as [|c r S IH H]; simpl.
  - repeat constructor.
  - destruct (Qltb (top c) (top b)) eqn:E.
    + constructor; [exact IH|].
      apply Qltb_lt in E.
      destruct r as [|d r']; simpl.
      * constructor. unfold le_top. lra.
      * apply HdRel_inv in H.
        destruct (Qltb (top d) (top b)); constructor;
          [exact H | unfold le_top; lra].
    + apply Qltb_ge in E. constructor.
      * constructor; assumption.
      * constructor. exact E.
Qed.

Lemma sorted_by_top_Sorted (l : list block) : Sorted le_top (sorted_by_top l).
Proof.
  induction l as [|b r IH]; simpl; [constructor|].
  apply insert_by_top_Sorted. exact IH.
Qed.

Lemma insert_by_top_Permutation (b : block) (l : list block) :
  Permutation (b :: l) (insert_by_top b l).
Proof.
  induction l as [|c r IH]; simpl; [reflexivity|].
  destruct (Qltb (top c) (top b)); [|reflexivity].
  rewrite perm_swap. constructor. exact IH.
Qed.

Lemma sorted_by_top_Permutation (l : list block) :
  Permutation l (sorted_by_top l).
Proof.
  induction l as [|b r IH]; simpl; [reflexivity|].
  rewrite <- insert_by_top_Permutation. constructor. exact IH.
Qed.

(* --------------------------------------------------------------------- *)
(** *** The walk on a sorted list *)

Lemma same_head_refl (c : block) : same_head c c.
Proof. split; [reflexivity | left; reflexivity]. Qed.

Lemma text_like_text : text_like "text" = true.
Proof. reflexivity. Qed.

Lemma same_head_merge_into (c n : block) :
  le_top c n -> should_merge c n = true -> same_head c (merge_into c n).
Proof.
  unfold le_top, top. intros L M. split.
  - unfold top. simpl. apply py_min_le. exact L.
  - simpl. unfold is_text_merge.
    destruct (text_like (type c)) eqn:Tc; simpl; [|left; reflexivity].
    destruct (text_like (type n)); [right; split; reflexivity | left; reflexivity].
Qed.

Lemma same_head_trans (a b c : block) :
  same_head a b -> same_head b c -> same_head a c.
Proof.
  intros [T1 K1] [T2 K2]. split; [congruence|].
  destruct K2 as [K2 | [L2 K2]].
  - rewrite K2. exact K1.
  - right. split; [|exact K2].
    destruct K1 as [K1 | [L1 K1]]; [rewrite <- K1; exact L2 | exact L1].
Qed.

Lemma merge_walk_head (rest : list block) :
  forall current, Sorted le_top (current :: rest) ->
    exists g out, merge_walk current rest = g :: out /\ same_head current g.
Proof.
  induction rest as [|n r IH]; intros c S; simpl.
  - exists c, []. split; [reflexivity | apply same_head_refl].
  - apply Sorted_inv in S. destruct S as [S H]. apply HdRel_inv in H.
    destruct (should_merge c n) eqn:M.
    + pose proof (same_head_merge_into c n H M) as SH.
      destruct (IH (merge_into c n)) as (g & out & E & SH').
      * apply Sorted_inv in S. destruct S as [S Hn].
        constructor; [exact S|].
        destruct r as [|d r']; constructor.
        apply HdRel_inv in Hn. unfold le_top in *.
        destruct SH as [T _]. rewrite T. lra.
      * exists g, out. split; [exact E|].
        apply same_head_trans with (merge_into c n); assumption.
    + exists c, (merge_walk n r). split; [reflexivity | apply same_head_refl].
Qed.

(** [should_merge c x] reads of [x] only its top edge and its type, and the
    collapse to ["text"] does not change the answer. *)
Lemma should_merge_same_head (c n g : block) :
  same_head n g -> should_merge c n = false -> should_merge c g = false.
Proof.
  intros [T K]. unfold should_merge, top in *. rewrite T.
  destruct (Qltb (by0 (bbox n) - by1 (bbox c)) 50); simpl; [|reflexivity].
  destruct K as [K | [L K]].
  - unfold is_text_merge, is_same_type. rewrite K. trivial.
  - unfold is_text_merge, is_same_type. rewrite K, L. simpl.
    destruct (text_like (type c)) eqn:Tc; simpl; [discriminate|].
    intros _. destruct (String.eqb (type c) "text") eqn:E; [|reflexivity].
    apply String.eqb_eq in E. rewrite E in Tc. discriminate.
Qed.

Lemma merge_walk_settled (rest : list block) :
  forall current, Sorted le_top (current :: rest) ->
    Sorted settled (merge_walk current rest).
Proof.
  induction rest as [|n r IH]; intros c S; simpl.
  - repeat constructor.
  - pose proof S as S0.
    apply Sorted_inv in S. destruct S as [S H]. apply HdRel_inv in H.
    destruct (should_merge c n) eqn:M.
    + apply IH.
      apply Sorted_inv in S. destruct S as [S Hn].
      constructor; [exact S|].
      destruct r as [|d r']; constructor.
      apply HdRel_inv in Hn.
      destruct (same_head_merge_into c n H M) as [T _].
      unfold le_top in *. rewrite T. lra.
    + destruct (merge_walk_head r n S) as (g & out & E & SH).
      pose proof (IH n S) as St. rewrite E in *.
      constructor; [exact St|]. constructor. split.
      * destruct SH as [T _]. unfold le_top in *. rewrite T. exact H.
      * apply should_merge_same_head with n; assumption.
Qed.

Lemma merge_walk_fixed (rest : list block) :
  forall current, Sorted settled (current :: rest) ->
    merge_walk current rest = current :: rest.
Proof.
  induction rest as [|n r IH]; intros c S; simpl; [reflexivity|].
  apply Sorted_inv in S. destruct S as [S H]. apply HdRel_inv in H.
  destruct H as [_ M]. rewrite M. rewrite (IH n S). reflexivity.
Qed.

Lemma settled_le_top (l : list block) : Sorted settled l -> Sorted le_top l.
Proof.
  induction 1 as [|b l S IH H]; constructor; [exact IH|].
  destruct H as [|c r [L _]]; constructor. exact L.
Qed.

Lemma merge_consecutive_blocks_settled (blocks : list block) :
  Sorted settled (merge_consecutive_blocks blocks).
Proof.
  unfold merge_consecutive_blocks.
  pose proof (sorted_by_top_Sorted blocks) as S.
  destruct (sorted_by_top blocks) as [|c r]; [constructor|].
  apply merge_walk_settled. exact S.
Qed.

Lemma merge_consecutive_blocks_fixed (blocks : list block) :
  Sorted settled blocks -> merge_consecutive_blocks blocks = blocks.
Proof.
  intros S. unfold merge_consecutive_blocks.
  rewrite (sorted_by_top_fixed blocks (settled_le_top blocks S)).
  destruct blocks as [|c r]; [reflexivity|].
  apply merge_walk_fixed. exact S.
Qed.

(** C4: [merge_consecutive_blocks] is idempotent: on its own output it
    returns that output unchanged. *)
Theorem merge_consecutive_blocks_idempotent (blocks : list block) :
  merge_consecutive_blocks (merge_consecutive_blocks blocks)
  = merge_consecutive_blocks blocks.
Proof.
  apply merge_consecutive_blocks_fixed.
  apply merge_consecutive_blocks_settled.
Qed.

(* --------------------------------------------------------------------- *)
(** *** Which input blocks an output block was formed from *)

Lemma merge_walk_sources_fst (rest : list block) :
  forall current sources,
    map fst (merge_walk_sources current sources rest) = merge_walk current rest.
Proof.
  induction rest as [|n r IH]; intros c s; simpl; [reflexivity|].
  destruct (should_merge c n); simpl; rewrite IH; reflexivity.
Qed.

Lemma merge_walk_sources_snd (rest : list block) :
  forall current sources,
    concat (map snd (merge_walk_sources current sources rest))
    = sources ++ rest.
Proof.
  induction rest as [|n r IH]; intros c s; simpl.
  - rewrite app_nil_r. reflexivity.
  - destruct (should_merge c n); simpl; rewrite IH.
    + rewrite <- app_assoc. reflexivity.
    + reflexivity.
Qed.

Lemma types_kept_merge_into (c n : block) (sources : list block) :
  types_kept c sources -> should_merge c n = true ->
  types_kept (merge_into c n) (sources ++ [n]).
Proof.
  intros [NE K] M. split.
  { destruct sources; discriminate. }
  unfold should_merge in M. apply andb_prop in M. destruct M as [_ M].
  simpl. destruct (is_text_merge c n) eqn:TM.
  - right. unfold is_text_merge in TM. apply andb_prop in TM.
    destruct TM as [Tc Tn]. split; [reflexivity|]. split.
    + rewrite length_app. simpl. destruct sources; [contradiction | simpl; lia].
    + apply Forall_app. split; [|repeat constructor; exact Tn].
      destruct K as [K | (_ & _ & K)]; [|exact K].
      eapply Forall_impl; [|exact K]. simpl. intros s E. rewrite E. exact Tc.
  - simpl in M. unfold is_same_type in M. apply String.eqb_eq in M.
    left. apply Forall_app. split; [|repeat constructor; symmetry; exact M].
    destruct K as [K | (T & _ & _)]; [exact K|].
    exfalso. unfold is_text_merge in TM.
    rewrite <- M, T in TM. discriminate.
Qed.

Lemma merge_walk_sources_types (rest : list block) :
  forall current sources, types_kept current sources ->
    Forall (fun og => types_kept (fst og) (snd og))
      (merge_walk_sources current sources rest).
Proof.
  induction rest as [|n r IH]; intros c s K; simpl.
  - constructor; [exact K | constructor].
  - destruct (should_merge c n) eqn:M.
    + apply IH. apply types_kept_merge_into; assumption.
    + constructor; [exact K|]. apply IH.
      split; [discriminate | left; repeat constructor].
Qed.

(** C5, as stated, fails: two ["title"] blocks 5 units apart merge into a
    ["text"] block although no ["text"] block took part. *)
Lemma merge_title_title_is_text :
  merge_consecutive_blocks
    [ Block "title" (Box 0 0 100 20) "extract_text" "Chapter";
      Block "title" (Box 0 25 100 45) "extract_text" "One" ]
  = [ Block "text" (Box 0 0 100 45) "extract_text"
        (String.append "Chapter" (String.append nl "One")) ].
Proof. reflexivity. Qed.

(** C5 (amended): every output block of [merge_consecutive_blocks] is formed
    from a non-empty run of the sorted input; the runs, in order, make up the
    sorted input.  A run that holds a block that is not text-like (a table,
    a handwriting region, an image) holds only blocks of that one type, and
    the output block has it too.  Otherwise the output block has the type of
    its sources, or it is a ["text"] block formed from two or more text-like
    blocks (text with title, but also title with title). *)
Theorem merge_consecutive_blocks_types (blocks : list block) :
  map fst (merge_sources blocks) = merge_consecutive_blocks blocks /\
  concat (map snd (merge_sources blocks)) = sorted_by_top blocks /\
  Permutation blocks (sorted_by_top blocks) /\
  Forall (fun og =>
            types_kept (fst og) (snd og) /\
            forall s, In s (snd og) -> text_like (type s) = false ->
              type (fst og) = type s /\
              Forall (fun s' => type s' = type s) (snd og))
         (merge_sources blocks).
Proof.
  unfold merge_sources, merge_consecutive_blocks.
  split; [|split; [|split]].
  - destruct (sorted_by_top blocks); [reflexivity|].
    apply merge_walk_sources_fst.
  - destruct (sorted_by_top blocks); [reflexivity|].
    apply merge_walk_sources_snd.
  - apply sorted_by_top_Permutation.
  - destruct (sorted_by_top blocks) as [|c r]; [constructor|].
    assert (K0 : types_kept c [c])
      by (split; [discriminate | left; repeat constructor]).
    pose proof (merge_walk_sources_types r c [c] K0) as F.
    eapply Forall_impl; [|exact F]. simpl.
    intros [o srcs] K. simpl in *. split; [exact K|].
    intros s Hin Hs. destruct K as [_ [K | (_ & _ & K)]].
    + rewrite Forall_forall in K. pose proof (K s Hin) as Es.
      split; [symmetry; exact Es|].
      apply Forall_forall. intros s' Hin'. rewrite (K s' Hin'). symmetry.
      exact Es.
    + rewrite Forall_forall in K. rewrite (K s Hin) in Hs. discriminate.
Qed.

Lemma merge_consecutive_blocks_types_witness :
  map type (merge_consecutive_blocks tables_then_text) = ["table"; "text"] /\
  match merge_sources tables_then_text with
  | og :: _ => type (fst og) = "table" /\
               Forall (fun s' => type s' = "table") (snd og)
  | [] => False
  end.
Proof.
  destruct (merge_consecutive_blocks_types tables_then_text)
    as (E & _ & _ & F).
  split; [reflexivity|].
  apply Forall_inv in F. simpl in F. destruct F as [_ F].
  apply (F (Block "table" (Box 0 0 100 20) "extract_table_logic" "a | b")).
  - left. reflexivity.
  - reflexivity.
Defined.

(* ===================================================================== *)
(** ** [intelligent_merge] *)
(* ===================================================================== *)

(** Scenario B of the specification. *)
Example merge_table_with_text :
  intelligent_merge
    [ BaseBlock (Box 10 10 50 30) "text" "Q1 Revenue" ]
    [ Detection "table" (Box 0 0 200 200) (9 # 10) "microsoft_detr" ] []
  = Ok [ Block "table" (Box 0 0 200 200) "extract_table_logic" "Q1 Revenue" ].
Proof. vm_compute. reflexivity. Qed.

Lemma scan_base_Ok (t_bbox : box) (base_blocks : list base_block) :
  forall idx t_content consumed calls, exists consumed',
    scan_base t_bbox idx base_blocks t_content consumed calls
    = Ok (t_content ++ map p_text (List.filter (contained t_bbox) base_blocks),
          consumed', calls ++ calls_for base_blocks t_bbox).
Proof.
  induction base_blocks as [|p rest IH]; intros idx tc cons calls; simpl.
  - exists cons. rewrite !app_nil_r. reflexivity.
  - rewrite calculate_intersection_Ok. simpl. unfold contained at 1.
    destruct (Qltb (1 # 2) (containment_value t_bbox (p_bbox p))).
    + destruct (IH (S idx) (tc ++ [p_text p]) ({[ idx ]} ∪ cons)
                  (calls ++ [(t_bbox, p_bbox p)])) as [c' E].
      exists c'. rewrite E. simpl. rewrite <- !app_assoc. reflexivity.
    + destruct (IH (S idx) tc cons (calls ++ [(t_bbox, p_bbox p)]))
        as [c' E].
      exists c'. rewrite E. rewrite <- !app_assoc. reflexivity.
Qed.

Lemma process_tables_Ok (base_blocks : list base_block)
    (table_blocks : list detection) :
  forall final_blocks consumed calls, exists consumed',
    process_tables base_blocks table_blocks final_blocks consumed calls
    = Ok (final_blocks
            ++ map (fun t => table_block (d_bbox t)
                               (table_text base_blocks (d_bbox t)))
                   table_blocks,
          consumed',
          calls ++ flat_map (fun t => calls_for base_blocks (d_bbox t))
                     table_blocks).
Proof.
  induction table_blocks as [|t rest IH]; intros fin cons calls; simpl.
  - exists cons. rewrite !app_nil_r. reflexivity.
  - destruct (scan_base_Ok (d_bbox t) base_blocks 0%nat [] cons calls)
      as [c1 E1].
    rewrite E1. simpl.
    destruct (IH (fin ++ [table_block (d_bbox t)
                            (table_text base_blocks (d_bbox t))])
                 c1 (calls ++ calls_for base_blocks (d_bbox t))) as [c2 E2].
    exists c2. unfold table_text in *. rewrite E2.
    rewrite <- !app_assoc. reflexivity.
Qed.

Lemma process_remaining_app (base_blocks : list base_block) :
  forall idx consumed final_blocks, exists extra,
    process_remaining idx base_blocks consumed final_blocks
    = final_blocks ++ extra /\
    Forall (fun b => exists p, In p base_blocks /\ b = remaining_block p)
      extra.
Proof.
  induction base_blocks as [|p rest IH]; intros idx cons fin; simpl.
  - exists []. rewrite app_nil_r. split; [reflexivity | constructor].
  - destruct (bool_decide (idx ∈ cons)).
    + destruct (IH (S idx) cons fin) as (extra & E & F).
      exists extra. split; [exact E|].
      eapply Forall_impl; [|exact F]. simpl.
      intros b (q & Hq & Eb). exists q. split; [right; exact Hq | exact Eb].
    + destruct (IH (S idx) cons (fin ++ [remaining_block p]))
        as (extra & E & F).
      exists (remaining_block p :: extra). split.
      * rewrite E, <- app_assoc. reflexivity.
      * constructor.
        -- exists p. split; [left; reflexivity | reflexivity].
        -- eapply Forall_impl; [|exact F]. simpl.
           intros b (q & Hq & Eb). exists q.
           split; [right; exact Hq | exact Eb].
Qed.

Lemma is_isolated_Ok (hw_bbox : box) (final_blocks : list block) :
  exists isolated, is_isolated hw_bbox final_blocks = Ok isolated.
Proof.
  induction final_blocks as [|fb rest IH]; simpl.
  - exists true. reflexivity.
  - rewrite calculate_iou_Ok. simpl.
    destruct (Qltb (1 # 5) (iou_value hw_bbox (bbox fb)));
      [exists false; reflexivity | exact IH].
Qed.

Lemma isolate_handwriting_app (hw_blocks : list detection) :
  forall final_blocks, exists extra,
    isolate_handwriting hw_blocks final_blocks = Ok (final_blocks ++ extra) /\
    Forall (fun b => exists hw, In hw hw_blocks /\ b = handwriting_block hw)
      extra.
Proof.
  induction hw_blocks as [|hw rest IH]; intros fin; simpl.
  - exists []. rewrite app_nil_r. split; [reflexivity | constructor].
  - unfold isolate_one.
    destruct (is_isolated_Ok (d_bbox hw) fin) as [iso E]. rewrite E. simpl.
    destruct iso.
    + destruct (IH (fin ++ [handwriting_block hw])) as (extra & E' & F).
      exists (handwriting_block hw :: extra). split.
      * rewrite E', <- app_assoc. reflexivity.
      * constructor.
        -- exists hw. split; [left; reflexivity | reflexivity].
        -- eapply Forall_impl; [|exact F]. simpl.
           intros b (h & Hh & Eb). exists h.
           split; [right; exact Hh | exact Eb].
    + destruct (IH fin) as (extra & E' & F).
      exists extra. split; [exact E'|].
      eapply Forall_impl; [|exact F]. simpl.
      intros b (h & Hh & Eb). exists h. split; [right; exact Hh | exact Eb].
Qed.

(** [final_blocks] before the consecutive merge: one table block for each
    table detection, in detection order, then blocks made from base blocks
    and handwriting detections. *)
Lemma collect_blocks_Ok (base_blocks : list base_block)
    (table_blocks hw_blocks : list detection) :
  exists others,
    collect_blocks base_blocks table_blocks hw_blocks
    = Ok (map (fun t => table_block (d_bbox t)
                          (table_text base_blocks (d_bbox t))) table_blocks
            ++ others,
          flat_map (fun t => calls_for base_blocks (d_bbox t)) table_blocks) /\
    Forall (from_base_or_handwriting base_blocks hw_blocks) others.
Proof.
  unfold collect_blocks.
  destruct (process_tables_Ok base_blocks table_blocks [] ∅ []) as [c E].
  rewrite E. simpl.
  destruct (process_remaining_app base_blocks 0%nat c
              (map (fun t => table_block (d_bbox t)
                               (table_text base_blocks (d_bbox t)))
                   table_blocks)) as (ex1 & E1 & F1).
  rewrite E1.
  destruct (isolate_handwriting_app hw_blocks
              (map (fun t => table_block (d_bbox t)
                               (table_text base_blocks (d_bbox t)))
                   table_blocks ++ ex1)) as (ex2 & E2 & F2).
  rewrite E2. simpl. exists (ex1 ++ ex2). split.
  - rewrite <- app_assoc. reflexivity.
  - apply Forall_app. split.
    + eapply Forall_impl; [|exact F1]. intros b H. left. exact H.
    + eapply Forall_impl; [|exact F2]. intros b H. right. exact H.
Qed.

(* --------------------------------------------------------------------- *)
(** *** Blocks that are not text-like survive the consecutive merge *)

Lemma merge_walk_sources_single (rest : list block) :
  forall current sources,
    (sources = [current] \/ (2 <= length sources)%nat) ->
    Forall (fun og => snd og = [fst og] \/ (2 <= length (snd og))%nat)
      (merge_walk_sources current sources rest).
Proof.
  induction rest as [|n r IH]; intros c s K; simpl.
  - constructor; [exact K | constructor].
  - destruct (should_merge c n).
    + apply IH. right. rewrite length_app. simpl.
      destruct K as [-> | K]; simpl; lia.
    + constructor; [exact K|]. apply IH. left. reflexivity.
Qed.

Lemma merge_sources_not_text_like (blocks : list block) (b : block) :
  In b blocks -> text_like (type b) = false ->
  exists og, In og (merge_sources blocks) /\ In b (snd og) /\
    type (fst og) = type b /\
    Forall (fun s => type s = type b) (snd og) /\
    (snd og = [b] -> fst og = b).
Proof.
  intros Hin Hb. unfold merge_sources.
  pose proof (sorted_by_top_Permutation blocks) as P.
  apply (Permutation_in _ P) in Hin.
  destruct (sorted_by_top blocks) as [|c r]; [destruct Hin|].
  change (c :: r) with ([c] ++ r) in Hin.
  rewrite <- (merge_walk_sources_snd r c [c]) in Hin.
  apply in_concat in Hin. destruct Hin as (srcs & Hs & Hbs).
  apply in_map_iff in Hs. destruct Hs as ([o srcs'] & Eo & Hog).
  simpl in Eo. subst srcs'.
  assert (K0 : types_kept c [c])
    by (split; [discriminate | left; repeat constructor]).
  pose proof (merge_walk_sources_types r c [c] K0) as F.
  pose proof (merge_walk_sources_single r c [c] (or_introl eq_refl)) as G.
  rewrite Forall_forall in F, G.
  specialize (F _ Hog). specialize (G _ Hog). simpl in F, G.
  exists (o, srcs). split; [exact Hog|]. split; [exact Hbs|]. simpl.
  destruct F as [_ [K | (_ & _ & K)]].
  - rewrite Forall_forall in K. pose proof (K b Hbs) as Eb.
    split; [symmetry; exact Eb|]. split.
    + apply Forall_forall. intros s Hs. rewrite (K s Hs). symmetry. exact Eb.
    + intros E1. destruct G as [G | G].
      * rewrite E1 in G. congruence.
      * rewrite E1 in G. simpl in G. lia.
  - rewrite Forall_forall in K. rewrite (K b Hbs) in Hb. discriminate.
Qed.

(* --------------------------------------------------------------------- *)
(** *** The text of a merged block *)

Lemma append_assoc (a b c : string) :
  String.append (String.append a b) c = String.append a (String.append b c).
Proof.
  induction a as [|ch a IH]; [reflexivity|].
  change (String ch (String.append (String.append a b) c)
          = String ch (String.append a (String.append b c))).
  rewrite IH. reflexivity.
Qed.

Lemma join_cons2 (sep p q : string) (rest : list string) :
  join sep (p :: q :: rest)
  = String.append p (String.append sep (join sep (q :: rest))).
Proof. reflexivity. Qed.

Lemma join_snoc (sep x : string) (parts : list string) :
  parts <> [] ->
  join sep (parts ++ [x])
  = String.append (join sep parts) (String.append sep x).
Proof.
  induction parts as [|p rest IH]; intros NE; [contradiction|].
  destruct rest as [|q rest'].
  - reflexivity.
  - rewrite join_cons2.
    change ((p :: q :: rest') ++ [x]) with (p :: q :: (rest' ++ [x])).
    rewrite join_cons2.
    change (q :: rest' ++ [x]) with ((q :: rest') ++ [x]).
    rewrite IH by discriminate.
    rewrite !append_assoc. reflexivity.
Qed.

Lemma merge_walk_sources_text (rest : list block) :
  forall current sources, text_kept current sources ->
    Forall (fun og => text_kept (fst og) (snd og))
      (merge_walk_sources current sources rest).
Proof.
  induction rest as [|n r IH]; intros c s K; simpl.
  - constructor; [exact K | constructor].
  - destruct (should_merge c n).
    + apply IH. destruct K as (C & f & o & -> & A). split.
      * simpl (content _). rewrite C, map_app. simpl (map content [n]).
        rewrite join_snoc; [reflexivity | discriminate].
      * exists f, (o ++ [n]). split; [reflexivity | exact A].
    + constructor; [exact K|]. apply IH.
      split; [reflexivity|]. exists n, []. split; reflexivity.
Qed.

Lemma merge_sources_text (blocks : list block) :
  Forall (fun og => text_kept (fst og) (snd og)) (merge_sources blocks).
Proof.
  unfold merge_sources. destruct (sorted_by_top blocks) as [|c r];
    [constructor|].
  apply (merge_walk_sources_text r c [c]).
  split; [reflexivity|]. exists c, []. split; reflexivity.
Qed.

(* --------------------------------------------------------------------- *)
(** *** Tables without text inside *)

Lemma table_text_empty (t : detection) (base_blocks : list base_block) :
  no_text_inside t base_blocks ->
  table_text base_blocks (d_bbox t) = EmptyString.
Proof.
  intros H. unfold table_text.
  assert (E : List.filter (contained (d_bbox t)) base_blocks = []).
  { induction base_blocks as [|p rest IH]; [reflexivity|]. simpl.
    destruct (H p (or_introl eq_refl)) as (s & Es & Hs).
    rewrite calculate_intersection_Ok in Es. injection Es as <-.
    unfold contained at 1.
    assert (L : Qltb (1 # 2) (containment_value (d_bbox t) (p_bbox p)) = false)
      by (apply Qltb_ge; exact Hs).
    rewrite L. apply IH. intros q Hq. apply H. right. exact Hq. }
  rewrite E. reflexivity.
Qed.

(** C2, as stated, fails: two empty table detections 10 units apart leave
    one table block in the output, and its content is not the marker but
    two markers joined by a line break. *)
Lemma empty_tables_fused :
  no_text_inside upper_table [] /\ no_text_inside lower_table [] /\
  intelligent_merge [] [upper_table; lower_table] []
  = Ok [ Block "table" (Box 0 0 100 200) "extract_table_logic"
           (String.append "[EMPTY_TABLE]"
              (String.append nl "[EMPTY_TABLE]")) ].
Proof.
  split; [intros p []|]. split; [intros p []|].
  vm_compute. reflexivity.
Qed.

(** C2 (amended): for a table detection with no base block inside, the list
    built before the consecutive merge holds exactly one block for each
    table detection, in order, and the one for this detection has type
    ["table"], content ["[EMPTY_TABLE]"] and action
    ["extract_table_logic"].  The consecutive merge never drops it: it is a
    source of an output block of type ["table"] formed from table blocks
    only.  That output block is the marker block itself unless other table
    blocks were fused with it, and then its content is the contents of the
    fused blocks, the marker among them, joined by line breaks. *)
Theorem empty_table_survives (base_blocks : list base_block)
    (table_blocks hw_blocks : list detection) (i : nat) (t : detection) :
  nth_error table_blocks i = Some t ->
  no_text_inside t base_blocks ->
  exists others calls,
    let table_part :=
      map (fun t' => table_block (d_bbox t')
                       (table_text base_blocks (d_bbox t'))) table_blocks in
    let final_blocks := table_part ++ others in
    collect_blocks base_blocks table_blocks hw_blocks
      = Ok (final_blocks, calls) /\
    intelligent_merge base_blocks table_blocks hw_blocks
      = Ok (merge_consecutive_blocks final_blocks) /\
    Forall (from_base_or_handwriting base_blocks hw_blocks) others /\
    nth_error final_blocks i = Some (empty_table_block t) /\
    exists og, In og (merge_sources final_blocks) /\
      map fst (merge_sources final_blocks)
        = merge_consecutive_blocks final_blocks /\
      In (fst og) (merge_consecutive_blocks final_blocks) /\
      In (empty_table_block t) (snd og) /\
      type (fst og) = "table" /\
      Forall (fun s => type s = "table") (snd og) /\
      (snd og = [empty_table_block t] -> fst og = empty_table_block t) /\
      content (fst og) = join nl (map content (snd og)) /\
      In "[EMPTY_TABLE]" (map content (snd og)).
Proof.
  intros Hi Hempty.
  destruct (collect_blocks_Ok base_blocks table_blocks hw_blocks)
    as (others & E & F).
  exists others. eexists. cbv zeta.
  split; [exact E|]. split.
  { unfold intelligent_merge. rewrite E. reflexivity. }
  split; [exact F|].
  assert (N : nth_error
                (map (fun t' => table_block (d_bbox t')
                                  (table_text base_blocks (d_bbox t')))
                     table_blocks ++ others) i
              = Some (empty_table_block t)).
  { rewrite nth_error_app1.
    - rewrite nth_error_map, Hi. simpl.
      rewrite (table_text_empty t base_blocks Hempty). reflexivity.
    - rewrite length_map. apply nth_error_Some. rewrite Hi. discriminate. }
  split; [exact N|].
  apply nth_error_In in N.
  destruct (merge_sources_not_text_like _ _ N eq_refl)
    as (og & H1 & H2 & H3 & H4 & H5).
  assert (M : map fst (merge_sources
                         (map (fun t' => table_block (d_bbox t')
                                 (table_text base_blocks (d_bbox t')))
                              table_blocks ++ others))
              = merge_consecutive_blocks
                  (map (fun t' => table_block (d_bbox t')
                          (table_text base_blocks (d_bbox t')))
                       table_blocks ++ others)).
  { unfold merge_sources, merge_consecutive_blocks.
    destruct (sorted_by_top _); [reflexivity | apply merge_walk_sources_fst]. }
  pose proof (merge_sources_text
                (map (fun t' => table_block (d_bbox t')
                        (table_text base_blocks (d_bbox t')))
                     table_blocks ++ others)) as T.
  rewrite Forall_forall in T. destruct (T og H1) as [Tc _].
  exists og. split; [exact H1|]. split; [exact M|].
  split; [rewrite <- M; apply in_map; exact H1|].
  split; [exact H2|]. split; [exact H3|]. split; [exact H4|].
  split; [exact H5|]. split; [exact Tc|].
  apply (in_map content) in H2. exact H2.
Qed.

Lemma empty_table_survives_witness :
  nth_error [ledger_table; upper_table; lower_table] 1 = Some upper_table /\
  no_text_inside upper_table [ledger_cell; footer_line] /\
  exists final_blocks og,
    intelligent_merge [ledger_cell; footer_line]
      [ledger_table; upper_table; lower_table] [scribble_below]
      = Ok (merge_consecutive_blocks final_blocks) /\
    nth_error final_blocks 1 = Some (empty_table_block upper_table) /\
    In og (merge_sources final_blocks) /\
    In (fst og) (merge_consecutive_blocks final_blocks) /\
    In (empty_table_block upper_table) (snd og) /\
    type (fst og) = "table" /\
    content (fst og) = join nl (map content (snd og)).
Proof.
  assert (H0 : no_text_inside upper_table [ledger_cell; footer_line]).
  { intros p [<- | [<- | []]]; eexists;
      (split; [vm_compute; reflexivity | discriminate]). }
  split; [reflexivity|]. split; [exact H0|].
  destruct (empty_table_survives [ledger_cell; footer_line]
              [ledger_table; upper_table; lower_table] [scribble_below]
              1 upper_table eq_refl H0)
    as (others & calls & _ & E & _ & N & og & H1 & _ & H2 & H3 & H4 & _ & _
        & H5 & _).
  eexists. exists og. split; [exact E|]. split; [exact N|].
  split; [exact H1|]. split; [exact H2|]. split; [exact H3|].
  split; [exact H4 | exact H5].
Defined.

(* --------------------------------------------------------------------- *)
(** *** Handwriting isolation *)

Lemma is_isolated_overlap (hw : detection) (final_blocks : list block) :
  (exists fb, In fb final_blocks /\ iou_exceeds hw fb) ->
  is_isolated (d_bbox hw) final_blocks = Ok false.
Proof.
  induction final_blocks as [|fb rest IH]; intros (x & Hin & s & Es & Hs).
  - destruct Hin.
  - simpl. rewrite calculate_iou_Ok. simpl.
    destruct (Qltb (1 # 5) (iou_value (d_bbox hw) (bbox fb))) eqn:L;
      [reflexivity|].
    destruct Hin as [<- | Hin].
    + rewrite calculate_iou_Ok in Es. injection Es as <-.
      apply Qltb_lt in Hs. congruence.
    + apply IH. exists x. split; [exact Hin|]. exists s. split; assumption.
Qed.

Lemma is_isolated_clear (hw : detection) (final_blocks : list block) :
  (forall fb, In fb final_blocks -> iou_within hw fb) ->
  is_isolated (d_bbox hw) final_blocks = Ok true.
Proof.
  induction final_blocks as [|fb rest IH]; intros H; [reflexivity|].
  simpl. rewrite calculate_iou_Ok. simpl.
  destruct (H fb (or_introl eq_refl)) as (s & Es & Hs).
  rewrite calculate_iou_Ok in Es. injection Es as <-.
  assert (L : Qltb (1 # 5) (iou_value (d_bbox hw) (bbox fb)) = false)
    by (apply Qltb_ge; exact Hs).
  rewrite L. apply IH. intros x Hx. apply H. right. exact Hx.
Qed.

(** The score of a detection is above the threshold against some block, or
    within it against all of them. *)
Lemma iou_exceeds_or_within (hw : detection) (final_blocks : list block) :
  (exists fb, In fb final_blocks /\ iou_exceeds hw fb) \/
  (forall fb, In fb final_blocks -> iou_within hw fb).
Proof.
  induction final_blocks as [|fb rest IH]; [right; intros fb []|].
  destruct (Qlt_le_dec (1 # 5) (iou_value (d_bbox hw) (bbox fb))) as [L | L].
  - left. exists fb. split; [left; reflexivity|].
    exists (iou_value (d_bbox hw) (bbox fb)).
    split; [apply calculate_iou_Ok | exact L].
  - destruct IH as [(x & Hx & E) | W].
    + left. exists x. split; [right; exact Hx | exact E].
    + right. intros x [<- | Hx]; [|apply W; exact Hx].
      exists (iou_value (d_bbox hw) (bbox fb)).
      split; [apply calculate_iou_Ok | exact L].
Qed.

Lemma isolate_one_cases (final_blocks : list block) (hw : detection) :
  ((exists fb, In fb final_blocks /\ iou_exceeds hw fb) ->
     isolate_one final_blocks hw = Ok final_blocks) /\
  ((forall fb, In fb final_blocks -> iou_within hw fb) ->
     isolate_one final_blocks hw
     = Ok (final_blocks ++ [handwriting_block hw])).
Proof.
  split; intros H; unfold isolate_one.
  - rewrite (is_isolated_overlap hw final_blocks H). reflexivity.
  - rewrite (is_isolated_clear hw final_blocks H). reflexivity.
Qed.

Lemma isolate_handwriting_split (before after : list detection) :
  forall final_blocks,
    isolate_handwriting (before ++ after) final_blocks
    = do seen <- isolate_handwriting before final_blocks;
      isolate_handwriting after seen.
Proof.
  induction before as [|hw rest IH]; intros fin; simpl; [reflexivity|].
  destruct (isolate_one fin hw) as [fin'|e]; simpl; [apply IH | reflexivity].
Qed.

(** The handwriting loop continues from where it stood: the list built
    for [before ++ after] is the list built for [before], taken through
    the loop over [after]. *)
Lemma collect_blocks_split (base_blocks : list base_block)
    (table_blocks before after : list detection) :
  collect_blocks base_blocks table_blocks (before ++ after)
  = do r <- collect_blocks base_blocks table_blocks before;
    do final_blocks <- isolate_handwriting after (fst r);
    Ok (final_blocks, snd r).
Proof.
  unfold collect_blocks.
  destruct (process_tables base_blocks table_blocks [] ∅ [])
    as [[[fin cons] calls]|e]; simpl; [|reflexivity].
  rewrite isolate_handwriting_split.
  destruct (isolate_handwriting before
              (process_remaining 0 base_blocks cons fin)) as [seen|e];
    reflexivity.
Qed.

(** C3, as stated, fails: the score the code compares with 0.2 is the one
    [calculate_iou] returns, the overlap over the smaller area.  A
    handwriting detection inside a paragraph has an intersection over
    union of 0.1 with it, at most 0.2 against every final block, and yet
    no handwriting block is emitted for it. *)
Lemma handwriting_low_iou_dropped :
  spec_intersection_over_union (d_bbox scribble_inside) (bbox paragraph)
  == 1 # 10 /\
  (forall fb, In fb [paragraph] ->
     spec_intersection_over_union (d_bbox scribble_inside) (bbox fb)
     <= 1 # 5) /\
  collect_blocks [typed_line] [] [] = Ok ([paragraph], []) /\
  isolate_one [paragraph] scribble_inside = Ok [paragraph] /\
  intelligent_merge [typed_line] [] [scribble_inside] = Ok [paragraph].
Proof.
  split; [reflexivity|]. split; [intros fb [<- | []]; discriminate|].
  split; [reflexivity|]. split; vm_compute; reflexivity.
Qed.

(** C3 (amended): the claim holds with the score [calculate_iou] returns
    in place of the IoU.  One iteration of the handwriting loop, for any
    list of final blocks: if the score of the detection against some final
    block exceeds 0.2 the list is left as it is, and if the score against
    every final block is at most 0.2 exactly one block is appended, of type
    ["handwriting_region"] with action ["send_to_ocr"].  And the whole
    loop inside [intelligent_merge], for a detection [hw] met after the
    detections [before] and followed by [after]: the final blocks seen by
    [hw] are those built from the tables, the base blocks and [before]; one
    of the two cases holds; in the first nothing is emitted for [hw], in
    the second exactly one block is, right after the blocks seen; what
    follows in the list comes from [after]; and the block emitted for [hw]
    is not dropped by the consecutive merge: it is a source of an output
    block of type ["handwriting_region"] formed from handwriting blocks
    only, and is that output block itself when nothing was fused with
    it. *)
Theorem handwriting_isolation (base_blocks : list base_block)
    (table_blocks before after : list detection) (hw : detection) :
  let emitted :=
    Block "handwriting_region" (d_bbox hw) "send_to_ocr"
      "[HANDWRITING_IMAGE]" in
  (forall final_blocks,
     ((exists fb, In fb final_blocks /\ iou_exceeds hw fb) ->
        isolate_one final_blocks hw = Ok final_blocks) /\
     ((forall fb, In fb final_blocks -> iou_within hw fb) ->
        isolate_one final_blocks hw = Ok (final_blocks ++ [emitted]))) /\
  exists seen calls,
    collect_blocks base_blocks table_blocks before = Ok (seen, calls) /\
    ((exists fb, In fb seen /\ iou_exceeds hw fb) \/
     (forall fb, In fb seen -> iou_within hw fb)) /\
    ((exists fb, In fb seen /\ iou_exceeds hw fb) ->
       collect_blocks base_blocks table_blocks (before ++ [hw])
       = Ok (seen, calls) /\
       exists later,
         Forall (fun b => exists h, In h after /\ b = handwriting_block h)
           later /\
         collect_blocks base_blocks table_blocks (before ++ hw :: after)
         = Ok (seen ++ later, calls) /\
         intelligent_merge base_blocks table_blocks (before ++ hw :: after)
         = Ok (merge_consecutive_blocks (seen ++ later))) /\
    ((forall fb, In fb seen -> iou_within hw fb) ->
       collect_blocks base_blocks table_blocks (before ++ [hw])
       = Ok (seen ++ [emitted], calls) /\
       exists later,
         Forall (fun b => exists h, In h after /\ b = handwriting_block h)
           later /\
         collect_blocks base_blocks table_blocks (before ++ hw :: after)
         = Ok (seen ++ emitted :: later, calls) /\
         intelligent_merge base_blocks table_blocks (before ++ hw :: after)
         = Ok (merge_consecutive_blocks (seen ++ emitted :: later)) /\
         exists og,
           In og (merge_sources (seen ++ emitted :: later)) /\
           In (fst og)
             (merge_consecutive_blocks (seen ++ emitted :: later)) /\
           In emitted (snd og) /\
           type (fst og) = "handwriting_region" /\
           Forall (fun s => type s = "handwriting_region") (snd og) /\
           (snd og = [emitted] -> fst og = emitted)).
Proof.
  cbv zeta. split; [intros final_blocks; apply isolate_one_cases|].
  destruct (collect_blocks_Ok base_blocks table_blocks before)
    as (others & E & _).
  eexists. eexists. split; [exact E|].
  split; [apply iou_exceeds_or_within|].
  set (seen := map (fun t => table_block (d_bbox t)
                               (table_text base_blocks (d_bbox t)))
                 table_blocks ++ others) in *.
  split.
  - intros H.
    pose proof (proj1 (isolate_one_cases seen hw) H) as I.
    split.
    { rewrite collect_blocks_split, E. simpl. rewrite I. reflexivity. }
    destruct (isolate_handwriting_app after seen) as (later & L & F).
    exists later. split; [exact F|].
    assert (C : collect_blocks base_blocks table_blocks
                  (before ++ hw :: after)
                = Ok (seen ++ later,
                      flat_map (fun t => calls_for base_blocks (d_bbox t))
                        table_blocks)).
    { rewrite collect_blocks_split, E. simpl. rewrite I. simpl.
      rewrite L. reflexivity. }
    split; [exact C|]. unfold intelligent_merge. rewrite C. reflexivity.
  - intros H.
    pose proof (proj2 (isolate_one_cases seen hw) H) as I.
    change (handwriting_block hw)
      with (Block "handwriting_region" (d_bbox hw) "send_to_ocr"
              "[HANDWRITING_IMAGE]") in I.
    split.
    { rewrite collect_blocks_split, E. simpl. rewrite I. reflexivity. }
    destruct (isolate_handwriting_app after
                (seen ++ [Block "handwriting_region" (d_bbox hw)
                            "send_to_ocr" "[HANDWRITING_IMAGE]"]))
      as (later & L & F).
    exists later. split; [exact F|].
    assert (C : collect_blocks base_blocks table_blocks
                  (before ++ hw :: after)
                = Ok (seen ++ Block "handwriting_region" (d_bbox hw)
                                "send_to_ocr" "[HANDWRITING_IMAGE]" :: later,
                      flat_map (fun t => calls_for base_blocks (d_bbox t))
                        table_blocks)).
    { rewrite collect_blocks_split, E. simpl. rewrite I. simpl.
      rewrite L, <- app_assoc. reflexivity. }
    split; [exact C|].
    split; [unfold intelligent_merge; rewrite C; reflexivity|].
    assert (N : In (Block "handwriting_region" (d_bbox hw) "send_to_ocr"
                      "[HANDWRITING_IMAGE]")
                  (seen ++ Block "handwriting_region" (d_bbox hw)
                             "send_to_ocr" "[HANDWRITING_IMAGE]" :: later)).
    { apply in_or_app. right. left. reflexivity. }
    destruct (merge_sources_not_text_like _ _ N eq_refl)
      as (og & H1 & H2 & H3 & H4 & H5).
    exists og. split; [exact H1|]. split.
    { assert (M : forall blocks,
                map fst (merge_sources blocks)
                = merge_consecutive_blocks blocks).
      { intros blocks. unfold merge_sources, merge_consecutive_blocks.
        destruct (sorted_by_top blocks);
          [reflexivity | apply merge_walk_sources_fst]. }
      rewrite <- M. apply in_map. exact H1. }
    split; [exact H2|]. split; [exact H3|]. split; [exact H4 | exact H5].
Qed.

Lemma handwriting_isolation_witness :
  intelligent_merge [typed_line] [] [scribble_inside; scribble_below]
  = Ok (merge_consecutive_blocks
          [paragraph;
           Block "handwriting_region" (Box 10 300 30 330) "send_to_ocr"
             "[HANDWRITING_IMAGE]"]) /\
  collect_blocks [typed_line] [] [scribble_inside] = Ok ([paragraph], []).
Proof.
  split.
  - destruct (handwriting_isolation [typed_line] [] [scribble_inside] []
                scribble_below)
      as (_ & seen & calls & E & _ & _ & K).
    vm_compute in E. injection E as <- <-.
    destruct K as (_ & later & F & _ & M & _).
    { intros fb [<- | []].
      eexists. split; [vm_compute; reflexivity | discriminate]. }
    inversion F; subst; [|match goal with
                          | H : exists h, In h [] /\ _ |- _ =>
                              destruct H as (? & [] & _)
                          end].
    exact M.
  - destruct (handwriting_isolation [typed_line] [] [] [] scribble_inside)
      as (_ & seen & calls & E & _ & D & _).
    vm_compute in E. injection E as <- <-.
    destruct D as (C & _).
    { exists paragraph. split; [left; reflexivity|].
      eexists. split; [vm_compute; reflexivity | reflexivity]. }
    exact C.
Defined.

(* --------------------------------------------------------------------- *)
(** *** Containment and degenerate boxes *)

Lemma degenerate_false_proper (b : box) : degenerate b = false <-> proper_box b.
Proof.
  unfold degenerate, proper_box. rewrite orb_false_iff, !Qleb_gt. tauto.
Qed.

Lemma inter_area_degenerate_r (a b : box) :
  degenerate b = true -> inter_area a b == 0.
Proof.
  unfold degenerate. rewrite orb_true_iff, !Qleb_le.
  intros D. unfold inter_area; cbv zeta. destruct D as [D | D].
  - assert (E : py_max 0 (py_min (bx1 a) (bx1 b) - py_max (bx0 a) (bx0 b)) == 0)
      by (minmax_cases; lra).
    rewrite E. ring.
  - assert (E : py_max 0 (py_min (by1 a) (by1 b) - py_max (by0 a) (by0 b)) == 0)
      by (minmax_cases; lra).
    rewrite E. ring.
Qed.

Lemma proper_box_area (b : box) : proper_box b -> 0 < box_area b.
Proof.
  intros [Hx Hy]. unfold box_area.
  apply Qmult_lt_0_compat; lra.
Qed.

Lemma containment_value_bounds (a b : box) :
  0 <= containment_value a b <= 1.
Proof.
  unfold containment_value.
  destruct (Qeq_bool (box_area b) 0) eqn:Z0; [lra|].
  destruct (degenerate b) eqn:D.
  - rewrite (inter_area_degenerate_r a b D). unfold Qdiv.
    rewrite Qmult_0_l. lra.
  - apply degenerate_false_proper in D.
    pose proof (proper_box_area b D) as P.
    pose proof (inter_area_nonneg a b) as N.
    pose proof (inter_area_le_second a b D) as L.
    split.
    + apply Qle_shift_div_l; [exact P | lra].
    + apply Qle_shift_div_r; [exact P | lra].
Qed.

Lemma containment_value_self (a : box) :
  proper_box a -> containment_value a a == 1.
Proof.
  intros P. unfold containment_value.
  pose proof (proper_box_area a P) as A.
  destruct (Qeq_bool (box_area a) 0) eqn:Z0.
  - apply Qeq_bool_iff in Z0. lra.
  - rewrite (inter_area_self a P). field. lra.
Qed.

Lemma intelligent_merge_returns (base_blocks : list base_block)
    (table_blocks hw_blocks : list detection) :
  returns (intelligent_merge base_blocks table_blocks hw_blocks).
Proof.
  destruct (collect_blocks_Ok base_blocks table_blocks hw_blocks)
    as (others & E & _).
  unfold intelligent_merge. rewrite E. simpl. eexists. reflexivity.
Qed.

(** C6, as stated, fails: no filter runs before the overlap scores are
    computed.  A degenerate base box is handed to [calculate_intersection]
    and is still in the output of [intelligent_merge]. *)
Lemma degenerate_box_not_filtered :
  degenerate dot_box = true /\
  exists final_blocks calls,
    collect_blocks [dot_block] [page_table] [] = Ok (final_blocks, calls) /\
    In (d_bbox page_table, dot_box) calls /\
    exists out, intelligent_merge [dot_block] [page_table] [] = Ok out /\
      In (Block "text" dot_box "extract_text" "dot") out.
Proof.
  split; [reflexivity|].
  eexists. eexists. split; [vm_compute; reflexivity|].
  split; [left; reflexivity|].
  eexists. split; [vm_compute; reflexivity|].
  right. left. reflexivity.
Qed.

(** C6 (amended): degenerate boxes are not filtered out; the divisions are
    guarded instead.  For all boxes A and B, degenerate or not,
    [calculate_intersection] returns a score in [0,1]; on two copies of a
    box of positive width and height it returns 1; when the denominator (the
    area of B) is 0 it returns 0; and neither [calculate_intersection],
    [calculate_iou] nor [intelligent_merge] ever raises. *)
Theorem containment_total_and_bounded (a b : box)
    (base_blocks : list base_block) (table_blocks hw_blocks : list detection) :
  (exists s, calculate_intersection a b = Ok s /\ 0 <= s <= 1) /\
  (degenerate a = false ->
     exists s, calculate_intersection a a = Ok s /\ s == 1) /\
  (box_area b == 0 -> calculate_intersection a b = Ok 0) /\
  returns (calculate_iou a b) /\
  returns (intelligent_merge base_blocks table_blocks hw_blocks).
Proof.
  split; [|split; [|split; [|split]]].
  - exists (containment_value a b).
    split; [apply calculate_intersection_Ok | apply containment_value_bounds].
  - intros D. apply degenerate_false_proper in D.
    exists (containment_value a a).
    split; [apply calculate_intersection_Ok | apply containment_value_self].
    exact D.
  - intros Z0. unfold calculate_intersection; cbv zeta.
    apply Qeq_bool_iff in Z0. rewrite Z0. reflexivity.
  - exists (iou_value a b). apply calculate_iou_Ok.
  - apply intelligent_merge_returns.
Qed.

Lemma containment_total_and_bounded_witness :
  (exists s, calculate_intersection big_square big_square = Ok s /\ s == 1) /\
  calculate_intersection big_square dot_box = Ok 0.
Proof.
  destruct (containment_total_and_bounded big_square dot_box [] [] [])
    as (_ & _ & Hz & _).
  destruct (containment_total_and_bounded big_square big_square [] [] [])
    as (_ & Hs & _).
  split.
  - apply Hs. reflexivity.
  - apply Hz. reflexivity.
Defined.

(* ===================================================================== *)
(** ** The worker pool *)
(* ===================================================================== *)


Lemma exchange_fails_raises (json_dumps : pyval -> string)
    (json_loads : string -> option pyval) (p : process) (data : payload) :
  exchange_fails json_dumps json_loads p data ->
  exchange json_dumps json_loads p data = Some (Ok PyNone) \/
  exists e, exchange json_dumps json_loads p data = Some (Raise e).
Proof.
  unfold exchange_fails, exchange. cbv zeta.
  intros [(e & F) | [(e & F) | [(e & F) | [F | (r & F & J)]]]].
  - rewrite F. right. exists e. reflexivity.
  - destruct (stdin_write p _); [|right; eexists; reflexivity].
    rewrite F. right. exists e. reflexivity.
  - destruct (stdin_write p _); [|right; eexists; reflexivity].
    destruct (stdin_flush p); [|right; eexists; reflexivity].
    rewrite F. right. exists e. reflexivity.
  - destruct (stdin_write p _); [|right; eexists; reflexivity].
    destruct (stdin_flush p); [|right; eexists; reflexivity].
    rewrite F. left. reflexivity.
  - destruct (stdin_write p _); [|right; eexists; reflexivity].
    destruct (stdin_flush p); [|right; eexists; reflexivity].
    rewrite F, J.
    destruct (String.eqb r EmptyString);
      [left; reflexivity | right; eexists; reflexivity].
Qed.

Lemma exchange_silent (json_dumps : pyval -> string)
    (json_loads : string -> option pyval) (p : process) (data : payload) :
  exchange json_dumps json_loads p data = None <->
  worker_silent json_dumps p data.
Proof.
  unfold exchange, worker_silent. cbv zeta. split.
  - destruct (stdin_write p _) as [u|]; [|discriminate].
    destruct (stdin_flush p) as [u'|]; [|discriminate].
    destruct (stdout_readline p _) as [[r|e]|]; try discriminate.
    intros _. split; [exists u; reflexivity|].
    split; [exists u'; reflexivity | reflexivity].
  - intros ((u & Ew) & (u' & Ef) & Er). rewrite Ew, Ef, Er. reflexivity.
Qed.




(* --------------------------------------------------------------------- *)
(** *** Teardown *)

(** C8 fails on [WorkerManager.stop_all]: a running worker that accepts the
    ["EXIT"] line but does not leave is neither waited for nor killed; it
    is still running after [stop_all] has returned and cleared the
    registry.  [PipelineOrchestrator.stop_workers] kills the same worker. *)
Theorem stop_all_leaves_worker_running :
  stop_all (<[ "audio" := hung_worker ]> ∅)
    = (<[ "audio" := StillRunning ]> ∅, ∅) /\
  stop_workers [Some hung_worker] = [WasKilled].
Proof.
  split; [|reflexivity].
  unfold stop_all. rewrite fmap_insert, fmap_empty. reflexivity.
Qed.

(** [stop_workers] leaves no process running. *)
Lemma stop_workers_none_running (procs : list (option process)) :
  Forall (fun o => o <> StillRunning) (stop_workers procs).
Proof.
  induction procs as [|[p|] rest IH]; simpl; [constructor | | exact IH].
  constructor; [|exact IH].
  unfold stop_workers_one.
  destruct (do _ <- send_exit p; wait_grace p); [discriminate|].
  destruct (is_running p); discriminate.
Qed.

(** What [stop_all] does achieve: a process is left running only if it was
    running, took the ["EXIT"] line, and does not leave on it. *)
Lemma stop_all_one_running (p : process) :
  stop_all_one p = StillRunning <->
  is_running p = true /\ (exists u, send_exit p = Ok u) /\
  exits_on_exit_token p = false.
Proof.
  unfold stop_all_one. split.
  - destruct (is_running p); [|discriminate].
    destruct (send_exit p) as [u|e]; [|discriminate].
    destruct (exits_on_exit_token p); [discriminate|].
    intros _. split; [reflexivity|]. split; [exists u|]; reflexivity.
  - intros (R & (u & S) & X). rewrite R, S, X. reflexivity.
Qed.

(* ===================================================================== *)
(** ** The pipeline *)
(* ===================================================================== *)

Section PipelineFacts.

Context {W : Type}.
Variable query : W -> string -> payload -> result pyval * W.
Variable py_str : pyval -> string.
Variable splitext_lower : string -> string.
Variable basename : string -> string.
Variable abspath : string -> string.
Variable extract_audio_from_video : string -> option string.
Variable crop_save : box -> string -> result unit.
Variable temp_path : nat -> nat -> string.
Variable annotated_image_exists : nat -> bool.
Variable process_file : string -> result (list (page block)).
Variable get_video_id : string -> option string.
Variable fetch_segments : string -> result pyval.
Variable exn_str : exn -> string.

Local Abbreviation enrich_one :=
  (enrich_block query py_str abspath crop_save temp_path).
Local Abbreviation enrich_all :=
  (run_workers_on_blocks query py_str abspath crop_save temp_path).
Local Abbreviation enrich_doc :=
  (enrich_pages query py_str abspath crop_save temp_path
     annotated_image_exists).
Local Abbreviation workflow :=
  (app_workflow query py_str splitext_lower basename abspath
     extract_audio_from_video crop_save temp_path annotated_image_exists
     process_file get_video_id fetch_segments exn_str).
Local Abbreviation router := (node_router splitext_lower).
Local Abbreviation target_of :=
  (media_target splitext_lower extract_audio_from_video).

(* --------------------------------------------------------------------- *)
(** *** Enrichment *)

Lemma enrich_block_frame (page_num idx : nat) (b : block) (w : W) :
  degenerate (bbox b) = true \/ no_arm b = true ->
  enrich_one page_num idx b w = (of_block b, w).
Proof.
  intros [D | N]; unfold enrich_block.
  - rewrite D. reflexivity.
  - destruct (degenerate (bbox b)); [reflexivity|].
    unfold no_arm in N.
    apply andb_prop in N. destruct N as [N N3].
    apply andb_prop in N. destruct N as [N1 N2].
    apply negb_true_iff in N1, N2, N3.
    unfold try_except, dispatch. rewrite N1, N2, N3. reflexivity.
Qed.

(** Enrichment writes ["content"] and ["action"] only. *)
Lemma enrich_block_keeps_type_bbox (page_num idx : nat) (b : block) (w : W) :
  e_type (fst (enrich_one page_num idx b w)) = type b /\
  e_bbox (fst (enrich_one page_num idx b w)) = bbox b.
Proof.
  unfold enrich_block, try_except, dispatch, table_arm, vlm_arm, ocr_arm,
    bindM, lift, ret.
  repeat case_match; simplify_eq; simpl; auto.
Qed.

Lemma run_workers_on_blocks_shape (blocks : list block) :
  forall page_num idx w,
    length (fst (enrich_all page_num idx blocks w)) = length blocks /\
    map e_type (fst (enrich_all page_num idx blocks w)) = map type blocks /\
    map e_bbox (fst (enrich_all page_num idx blocks w)) = map bbox blocks.
Proof.
  induction blocks as [|b rest IH]; intros page_num idx w; simpl.
  - auto.
  - pose proof (enrich_block_keeps_type_bbox page_num idx b w) as [T B].
    destruct (enrich_one page_num idx b w) as [e w1].
    destruct (IH page_num (S idx) w1) as (L & Ts & Bs).
    destruct (enrich_all page_num (S idx) rest w1) as [es w2].
    simpl in *. rewrite L, Ts, Bs, T, B. auto.
Qed.

Lemma run_workers_on_blocks_frame (blocks : list block) :
  forall page_num idx w i b,
    nth_error blocks i = Some b ->
    degenerate (bbox b) = true \/ no_arm b = true ->
    nth_error (fst (enrich_all page_num idx blocks w)) i
    = Some (of_block b).
Proof.
  induction blocks as [|c rest IH]; intros page_num idx w i b Hi Hb.
  - destruct i; discriminate.
  - simpl.
    destruct (enrich_one page_num idx c w) as [e w1] eqn:E.
    pose proof (IH page_num (S idx) w1) as IH'.
    destruct (enrich_all page_num (S idx) rest w1) as [es w2].
    destruct i as [|i]; simpl in *.
    + injection Hi as ->.
      rewrite (enrich_block_frame page_num idx b w Hb) in E.
      injection E as <- _. reflexivity.
    + apply IH'; assumption.
Qed.

Lemma enrich_pages_lengths (pages : list (page block)) :
  forall w,
    Forall (fun entry =>
              exists page_data blocks,
                In page_data pages /\
                entry = EnrichedPage (Page (page_number page_data) blocks) /\
                length blocks
                = length (cleaned_blocks (page_blocks page_data)))
      (fst (enrich_doc pages w)).
Proof.
  induction pages as [|pg rest IH]; intros w; simpl; [constructor|].
  destruct (annotated_image_exists (page_number pg)).
  - pose proof (run_workers_on_blocks_shape (cleaned_blocks (page_blocks pg))
                  (page_number pg) 0%nat w) as (L & _ & _).
    destruct (enrich_all (page_number pg) 0%nat
                (cleaned_blocks (page_blocks pg)) w) as [es w1].
    pose proof (IH w1) as F.
    destruct (enrich_doc rest w1) as [ps w2]. simpl in *.
    constructor.
    + exists pg, es. split; [left; reflexivity|]. split; [reflexivity|exact L].
    + eapply Forall_impl; [|exact F]. simpl.
      intros entry (pd & bs & Hin & He & Hl).
      exists pd, bs. split; [right; exact Hin|]. split; assumption.
  - pose proof (IH w) as F.
    eapply Forall_impl; [|exact F]. simpl.
    intros entry (pd & bs & Hin & He & Hl).
    exists pd, bs. split; [right; exact Hin|]. split; assumption.
Qed.

(** C10: in the enrichment loop over the blocks of a page (after the
    low-signal filter), a block whose box is degenerate, and a block that
    matches none of the three dispatch arms, comes out with its type, box,
    action and content as they were, whatever the workers answer; the loop
    returns as many blocks as it was given, each with the type and box of
    the block at its position; and every page of the enriched document has
    as many blocks as the filtered page it comes from. *)
Theorem enrichment_frame (page_num idx : nat) (blocks : list block) (w : W) :
  (forall i b,
     nth_error blocks i = Some b ->
     degenerate (bbox b) = true \/ no_arm b = true ->
     nth_error (fst (enrich_all page_num idx blocks w)) i
     = Some (of_block b)) /\
  length (fst (enrich_all page_num idx blocks w)) = length blocks /\
  map e_type (fst (enrich_all page_num idx blocks w)) = map type blocks /\
  map e_bbox (fst (enrich_all page_num idx blocks w)) = map bbox blocks /\
  (forall pages,
     Forall (fun entry =>
               exists page_data out,
                 In page_data pages /\
                 entry = EnrichedPage (Page (page_number page_data) out) /\
                 length out
                 = length (cleaned_blocks (page_blocks page_data)))
       (fst (enrich_doc pages w))).
Proof.
  split; [|split; [|split; [|split]]].
  - intros i b. apply run_workers_on_blocks_frame.
  - apply run_workers_on_blocks_shape.
  - apply run_workers_on_blocks_shape.
  - apply run_workers_on_blocks_shape.
  - intros pages. apply enrich_pages_lengths.
Qed.

(* --------------------------------------------------------------------- *)
(** *** The media path *)

Lemma node_router_file_path (st : GraphState) :
  file_path (router st) = file_path st.
Proof.
  unfold node_router. repeat case_match; reflexivity.
Qed.

Lemma node_router_status (st : GraphState) : status (router st) = "routed".
Proof.
  unfold node_router. repeat case_match; reflexivity.
Qed.

Lemma media_target_router (st : GraphState) :
  target_of (router st) = target_of st.
Proof.
  unfold media_target. rewrite node_router_file_path. reflexivity.
Qed.

(** The run of the graph on the media path, given what the transcription
    worker answers. *)
Lemma media_run (st : GraphState) (w w' : W) (target : string)
    (answer : pyval) (final : GraphState) :
  file_type (router st) = "media" ->
  target_of st = Some target ->
  query w "audio" (PathPayload (abspath target)) = (Ok answer, w') ->
  transcription_outcome py_str basename (router st) answer = Ok final ->
  workflow st w = Some (Ok (final, [Router; ProcessMedia]), w').
Proof.
  intros Hm Ht Hq Ho.
  unfold app_workflow. simpl.
  unfold route_next_step. rewrite node_router_status, Hm. simpl.
  unfold node_process_media. rewrite media_target_router, Ht.
  unfold bindM, lift. rewrite Hq, Ho. reflexivity.
Qed.

(** C9: on the media path, when the transcription worker returns no result
    ([None]) or a result with an ["error"] key, the run ends after the
    media node with status ["failed"], and the error field holds the text
    of the worker's result; when it returns a result without an ["error"]
    key, the run ends after the media node with status ["completed"] and
    the transcription as its data.  In both cases the nodes visited are the
    router and the media node: there is no enrichment stage. *)
Theorem media_path_outcome (st : GraphState) (w w' : W) (target : string)
    (answer : pyval) :
  file_type (router st) = "media" ->
  target_of st = Some target ->
  query w "audio" (PathPayload (abspath target)) = (Ok answer, w') ->
  ((answer = PyNone \/
    exists entries, answer = PyDict entries /\
                    dict_lookup "error" entries <> None) ->
   exists final,
     workflow st w = Some (Ok (final, [Router; ProcessMedia]), w') /\
     status final = "failed" /\
     error final = Some (to_str py_str answer) /\
     rag_ready_data final = rag_ready_data st) /\
  ((exists entries, answer = PyDict entries /\ entries <> [] /\
                    dict_lookup "error" entries = None) ->
   exists final language duration segments,
     workflow st w = Some (Ok (final, [Router; ProcessMedia]), w') /\
     status final = "completed" /\
     py_get answer "language" PyNone = Ok language /\
     py_get answer "duration" PyNone = Ok duration /\
     py_get answer "blocks" (PyList []) = Ok segments /\
     rag_ready_data final
     = [AudioTranscription (basename (file_path st))
          language duration segments]).
Proof.
  intros Hm Ht Hq. split.
  - intros Hfail.
    exists (set_failed (router st) (to_str py_str answer)).
    split; [|split; [reflexivity|split; [reflexivity|]]].
    + apply (media_run st w w' target answer); try assumption.
      unfold transcription_outcome.
      destruct Hfail as [-> | (entries & -> & He)]; [reflexivity|].
      simpl. destruct entries as [|en rest]; [contradiction He; reflexivity|].
      simpl (negb _). cbv iota. unfold py_in.
      destruct (dict_lookup "error" (en :: rest)); [reflexivity|].
      contradiction He; reflexivity.
    + simpl. unfold node_router. repeat case_match; reflexivity.
  - intros (entries & -> & Hne & He).
    pose (field := fun key default =>
            match dict_lookup key entries with
            | Some x => x
            | None => default
            end).
    exists (set_completed (router st)
              [AudioTranscription (basename (file_path (router st)))
                 (field "language" PyNone) (field "duration" PyNone)
                 (field "blocks" (PyList []))]).
    exists (field "language" PyNone), (field "duration" PyNone),
           (field "blocks" (PyList [])).
    split; [|split; [|split; [|split; [|split]]]].
    + apply (media_run st w w' target (PyDict entries)); try assumption.
      unfold transcription_outcome.
      destruct entries as [|en rest]; [contradiction Hne; reflexivity|].
      simpl (negb _). cbv iota. unfold py_in. rewrite He. simpl.
      reflexivity.
    + reflexivity.
    + reflexivity.
    + reflexivity.
    + reflexivity.
    + simpl. rewrite node_router_file_path. reflexivity.
Qed.

End PipelineFacts.

(* --------------------------------------------------------------------- *)
(** *** Scenario D and a page with untouched blocks *)

Lemma media_path_outcome_witness :
  exists final,
    app_workflow query_decode_failed str_decode_failed ext_mp3 same_path
      same_path no_ffmpeg crop_ok one_temp_path images_on_disk no_layout
      no_video_id no_segments exn_text lecture tt
    = Some (Ok (final, [Router; ProcessMedia]), tt) /\
    status final = "failed" /\
    error final = Some "{'error': 'decode failed'}".
Proof.
  destruct (media_path_outcome query_decode_failed str_decode_failed ext_mp3
              same_path same_path no_ffmpeg crop_ok one_temp_path
              images_on_disk no_layout no_video_id no_segments exn_text
              lecture tt tt "lecture.mp3" decode_failed
              eq_refl eq_refl eq_refl) as [H _].
  destruct H as (final & R & S & E & _).
  - right. exists [("error", PyStr "decode failed")].
    split; [reflexivity | discriminate].
  - exists final. split; [exact R|]. split; [exact S | exact E].
Defined.

Lemma enrichment_frame_witness :
  let out := fst (run_workers_on_blocks query_decode_failed str_decode_failed
                    same_path crop_ok one_temp_path 1 0
                    [caption_block; flat_table; note_block] tt) in
  nth_error out 0 = Some (of_block caption_block) /\
  nth_error out 1 = Some (of_block flat_table) /\
  length out = 3%nat.
Proof.
  destruct (enrichment_frame query_decode_failed str_decode_failed same_path
              crop_ok one_temp_path images_on_disk 1 0
              [caption_block; flat_table; note_block] tt)
    as (F & L & _).
  cbv zeta. split; [|split].
  - apply F; [reflexivity | right; reflexivity].
  - apply F; [reflexivity | left; reflexivity].
  - exact L.
Defined.

(* ********************************************************************* *)
(** * Part III: further properties of the code *)
(* ********************************************************************* *)

(* ===================================================================== *)
(** ** The consecutive merge *)
(* ===================================================================== *)

Lemma merge_sources_fst (blocks : list block) :
  map fst (merge_sources blocks) = merge_consecutive_blocks blocks.
Proof.
  unfold merge_sources, merge_consecutive_blocks.
  destruct (sorted_by_top blocks); [reflexivity|].
  apply merge_walk_sources_fst.
Qed.

Lemma merge_sources_snd (blocks : list block) :
  concat (map snd (merge_sources blocks)) = sorted_by_top blocks.
Proof.
  unfold merge_sources.
  destruct (sorted_by_top blocks); [reflexivity|].
  apply merge_walk_sources_snd.
Qed.

Lemma merge_walk_length (rest : list block) :
  forall current,
    (1 <= length (merge_walk current rest) <= S (length rest))%nat.
Proof.
  induction rest as [|n r IH]; intros c; simpl; [lia|].
  destruct (should_merge c n).
  - specialize (IH (merge_into c n)). lia.
  - specialize (IH n). simpl. lia.
Qed.

Lemma Sorted_neighbours {A : Type} (R : A -> A -> Prop) (l : list A) :
  Sorted R l ->
  forall i a b, nth_error l i = Some a -> nth_error l (S i) = Some b -> R a b.
Proof.
  induction 1 as [|x l S IH H]; intros i a b Ha Hb.
  - destruct i; discriminate.
  - destruct i as [|i]; simpl in *.
    + injection Ha as ->. destruct l as [|y l']; [discriminate|].
      simpl in Hb. injection Hb as ->. apply HdRel_inv in H. exact H.
    + eapply IH; eassumption.
Qed.

(** X1: the output of [merge_consecutive_blocks] is ordered by top edge and
    no two neighbours in it satisfy the merge guard; it is never longer than
    the input and is empty exactly when the input is. *)
Theorem merge_output_ordered_and_settled (blocks : list block) :
  (length (merge_consecutive_blocks blocks) <= length blocks)%nat /\
  (merge_consecutive_blocks blocks = [] <-> blocks = []) /\
  (forall i a b,
     nth_error (merge_consecutive_blocks blocks) i = Some a ->
     nth_error (merge_consecutive_blocks blocks) (S i) = Some b ->
     top a <= top b /\ should_merge a b = false).
Proof.
  pose proof (Permutation_length (sorted_by_top_Permutation blocks)) as L.
  split; [|split].
  - unfold merge_consecutive_blocks.
    destruct (sorted_by_top blocks) as [|c r]; simpl in *; [lia|].
    pose proof (merge_walk_length r c). lia.
  - unfold merge_consecutive_blocks.
    destruct (sorted_by_top blocks) as [|c r]; simpl in *.
    + split; [|reflexivity]. intros _. destruct blocks; [reflexivity|].
      discriminate.
    + pose proof (merge_walk_length r c) as M. split.
      * intros E. rewrite E in M. simpl in M. lia.
      * intros E. subst blocks. discriminate.
  - intros i a b Ha Hb.
    exact (Sorted_neighbours settled _
             (merge_consecutive_blocks_settled blocks) i a b Ha Hb).
Qed.

(* --------------------------------------------------------------------- *)
(** *** The box of a merged block *)

Lemma bounding_box_single (b : box) : bounding_box b [b].
Proof.
  unfold bounding_box, box_within. split.
  - constructor; [|constructor]. repeat split; apply Qle_refl.
  - repeat split; exists b; (split; [left; reflexivity | reflexivity]).
Qed.

Lemma py_min_le_l (a b : Q) : py_min a b <= a.
Proof. minmax_cases; lra. Qed.

Lemma py_min_le_r (a b : Q) : py_min a b <= b.
Proof. minmax_cases; lra. Qed.

Lemma py_max_ge_l (a b : Q) : a <= py_max a b.
Proof. minmax_cases; lra. Qed.

Lemma py_max_ge_r (a b : Q) : b <= py_max a b.
Proof. minmax_cases; lra. Qed.

Lemma py_min_choice (a b : Q) : py_min a b = a \/ py_min a b = b.
Proof. unfold py_min. destruct (Qltb b a); auto. Qed.

Lemma py_max_choice (a b : Q) : py_max a b = a \/ py_max a b = b.
Proof. unfold py_max. destruct (Qltb a b); auto. Qed.

Lemma bounding_box_merge_into (c n : block) (srcs : list box) :
  bounding_box (bbox c) srcs ->
  bounding_box (bbox (merge_into c n)) (srcs ++ [bbox n]).
Proof.
  intros (W & X0 & Y0 & X1 & Y1). unfold bounding_box. simpl.
  pose proof (py_min_le_l (bx0 (bbox c)) (bx0 (bbox n))).
  pose proof (py_min_le_r (bx0 (bbox c)) (bx0 (bbox n))).
  pose proof (py_min_le_l (by0 (bbox c)) (by0 (bbox n))).
  pose proof (py_min_le_r (by0 (bbox c)) (by0 (bbox n))).
  pose proof (py_max_ge_l (bx1 (bbox c)) (bx1 (bbox n))).
  pose proof (py_max_ge_r (bx1 (bbox c)) (bx1 (bbox n))).
  pose proof (py_max_ge_l (by1 (bbox c)) (by1 (bbox n))).
  pose proof (py_max_ge_r (by1 (bbox c)) (by1 (bbox n))).
  split; [|split; [|split; [|split]]].
  - apply Forall_app. split.
    + eapply Forall_impl; [|exact W]. unfold box_within. simpl.
      intros s (? & ? & ? & ?). repeat split; lra.
    + constructor; [|constructor]. unfold box_within. simpl.
      repeat split; assumption.
  - destruct (py_min_choice (bx0 (bbox c)) (bx0 (bbox n))) as [E | E];
      rewrite E.
    + destruct X0 as (s & Hs & Es). exists s.
      split; [apply in_or_app; left; exact Hs | exact Es].
    + exists (bbox n). split; [apply in_or_app; right; left|]; reflexivity.
  - destruct (py_min_choice (by0 (bbox c)) (by0 (bbox n))) as [E | E];
      rewrite E.
    + destruct Y0 as (s & Hs & Es). exists s.
      split; [apply in_or_app; left; exact Hs | exact Es].
    + exists (bbox n). split; [apply in_or_app; right; left|]; reflexivity.
  - destruct (py_max_choice (bx1 (bbox c)) (bx1 (bbox n))) as [E | E];
      rewrite E.
    + destruct X1 as (s & Hs & Es). exists s.
      split; [apply in_or_app; left; exact Hs | exact Es].
    + exists (bbox n). split; [apply in_or_app; right; left|]; reflexivity.
  - destruct (py_max_choice (by1 (bbox c)) (by1 (bbox n))) as [E | E];
      rewrite E.
    + destruct Y1 as (s & Hs & Es). exists s.
      split; [apply in_or_app; left; exact Hs | exact Es].
    + exists (bbox n). split; [apply in_or_app; right; left|]; reflexivity.
Qed.

Lemma merge_walk_sources_boxes (rest : list block) :
  forall current sources,
    bounding_box (bbox current) (map bbox sources) ->
    Forall (fun og => bounding_box (bbox (fst og)) (map bbox (snd og)))
      (merge_walk_sources current sources rest).
Proof.
  induction rest as [|n r IH]; intros c s K; simpl.
  - constructor; [exact K | constructor].
  - destruct (should_merge c n).
    + apply IH. rewrite map_app. simpl.
      apply bounding_box_merge_into. exact K.
    + constructor; [exact K|]. apply IH. simpl. apply bounding_box_single.
Qed.

Lemma bounding_box_proper (o : box) (srcs : list box) :
  bounding_box o srcs -> Forall proper_box srcs -> proper_box o.
Proof.
  intros (W & (s & Hs & Es) & (t & Ht & Et) & _ & _) P.
  rewrite Forall_forall in W, P.
  pose proof (W s Hs) as (_ & _ & Ws & _).
  pose proof (W t Ht) as (_ & _ & _ & Wt).
  destruct (P s Hs) as [Ps _]. destruct (P t Ht) as [_ Pt].
  unfold proper_box. rewrite Es, Et. split; lra.
Qed.

Lemma merge_sources_bounding (blocks : list block) :
  Forall (fun og => bounding_box (bbox (fst og)) (map bbox (snd og)))
    (merge_sources blocks).
Proof.
  unfold merge_sources. destruct (sorted_by_top blocks) as [|c r];
    [constructor|].
  apply merge_walk_sources_boxes. simpl. apply bounding_box_single.
Qed.

Lemma merge_keeps_proper_boxes (blocks : list block) :
  Forall (fun b => proper_box (bbox b)) blocks ->
  Forall (fun o => proper_box (bbox o)) (merge_consecutive_blocks blocks).
Proof.
  intros P. pose proof (merge_sources_bounding blocks) as B.
  rewrite <- merge_sources_fst.
  apply Forall_map.
  assert (S : Forall (fun b => proper_box (bbox b))
                (concat (map snd (merge_sources blocks)))).
  { rewrite merge_sources_snd.
    rewrite Forall_forall in *. intros b Hb. apply P.
    apply (Permutation_in _ (Permutation_sym
                               (sorted_by_top_Permutation blocks))).
    exact Hb. }
  rewrite Forall_forall in *. intros og Hog.
  apply (bounding_box_proper _ (map bbox (snd og)) (B og Hog)).
  apply Forall_forall. intros bx Hbx.
  apply in_map_iff in Hbx. destruct Hbx as (s & <- & Hs).
  apply S. apply in_concat. exists (snd og).
  split; [apply in_map; exact Hog | exact Hs].
Qed.

(** X2: the box of every output block of [merge_consecutive_blocks] is the
    smallest box around the boxes of the input blocks it was formed from;
    so when every input box has positive width and height, every output
    box has too. *)
Theorem merged_box_is_bounding_box (blocks : list block) :
  map fst (merge_sources blocks) = merge_consecutive_blocks blocks /\
  Forall (fun og => bounding_box (bbox (fst og)) (map bbox (snd og)))
    (merge_sources blocks) /\
  (Forall (fun b => proper_box (bbox b)) blocks ->
   Forall (fun o => proper_box (bbox o)) (merge_consecutive_blocks blocks)).
Proof.
  split; [apply merge_sources_fst|].
  split; [apply merge_sources_bounding | apply merge_keeps_proper_boxes].
Qed.

Lemma merged_box_is_bounding_box_witness :
  Forall (fun o => proper_box (bbox o))
    (merge_consecutive_blocks tables_then_text).
Proof.
  apply (proj2 (proj2 (merged_box_is_bounding_box tables_then_text))).
  repeat constructor.
Defined.

(* --------------------------------------------------------------------- *)
(** *** The content and action of a merged block *)

(** X3: [merge_consecutive_blocks] loses no text: the runs of input blocks
    its output blocks are formed from make up the sorted input, the content
    of an output block is the contents of its run joined by line breaks, in
    order, and its action is the action of the first block of the run. *)
Theorem merged_content_is_joined (blocks : list block) :
  map fst (merge_sources blocks) = merge_consecutive_blocks blocks /\
  concat (map snd (merge_sources blocks)) = sorted_by_top blocks /\
  Permutation blocks (sorted_by_top blocks) /\
  Forall (fun og =>
            content (fst og) = join nl (map content (snd og)) /\
            exists first others,
              snd og = first :: others /\ action (fst og) = action first)
    (merge_sources blocks).
Proof.
  split; [apply merge_sources_fst|]. split; [apply merge_sources_snd|].
  split; [apply sorted_by_top_Permutation|].
  apply merge_sources_text.
Qed.

(* ===================================================================== *)
(** ** Overlap scores *)
(* ===================================================================== *)

Lemma inter_area_degenerate_l (a b : box) :
  degenerate a = true -> inter_area a b == 0.
Proof.
  intros D. rewrite inter_area_comm. apply inter_area_degenerate_r. exact D.
Qed.

Lemma iou_value_bounds (a b : box) : 0 <= iou_value a b <= 1.
Proof.
  destruct (degenerate a) eqn:Da.
  { rewrite (iou_value_zero_inter a b (inter_area_degenerate_l a b Da)). lra. }
  destruct (degenerate b) eqn:Db.
  { rewrite (iou_value_zero_inter a b (inter_area_degenerate_r a b Db)). lra. }
  apply degenerate_false_proper in Da, Db.
  pose proof (proper_box_area a Da) as Pa.
  pose proof (proper_box_area b Db) as Pb.
  pose proof (inter_area_nonneg a b) as N.
  pose proof (inter_area_le_second a b Db) as Lb.
  pose proof (inter_area_le_second b a Da) as La.
  rewrite <- (inter_area_comm a b) in La.
  unfold iou_value; cbv zeta.
  destruct (Qeq_bool (py_min (box_area a) (box_area b)) 0); [lra|].
  destruct (py_min_choice (box_area a) (box_area b)) as [E | E]; rewrite E.
  - split; [apply Qle_shift_div_l | apply Qle_shift_div_r]; lra.
  - split; [apply Qle_shift_div_l | apply Qle_shift_div_r]; lra.
Qed.

(** X4: the score [calculate_iou] returns lies in [0,1] for all boxes,
    degenerate or not. *)
Theorem calculate_iou_in_unit_interval (a b : box) :
  exists s, calculate_iou a b = Ok s /\ 0 <= s <= 1.
Proof.
  exists (iou_value a b).
  split; [apply calculate_iou_Ok | apply iou_value_bounds].
Qed.

Lemma box_within_proper (inner outer : box) :
  proper_box inner -> box_within inner outer -> proper_box outer.
Proof.
  intros [Px Py] (X0 & Y0 & X1 & Y1). split; lra.
Qed.

Lemma inter_area_within (inner outer : box) :
  proper_box inner -> box_within inner outer ->
  inter_area outer inner == box_area inner.
Proof.
  intros [Px Py] (X0 & Y0 & X1 & Y1). unfold inter_area, box_area; cbv zeta.
  assert (W : py_max 0 (py_min (bx1 outer) (bx1 inner)
                        - py_max (bx0 outer) (bx0 inner))
              == bx1 inner - bx0 inner) by (minmax_cases; lra).
  assert (H : py_max 0 (py_min (by1 outer) (by1 inner)
                        - py_max (by0 outer) (by0 inner))
              == by1 inner - by0 inner) by (minmax_cases; lra).
  rewrite W, H. reflexivity.
Qed.

Lemma box_area_within (inner outer : box) :
  proper_box inner -> box_within inner outer ->
  box_area inner <= box_area outer.
Proof.
  intros P Wi. rewrite <- (inter_area_within inner outer P Wi).
  rewrite inter_area_comm.
  apply inter_area_le_second. apply (box_within_proper inner outer P Wi).
Qed.

Lemma iou_value_within (inner outer : box) :
  proper_box inner -> box_within inner outer ->
  iou_value outer inner == 1.
Proof.
  intros P Wi.
  pose proof (proper_box_area inner P) as Pi.
  pose proof (box_area_within inner outer P Wi) as Le.
  pose proof (inter_area_within inner outer P Wi) as I.
  unfold iou_value; cbv zeta.
  assert (M : py_min (box_area outer) (box_area inner) == box_area inner)
    by (minmax_cases; lra).
  destruct (Qeq_bool (py_min (box_area outer) (box_area inner)) 0) eqn:Z0.
  - apply Qeq_bool_iff in Z0. lra.
  - rewrite I, M. field. lra.
Qed.

Lemma nested_boxes_score_one_aux (inner outer : box) :
  proper_box inner -> box_within inner outer ->
  iou_value outer inner == 1 /\ iou_value inner outer == 1.
Proof.
  intros P Wi. split.
  - apply iou_value_within; assumption.
  - rewrite iou_value_comm. apply iou_value_within; assumption.
Qed.

(** X5: when a box of positive width and height lies within another box,
    whatever their sizes, [calculate_intersection] scores the inner box
    against the outer one as 1, and [calculate_iou] scores the pair as 1 in
    both orders. *)
Theorem nested_boxes_score_one (inner outer : box) :
  proper_box inner -> box_within inner outer ->
  (exists s, calculate_intersection outer inner = Ok s /\ s == 1) /\
  (exists s, calculate_iou outer inner = Ok s /\ s == 1) /\
  (exists s, calculate_iou inner outer = Ok s /\ s == 1).
Proof.
  intros P Wi.
  pose proof (proper_box_area inner P) as Pi.
  split; [|split].
  - exists (containment_value outer inner).
    split; [apply calculate_intersection_Ok|].
    unfold containment_value.
    destruct (Qeq_bool (box_area inner) 0) eqn:Z0.
    + apply Qeq_bool_iff in Z0. lra.
    + rewrite (inter_area_within inner outer P Wi). field. lra.
  - exists (iou_value outer inner). split; [apply calculate_iou_Ok|].
    apply iou_value_within; assumption.
  - exists (iou_value inner outer). split; [apply calculate_iou_Ok|].
    rewrite iou_value_comm. apply iou_value_within; assumption.
Qed.

Lemma nested_boxes_score_one_witness :
  exists s, calculate_iou big_square small_square = Ok s /\ s == 1.
Proof.
  apply (nested_boxes_score_one small_square big_square).
  - split; reflexivity.
  - unfold box_within. simpl. repeat split; discriminate.
Defined.

(* ===================================================================== *)
(** ** The steps of [intelligent_merge] *)
(* ===================================================================== *)

Lemma is_isolated_true (hw_bbox : box) (final_blocks : list block) :
  is_isolated hw_bbox final_blocks = Ok true ->
  Forall (fun fb => score_within hw_bbox (bbox fb)) final_blocks.
Proof.
  induction final_blocks as [|fb rest IH]; simpl; [constructor|].
  rewrite calculate_iou_Ok. simpl.
  destruct (Qltb (1 # 5) (iou_value hw_bbox (bbox fb))) eqn:L;
    [discriminate|].
  intros H. constructor; [|apply IH; exact H].
  exists (iou_value hw_bbox (bbox fb)).
  split; [apply calculate_iou_Ok | apply Qltb_ge; exact L].
Qed.

(** The handwriting loop: what it appends, and against which blocks each
    appended block was tested. *)
Lemma isolate_handwriting_kept (hw_blocks : list detection) :
  forall final_blocks, exists kept,
    isolate_handwriting hw_blocks final_blocks
    = Ok (final_blocks ++ map handwriting_block kept) /\
    sublist kept hw_blocks /\
    (forall before hw after,
       kept = before ++ hw :: after ->
       Forall (fun fb => score_within (d_bbox hw) (bbox fb))
         (final_blocks ++ map handwriting_block before)).
Proof.
  induction hw_blocks as [|h rest IH]; intros fin; simpl.
  - exists []. rewrite app_nil_r. split; [reflexivity|].
    split; [constructor|]. intros [|? ?] ? ? E; discriminate.
  - unfold isolate_one.
    destruct (is_isolated (d_bbox h) fin) as [[|]|e] eqn:I; simpl.
    + destruct (IH (fin ++ [handwriting_block h])) as (kept & E & S & F).
      exists (h :: kept). split; [|split].
      * rewrite E, <- app_assoc. reflexivity.
      * apply sublist_skip. exact S.
      * intros before hw after Hsplit.
        destruct before as [|b0 before']; simpl in Hsplit.
        -- injection Hsplit as -> ->. simpl. rewrite app_nil_r.
           apply is_isolated_true. exact I.
        -- injection Hsplit as -> ->.
           specialize (F before' hw after eq_refl).
           rewrite <- app_assoc in F. exact F.
    + destruct (IH fin) as (kept & E & S & F).
      exists kept. split; [exact E|]. split; [|exact F].
      apply sublist_cons. exact S.
    + destruct (is_isolated_Ok (d_bbox h) fin) as [b Eb]. congruence.
Qed.

(** X6: the handwriting loop only appends to [final_blocks]; what it
    appends are handwriting blocks of detections in detection order; and
    every appended block scored at most 0.2, by [calculate_iou], against
    every block in front of it in the list: the blocks built before the
    loop and the handwriting blocks appended earlier. *)
Theorem emitted_handwriting_is_isolated (hw_blocks : list detection)
    (final_blocks : list block) :
  exists kept,
    isolate_handwriting hw_blocks final_blocks
    = Ok (final_blocks ++ map handwriting_block kept) /\
    sublist kept hw_blocks /\
    (forall before hw after,
       kept = before ++ hw :: after ->
       Forall (fun fb => score_within (d_bbox hw) (bbox fb))
         (final_blocks ++ map handwriting_block before)).
Proof. apply isolate_handwriting_kept. Qed.

(** X7: a handwriting detection is dropped whenever it lies within a final
    block or a final block lies within it, whatever the two sizes: the
    score of such a pair is 1. *)
Theorem nested_handwriting_dropped (final_blocks : list block)
    (hw : detection) (fb : block) :
  In fb final_blocks ->
  (proper_box (d_bbox hw) /\ box_within (d_bbox hw) (bbox fb)) \/
  (proper_box (bbox fb) /\ box_within (bbox fb) (d_bbox hw)) ->
  isolate_one final_blocks hw = Ok final_blocks.
Proof.
  intros Hin N. unfold isolate_one.
  rewrite (is_isolated_overlap hw final_blocks); [reflexivity|].
  exists fb. split; [exact Hin|].
  destruct N as [[P Wi] | [P Wi]].
  - destruct (nested_boxes_score_one_aux (d_bbox hw) (bbox fb) P Wi)
      as (_ & E).
    exists (iou_value (d_bbox hw) (bbox fb)).
    split; [apply calculate_iou_Ok | rewrite E; reflexivity].
  - destruct (nested_boxes_score_one_aux (bbox fb) (d_bbox hw) P Wi)
      as (E & _).
    exists (iou_value (d_bbox hw) (bbox fb)).
    split; [apply calculate_iou_Ok | rewrite E; reflexivity].
Qed.

Lemma nested_handwriting_dropped_witness :
  isolate_one [paragraph] scribble_inside = Ok [paragraph].
Proof.
  apply (nested_handwriting_dropped [paragraph] scribble_inside paragraph).
  - left. reflexivity.
  - left. split; [split; reflexivity|].
    unfold box_within. simpl. repeat split; discriminate.
Defined.

(* --------------------------------------------------------------------- *)
(** *** Where each base block goes *)

Lemma scan_base_consumed (t_bbox : box) (base_blocks : list base_block) :
  forall idx t_content consumed calls r,
    scan_base t_bbox idx base_blocks t_content consumed calls = Ok r ->
    forall j,
      j ∈ snd (fst r) <->
      j ∈ consumed \/
      ((idx <= j)%nat /\
       exists p, nth_error base_blocks (j - idx) = Some p /\
                 contained t_bbox p = true).
Proof.
  induction base_blocks as [|p rest IH]; intros idx tc cons calls r; simpl.
  - intros [= <-] j. simpl. split; [auto|].
    intros [H | (_ & q & Hq & _)]; [exact H|].
    destruct (j - idx)%nat; discriminate.
  - rewrite calculate_intersection_Ok. simpl.
    fold (contained t_bbox p).
    destruct (contained t_bbox p) eqn:C; intros H j;
      rewrite (IH _ _ _ _ _ H j).
    + split.
      * intros [Hj | (Hle & q & Hq & Cq)].
        -- apply elem_of_union in Hj. destruct Hj as [Hj | Hj]; [|auto].
           apply elem_of_singleton in Hj. subst j. right.
           split; [lia|]. exists p. rewrite Nat.sub_diag. auto.
        -- right. split; [lia|]. exists q.
           replace (j - idx)%nat with (S (j - S idx)) by lia. auto.
      * intros [Hj | (Hle & q & Hq & Cq)].
        -- left. apply elem_of_union. auto.
        -- destruct (decide (j = idx)) as [-> | Hne].
           ++ left. apply elem_of_union. left. apply elem_of_singleton.
              reflexivity.
           ++ right. split; [lia|]. exists q.
              replace (j - idx)%nat with (S (j - S idx)) in Hq by lia. auto.
    + split.
      * intros [Hj | (Hle & q & Hq & Cq)]; [auto|].
        right. split; [lia|]. exists q.
        replace (j - idx)%nat with (S (j - S idx)) by lia. auto.
      * intros [Hj | (Hle & q & Hq & Cq)]; [auto|].
        destruct (decide (j = idx)) as [-> | Hne].
        -- rewrite Nat.sub_diag in Hq. simpl in Hq. injection Hq as <-.
           congruence.
        -- right. split; [lia|]. exists q.
           replace (j - idx)%nat with (S (j - S idx)) in Hq by lia. auto.
Qed.

Lemma process_tables_consumed (base_blocks : list base_block)
    (table_blocks : list detection) :
  forall final_blocks consumed calls r,
    process_tables base_blocks table_blocks final_blocks consumed calls
    = Ok r ->
    forall j,
      j ∈ snd (fst r) <->
      j ∈ consumed \/
      exists p, nth_error base_blocks j = Some p /\
                inside_some_table table_blocks p = true.
Proof.
  induction table_blocks as [|t rest IH]; intros fin cons calls r; simpl.
  - intros [= <-] j. simpl. split; [auto|].
    intros [H | (p & _ & Hp)]; [exact H | discriminate].
  - destruct (scan_base (d_bbox t) 0 base_blocks [] cons calls)
      as [[[tc c1] k1]|e] eqn:S1; simpl; [|discriminate].
    intros H j. rewrite (IH _ _ _ _ H j).
    rewrite (scan_base_consumed _ _ _ _ _ _ _ S1 j). simpl.
    rewrite Nat.sub_0_r. split.
    + intros [[Hj | (_ & p & Hp & Cp)] | (p & Hp & Ip)]; [auto | |].
      * right. exists p. split; [exact Hp|]. rewrite Cp. reflexivity.
      * right. exists p. split; [exact Hp|]. rewrite Ip.
        apply orb_true_r.
    + intros [Hj | (p & Hp & Ip)]; [auto|].
      apply orb_prop in Ip. destruct Ip as [Cp | Ip].
      * left. right. split; [lia|]. exists p. auto.
      * right. exists p. auto.
Qed.

Lemma process_remaining_kept (keep_out : base_block -> bool)
    (base_blocks : list base_block) :
  forall idx consumed final_blocks,
    (forall i p, nth_error base_blocks i = Some p ->
                 ((idx + i)%nat ∈ consumed <-> keep_out p = true)) ->
    process_remaining idx base_blocks consumed final_blocks
    = final_blocks
        ++ map remaining_block
             (List.filter (fun p => negb (keep_out p)) base_blocks).
Proof.
  induction base_blocks as [|p rest IH]; intros idx cons fin H; simpl.
  - rewrite app_nil_r. reflexivity.
  - assert (Hrest : forall i q, nth_error rest i = Some q ->
                      ((S idx + i)%nat ∈ cons <-> keep_out q = true)).
    { intros i q Hq. specialize (H (S i) q Hq).
      replace (S idx + i)%nat with (idx + S i)%nat by lia. exact H. }
    specialize (H 0%nat p eq_refl). rewrite Nat.add_0_r in H.
    destruct (keep_out p) eqn:K; simpl.
    + rewrite bool_decide_eq_true_2 by (apply H; reflexivity).
      apply IH. exact Hrest.
    + rewrite bool_decide_eq_false_2.
      * rewrite (IH (S idx) cons _ Hrest), <- app_assoc. reflexivity.
      * intros Hin. apply H in Hin. discriminate.
Qed.

(** X8: the list [intelligent_merge] hands to the consecutive merge is, in
    this order: one table block for each table detection; one block for
    each base block that no table detection holds (score above 0.5), in
    page order; handwriting blocks for some of the handwriting detections,
    in detection order.  A base block held by a table detection gives no
    block of its own, and no other base block is dropped. *)
Theorem collect_blocks_partition (base_blocks : list base_block)
    (table_blocks hw_blocks : list detection) :
  exists kept calls,
    collect_blocks base_blocks table_blocks hw_blocks
    = Ok (map (fun t => table_block (d_bbox t)
                          (table_text base_blocks (d_bbox t))) table_blocks
            ++ map remaining_block
                 (List.filter
                    (fun p => negb (inside_some_table table_blocks p))
                    base_blocks)
            ++ map handwriting_block kept,
          calls) /\
    sublist kept hw_blocks.
Proof.
  unfold collect_blocks.
  destruct (process_tables_Ok base_blocks table_blocks [] ∅ []) as [c E].
  pose proof (process_tables_consumed _ _ _ _ _ _ E) as Hc. simpl in Hc.
  rewrite E. simpl.
  rewrite (process_remaining_kept (inside_some_table table_blocks)).
  - destruct (isolate_handwriting_kept hw_blocks
                (map (fun t => table_block (d_bbox t)
                                 (table_text base_blocks (d_bbox t)))
                     table_blocks
                 ++ map remaining_block
                      (List.filter
                         (fun p => negb (inside_some_table table_blocks p))
                         base_blocks))) as (kept & Ek & Sk & _).
    rewrite Ek. simpl. exists kept. eexists.
    split; [rewrite <- app_assoc; reflexivity | exact Sk].
  - intros i p Hp. simpl. rewrite (Hc i). split.
    + intros [Hin | (q & Hq & Iq)]; [set_solver|].
      rewrite Hp in Hq. injection Hq as <-. exact Iq.
    + intros I. right. exists p. auto.
Qed.

(* ===================================================================== *)
(** ** The worker registry and the two front ends *)
(* ===================================================================== *)

Lemma start_worker_registry (path_exists : string -> bool)
    (popen : string -> result process) (ws : workers) (name : string) :
  match start_worker path_exists popen ws name with
  | (Ok p, ws') => ws' = <[ name := p ]> ws
  | (Raise _, ws') => ws' = ws
  end.
Proof.
  unfold start_worker.
  destruct (worker_paths !! name) as [script|]; [|reflexivity].
  destruct (String.eqb script EmptyString || negb (path_exists script));
    [reflexivity|].
  destruct (popen script); reflexivity.
Qed.

Lemma get_worker_registry (path_exists : string -> bool)
    (popen : string -> result process) (ws : workers) (name : string) :
  match get_worker path_exists popen ws name with
  | (Ok p, ws') =>
      ws' !! name = Some p /\
      (forall other, other <> name -> ws' !! other = ws !! other) /\
      (forall q, ws !! name = Some q -> is_running q = true ->
                 p = q /\ ws' = ws)
  | (Raise _, ws') => ws' = ws
  end.
Proof.
  unfold get_worker.
  pose proof (start_worker_registry path_exists popen ws name) as S.
  destruct (ws !! name) as [q|] eqn:L.
  - destruct (is_running q) eqn:R.
    + split; [exact L|]. split; [reflexivity|].
      intros q' [= <-] _. split; reflexivity.
    + destruct (start_worker path_exists popen ws name) as [[p|e] ws'];
        [|exact S].
      subst ws'. split; [apply lookup_insert_eq|]. split.
      * intros other Hne. apply lookup_insert_ne. congruence.
      * intros q' [= <-] R'. congruence.
  - destruct (start_worker path_exists popen ws name) as [[p|e] ws'];
      [|exact S].
    subst ws'. split; [apply lookup_insert_eq|]. split.
    + intros other Hne. apply lookup_insert_ne. congruence.
    + intros q' [=].
Qed.

(** X9: what [query] does to the registry.  The entries of the other
    capabilities are never touched.  When [query] raises, the registry is
    as before.  When it returns, and when it waits for ever on a silent
    worker, the registry holds a process for the capability, and if a
    running process was registered it is kept: no new process is started
    and the registry is as before. *)
Theorem query_registry_frame (path_exists : string -> bool)
    (popen : string -> result process) (json_dumps : pyval -> string)
    (json_loads : string -> option pyval)
    (ws : gmap string process) (name : string) (data : payload) :
  let r := query path_exists popen json_dumps json_loads ws name data in
  (forall other, other <> name -> snd r !! other = ws !! other) /\
  (forall e, fst r = Some (Raise e) -> snd r = ws) /\
  (forall v, fst r = Some (Ok v) -> exists p, snd r !! name = Some p) /\
  (fst r = None -> exists p, snd r !! name = Some p) /\
  (forall q, ws !! name = Some q -> is_running q = true -> snd r = ws).
Proof.
  cbv zeta. unfold query.
  pose proof (get_worker_registry path_exists popen ws name) as G.
  destruct (get_worker path_exists popen ws name) as [[p|e] ws'].
  - destruct G as (Gn & Go & Gr).
    destruct (exchange json_dumps json_loads p data) as [[v|e]|]; simpl;
      (split; [exact Go|]; split; [discriminate|];
       split; [intros; exists p; exact Gn|];
       split; [intros; exists p; exact Gn|];
       intros q Hq Rq; exact (proj2 (Gr q Hq Rq))).
  - subst ws'. simpl. split; [reflexivity|]. split; [reflexivity|].
    split; [discriminate|]. split; [discriminate|]. reflexivity.
Qed.

Lemma query_registry_frame_witness :
  snd (query no_scripts popen_refused dumps_stub loads_nothing
         (<[ "ocr" := garbled_worker ]> ∅) "ocr"
         (PathPayload "/tmp/crop.jpg"))
  = <[ "ocr" := garbled_worker ]> ∅.
Proof.
  apply (proj2 (proj2 (proj2 (proj2
           (query_registry_frame no_scripts popen_refused dumps_stub
              loads_nothing (<[ "ocr" := garbled_worker ]> ∅) "ocr"
              (PathPayload "/tmp/crop.jpg"))))) garbled_worker).
  - apply lookup_insert_eq.
  - reflexivity.
Defined.

(** X10: [WorkerManager.query] and [PipelineOrchestrator.query_worker] do
    the same on a running, registered worker: they return the same value,
    or neither returns.  [query_worker] returns [None] for a process that
    was never started, where [query] would try to start one, and [None]
    when the exchange fails.  It does not return exactly when the worker
    takes the message, stays alive and writes no line: its [readline] has
    no deadline either. *)
Theorem query_worker_agrees_with_query (path_exists : string -> bool)
    (popen : string -> result process) (json_dumps : pyval -> string)
    (json_loads : string -> option pyval)
    (ws : gmap string process) (name : string) (data : payload)
    (p : process) :
  (ws !! name = Some p -> is_running p = true ->
   query path_exists popen json_dumps json_loads ws name data
   = (option_map Ok (query_worker json_dumps json_loads (Some p) data),
      ws)) /\
  query_worker json_dumps json_loads None data = Some PyNone /\
  (exchange_fails json_dumps json_loads p data ->
   query_worker json_dumps json_loads (Some p) data = Some PyNone) /\
  (query_worker json_dumps json_loads (Some p) data = None <->
   worker_silent json_dumps p data).
Proof.
  split; [|split; [|split]].
  - intros L R. unfold query, get_worker, query_worker. rewrite L, R.
    destruct (exchange json_dumps json_loads p data) as [[v|e]|];
      reflexivity.
  - reflexivity.
  - intros F. unfold query_worker.
    destruct (exchange_fails_raises json_dumps json_loads p data F)
      as [E | (e & E)]; rewrite E; reflexivity.
  - unfold query_worker.
    rewrite <- (exchange_silent json_dumps json_loads p data).
    destruct (exchange json_dumps json_loads p data) as [[v|e]|];
      split; (discriminate || reflexivity).
Qed.

Lemma query_worker_agrees_with_query_witness :
  query no_scripts popen_refused dumps_stub loads_nothing
    (<[ "ocr" := garbled_worker ]> ∅) "ocr" (PathPayload "/tmp/crop.jpg")
  = (option_map Ok
       (query_worker dumps_stub loads_nothing (Some garbled_worker)
          (PathPayload "/tmp/crop.jpg")),
     <[ "ocr" := garbled_worker ]> ∅) /\
  query_worker dumps_stub loads_nothing (Some garbled_worker)
    (PathPayload "/tmp/crop.jpg") = Some PyNone /\
  query_worker dumps_stub loads_nothing (Some hung_worker)
    (PathPayload "/tmp/crop.jpg") = None.
Proof.
  destruct (query_worker_agrees_with_query no_scripts popen_refused
              dumps_stub loads_nothing (<[ "ocr" := garbled_worker ]> ∅)
              "ocr" (PathPayload "/tmp/crop.jpg") garbled_worker)
    as (A & _ & F & _).
  destruct (query_worker_agrees_with_query no_scripts popen_refused
              dumps_stub loads_nothing (<[ "ocr" := hung_worker ]> ∅)
              "ocr" (PathPayload "/tmp/crop.jpg") hung_worker)
    as (_ & _ & _ & S).
  split; [|split].
  - apply A; [apply lookup_insert_eq | reflexivity].
  - apply F. right; right; right; right.
    exists "not json". split; reflexivity.
  - apply S. split; [exists tt; reflexivity|].
    split; [exists tt; reflexivity | reflexivity].
Defined.

(* ===================================================================== *)
(** ** The orchestrator *)
(* ===================================================================== *)

Section OrchestratorFacts.

Variable popen : string -> result process.
Variable json_dumps : pyval -> string.
Variable json_loads : string -> option pyval.
Variable py_str : pyval -> string.
Variable splitext_lower : string -> string.
Variable basename : string -> string.
Variable abspath : string -> string.
Variable extract_audio_from_video : string -> option string.
Variable crop_save : box -> string -> result unit.
Variable temp_path : nat -> nat -> string.
Variable annotated_image_exists : nat -> bool.
Variable layout_process_file : string -> result (list (page block)).
Variable make_output_dir : string -> result unit.
Variable save_json : string -> list rag_entry -> result unit.

Local Abbreviation run_file :=
  (orchestrator_process_file popen json_dumps json_loads py_str
     splitext_lower basename abspath extract_audio_from_video crop_save
     temp_path annotated_image_exists layout_process_file make_output_dir
     save_json).

Lemma start_workers_four (self : orchestrator) (procs : list process) :
  start_workers popen = (Ok self, procs) ->
  map Some procs = [vlm_process self; ocr_process self;
                    table_process self; audio_process self].
Proof.
  intros E. unfold start_workers in E.
  repeat (match type of E with
          | context [match popen ?s with _ => _ end] =>
              destruct (popen s)
          end; try discriminate).
  injection E as <- <-. reflexivity.
Qed.

(** X11: teardown in [PipelineOrchestrator.process_file].  When the four
    workers were started, [stop_workers] is run on all four whether the
    pipeline returns or raises, and none of them is running afterwards;
    when the pipeline waits for ever on a silent worker the [finally] is
    not reached and nothing is stopped.  When starting a worker raises,
    the exception reaches the caller and [stop_workers] is not run: the
    workers started before it are left as they are. *)
Theorem orchestrator_teardown (file_path : string) :
  (forall self procs,
     start_workers popen = (Ok self, procs) ->
     started (run_file file_path) = procs /\
     length procs = 4%nat /\
     map Some procs = [vlm_process self; ocr_process self;
                       table_process self; audio_process self] /\
     (forall r, returned (run_file file_path) = Some r ->
        length (teardown (run_file file_path)) = 4%nat) /\
     (returned (run_file file_path) = None ->
        teardown (run_file file_path) = []) /\
     Forall (fun o => o <> StillRunning) (teardown (run_file file_path))) /\
  (forall e procs,
     start_workers popen = (Raise e, procs) ->
     returned (run_file file_path) = Some (Raise e) /\
     started (run_file file_path) = procs /\
     (length procs < 4)%nat /\
     teardown (run_file file_path) = []).
Proof.
  unfold orchestrator_process_file. split.
  - intros self procs E. rewrite E. cbv zeta. cbn [returned started teardown].
    pose proof (start_workers_four self procs E) as S2.
    assert (S1 : length procs = 4%nat).
    { apply (f_equal (@length (option process))) in S2.
      rewrite length_map in S2. exact S2. }
    split; [reflexivity|]. split; [exact S1|]. split; [exact S2|].
    destruct (pipeline_body json_dumps json_loads py_str splitext_lower
                basename abspath extract_audio_from_video crop_save
                temp_path annotated_image_exists layout_process_file
                make_output_dir save_json self file_path) as [r|].
    + split; [|split; [discriminate | apply stop_workers_none_running]].
      intros _ _. rewrite <- S2.
      destruct procs as [|a [|b [|c [|d [|? ?]]]]]; try discriminate.
      reflexivity.
    + split; [discriminate|]. split; [reflexivity | constructor].
  - intros e procs E. rewrite E. cbn [returned started teardown].
    split; [reflexivity|]. split; [reflexivity|]. split; [|reflexivity].
    unfold start_workers in E.
    repeat (match type of E with
            | context [match popen ?s with _ => _ end] =>
                destruct (popen s)
            end; try discriminate);
      injection E as <- <-; simpl; lia.
Qed.

Local Abbreviation media :=
  (process_media json_dumps json_loads splitext_lower basename abspath
     extract_audio_from_video).
Local Abbreviation ask := (query_worker json_dumps json_loads).
Local Abbreviation target_of :=
  (media_target splitext_lower extract_audio_from_video).
Local Abbreviation pages_of :=
  (post_process_pages json_dumps json_loads py_str abspath crop_save
     temp_path annotated_image_exists).

Lemma media_target_path_only (st st' : GraphState) :
  file_path st = file_path st' -> target_of st = target_of st'.
Proof. intros E. unfold media_target. rewrite E. reflexivity. Qed.

Lemma str_contains_truthy (needle s : string) :
  needle <> EmptyString -> str_contains needle s = true ->
  truthy (PyStr s) = true.
Proof.
  intros NE C. destruct s; [|reflexivity].
  simpl in C. destruct needle; [contradiction|]. discriminate.
Qed.

(** X12: [PipelineOrchestrator.process_media], by what the transcription
    worker answered.  No answer, or a dictionary with an ["error"] key:
    the result is the empty list.  A non-empty dictionary without that
    key: one transcription entry.  A string that contains ["error"]: the
    failure message calls [result.get] on a string and [AttributeError]
    leaves [process_media]; the workflow's media node, given the same
    answer, ends with status ["failed"] and the string as its error.  And
    when the worker stays silent [process_media] does not return. *)
Theorem orchestrator_media_outcome (self : orchestrator)
    (path target : string) (st : GraphState) :
  file_path st = path ->
  target_of st = Some target ->
  (ask (audio_process self) (PathPayload (abspath target)) = None ->
   media self path = None) /\
  forall answer,
    ask (audio_process self) (PathPayload (abspath target)) = Some answer ->
    ((answer = PyNone \/
      exists entries, answer = PyDict entries /\
                      dict_lookup "error" entries <> None) ->
     media self path = Some (Ok [])) /\
    ((exists entries, answer = PyDict entries /\ entries <> [] /\
                      dict_lookup "error" entries = None) ->
     exists language duration segments,
       media self path
       = Some (Ok [AudioTranscription (basename path)
                     language duration segments])) /\
    (forall s, answer = PyStr s -> str_contains "error" s = true ->
       media self path = Some (Raise AttributeError) /\
       transcription_outcome py_str basename st answer
       = Ok (set_failed st s)).
Proof.
  intros Ep Ht.
  assert (T : target_of (mkGraphState EmptyString path EmptyString
                           None [] EmptyString None) = Some target).
  { rewrite <- Ht. apply media_target_path_only. symmetry. exact Ep. }
  unfold process_media. rewrite T.
  split; [intros A; rewrite A; reflexivity|].
  intros answer A. rewrite A.
  destruct answer as [| b | q | s | items | entries].
  - split; [reflexivity|]. split.
    + intros (en & [=] & _).
    + intros s [=].
  - split; [intros [[=] | (en & [=] & _)]|]. split.
    + intros (en & [=] & _).
    + intros s [=].
  - split; [intros [[=] | (en & [=] & _)]|]. split.
    + intros (en & [=] & _).
    + intros s [=].
  - split; [intros [[=] | (en & [=] & _)]|]. split.
    + intros (en & [=] & _).
    + intros s' [= <-] C.
      pose proof (str_contains_truthy "error" s ltac:(discriminate) C) as Tr.
      unfold transcription_outcome. rewrite Tr. simpl. rewrite C. simpl.
      split; reflexivity.
  - split; [intros [[=] | (en & [=] & _)]|]. split.
    + intros (en & [=] & _).
    + intros s [=].
  - split; [|split].
    + intros [[=] | (en & [= <-] & He)].
      destruct entries as [|e0 rest]; [reflexivity|].
      simpl (negb _). cbv iota. unfold py_in.
      destruct (dict_lookup "error" (e0 :: rest)); [reflexivity|].
      contradiction He; reflexivity.
    + intros (en & [= <-] & Hne & He).
      destruct entries as [|e0 rest]; [contradiction Hne; reflexivity|].
      simpl (negb _). cbv iota. unfold py_in. rewrite He. simpl.
      eexists. eexists. eexists. reflexivity.
    + intros s [=].
Qed.

(** X13: pages whose annotated image is not on disk.  The orchestrator
    keeps every page of the layout result, in order; a page without image
    keeps all the blocks the layout engine gave it, unfiltered and
    unchanged.  The workflow's enrichment node keeps exactly the pages
    whose image is on disk. *)
Theorem pages_without_image (self : orchestrator)
    (pages : list (page block)) (stuck : bool) :
  map entry_page (fst (pages_of self pages stuck))
  = map (fun pg => Some (page_number pg)) pages /\
  (forall pg, In pg pages ->
     annotated_image_exists (page_number pg) = false ->
     In (EnrichedPage (Page (page_number pg) (map of_block (page_blocks pg))))
        (fst (pages_of self pages stuck))) /\
  (forall (W : Type) (query : W -> string -> payload -> result pyval * W)
          (w : W),
     map entry_page
       (fst (enrich_pages query py_str abspath crop_save temp_path
               annotated_image_exists pages w))
     = map (fun pg => Some (page_number pg))
         (List.filter (fun pg => annotated_image_exists (page_number pg))
            pages)).
Proof.
  split; [|split].
  - revert stuck. induction pages as [|pg rest IH]; intros stuck; simpl;
      [reflexivity|].
    destruct (if annotated_image_exists (page_number pg) then _ else _)
      as [blocks stuck1].
    specialize (IH stuck1).
    destruct (pages_of self rest stuck1) as [others stuck2].
    simpl in *. rewrite IH. reflexivity.
  - revert stuck. induction pages as [|pg0 rest IH]; intros stuck pg Hin Himg;
      [destruct Hin|].
    simpl. destruct Hin as [-> | Hin].
    + rewrite Himg.
      destruct (pages_of self rest stuck) as [others stuck2].
      left. reflexivity.
    + destruct (if annotated_image_exists (page_number pg0) then _ else _)
        as [blocks stuck1].
      specialize (IH stuck1 pg Hin Himg).
      destruct (pages_of self rest stuck1) as [others stuck2].
      right. exact IH.
  - intros W query. induction pages as [|pg rest IH]; intros w; simpl;
      [reflexivity|].
    destruct (annotated_image_exists (page_number pg)).
    + destruct (run_workers_on_blocks query py_str abspath crop_save
                  temp_path (page_number pg) 0
                  (cleaned_blocks (page_blocks pg)) w) as [es w1].
      specialize (IH w1).
      destruct (enrich_pages query py_str abspath crop_save temp_path
                  annotated_image_exists rest w1) as [ps w2].
      simpl in *. rewrite IH. reflexivity.
    + apply IH.
Qed.

End OrchestratorFacts.

Lemma orchestrator_teardown_witness :
  Forall (fun o => o <> StillRunning)
    (teardown
       (orchestrator_process_file popen_garbled dumps_stub loads_nothing
          str_decode_failed ext_mp3 same_path same_path no_ffmpeg crop_ok
          one_temp_path images_on_disk no_layout dir_ok save_ok
          "lecture.mp3")).
Proof.
  destruct (orchestrator_teardown popen_garbled dumps_stub loads_nothing
              str_decode_failed ext_mp3 same_path same_path no_ffmpeg
              crop_ok one_temp_path images_on_disk no_layout dir_ok save_ok
              "lecture.mp3") as [H _].
  apply (H (Orchestrator (Some garbled_worker) (Some garbled_worker)
              (Some garbled_worker) (Some garbled_worker))
           [garbled_worker; garbled_worker; garbled_worker; garbled_worker]).
  reflexivity.
Defined.

Lemma orchestrator_media_outcome_witness :
  process_media dumps_stub loads_error_text ext_mp3 same_path same_path
    no_ffmpeg
    (Orchestrator None None None (Some talkative_worker)) "lecture.mp3"
  = Some (Raise AttributeError) /\
  process_media dumps_stub loads_error_text ext_mp3 same_path same_path
    no_ffmpeg
    (Orchestrator None None None (Some hung_worker)) "lecture.mp3"
  = None.
Proof.
  split.
  - destruct (orchestrator_media_outcome dumps_stub loads_error_text
                str_decode_failed ext_mp3 same_path same_path no_ffmpeg
                (Orchestrator None None None (Some talkative_worker))
                "lecture.mp3" "lecture.mp3" lecture eq_refl eq_refl)
      as (_ & H).
    destruct (H error_text eq_refl) as (_ & _ & K).
    apply (K "error: model not loaded"); reflexivity.
  - destruct (orchestrator_media_outcome dumps_stub loads_error_text
                str_decode_failed ext_mp3 same_path same_path no_ffmpeg
                (Orchestrator None None None (Some hung_worker))
                "lecture.mp3" "lecture.mp3" lecture eq_refl eq_refl)
      as (H & _).
    apply H. reflexivity.
Defined.

(* ===================================================================== *)
(** ** The loop of a worker script *)
(* ===================================================================== *)

(** X14: the request loop of the worker scripts.  Once a line that reads
    ["EXIT"] after stripping has been met, nothing that follows is
    processed; before that, one line is printed for each request that is
    not blank after stripping and none for a blank one, so a blank request
    is never answered. *)
Theorem worker_loop_protocol (handle : string -> string)
    (before after : list string) (stop : string) :
  exit_line stop = true ->
  worker_loop handle (before ++ stop :: after) = worker_loop handle before /\
  (Forall (fun l => exit_line l = false) before ->
   worker_loop handle before
   = map (fun l => handle (strip l))
       (List.filter (fun l => negb (blank_line l)) before)).
Proof.
  intros Hs. unfold exit_line, blank_line in *. split.
  - induction before as [|l rest IH]; simpl.
    + rewrite Hs. destruct (String.eqb (strip stop) EmptyString) eqn:B;
        [|reflexivity].
      apply String.eqb_eq in B. rewrite B in Hs. discriminate.
    + destruct (String.eqb (strip l) EmptyString); [exact IH|].
      destruct (String.eqb (strip l) "EXIT"); [reflexivity|].
      rewrite IH. reflexivity.
  - induction 1 as [|l rest Hl _ IH]; simpl; [reflexivity|].
    destruct (String.eqb (strip l) EmptyString); simpl; [exact IH|].
    rewrite Hl, IH. reflexivity.
Qed.

Lemma worker_loop_protocol_witness :
  worker_loop (fun p => String.append "done " p)
    [ String.append "a.jpg" nl; nl; String.append " EXIT " nl;
      String.append "b.jpg" nl ]
  = [ "done a.jpg" ].
Proof.
  destruct (worker_loop_protocol (fun p => String.append "done " p)
              [ String.append "a.jpg" nl; nl ]
              [ String.append "b.jpg" nl ]
              (String.append " EXIT " nl) eq_refl) as [E1 E2].
  simpl app in E1. rewrite E1, E2; [reflexivity|].
  repeat constructor.
Defined.

(* ===================================================================== *)
(** ** Runs of the workflow graph *)
(* ===================================================================== *)

Section WorkflowFacts.

Context {W : Type}.
Variable query : W -> string -> payload -> result pyval * W.
Variable py_str : pyval -> string.
Variable splitext_lower : string -> string.
Variable basename : string -> string.
Variable abspath : string -> string.
Variable extract_audio_from_video : string -> option string.
Variable crop_save : box -> string -> result unit.
Variable temp_path : nat -> nat -> string.
Variable annotated_image_exists : nat -> bool.
Variable process_file : string -> result (list (page block)).
Variable get_video_id : string -> option string.
Variable fetch_segments : string -> result pyval.
Variable exn_str : exn -> string.

Local Abbreviation workflow :=
  (app_workflow query py_str splitext_lower basename abspath
     extract_audio_from_video crop_save temp_path annotated_image_exists
     process_file get_video_id fetch_segments exn_str).
Local Abbreviation router := (node_router splitext_lower).
Local Abbreviation youtube :=
  (node_process_youtube get_video_id fetch_segments exn_str).
Local Abbreviation media_node :=
  (node_process_media query py_str splitext_lower basename abspath
     extract_audio_from_video).
Local Abbreviation analyze := (node_analyze_layout process_file exn_str).
Local Abbreviation enrich_node :=
  (node_enrich_content query py_str abspath crop_save temp_path
     annotated_image_exists).

Lemma node_router_cases (st : GraphState) :
  router st = set_routed st "youtube" \/
  router st = set_routed st "media" \/
  router st = set_routed st "document".
Proof.
  unfold node_router. repeat case_match; auto.
Qed.




(** X16: a document whose layout analysis raises.  The layout node sets
    status ["failed"] and the error, but its edge leads to the enrichment
    node all the same.  When the state has no layout results, as in a
    fresh run, the enrichment node raises [KeyError] and the run raises
    with it.  When it has, they are enriched and the run ends with status
    ["completed"] while the error field still holds the layout error. *)
Theorem layout_failure_reaches_enrichment (st : GraphState) (w : W)
    (e : exn) :
  file_type (router st) = "document" ->
  process_file (file_path st) = Raise e ->
  (layout_results st = None ->
   workflow st w = Some (Raise KeyError, w)) /\
  (forall old, layout_results st = Some old ->
     exists final w',
       workflow st w
       = Some (Ok (final, [Router; AnalyzeLayout; EnrichContent]), w') /\
       status final = "completed" /\
       error final = Some (exn_str e) /\
       rag_ready_data final
       = fst (enrich_pages query py_str abspath crop_save temp_path
                annotated_image_exists old w)).
Proof.
  intros Hd Hp.
  assert (R : router st = set_routed st "document").
  { destruct (node_router_cases st) as [E | [E | E]]; rewrite E in Hd |- *;
      simpl in Hd; congruence. }
  unfold app_workflow. simpl. unfold route_next_step. rewrite R. simpl.
  unfold node_enrich_content, node_analyze_layout. simpl. rewrite Hp. simpl.
  split.
  - intros L. rewrite L. reflexivity.
  - intros old L. rewrite L.
    destruct (enrich_pages query py_str abspath crop_save temp_path
                annotated_image_exists old w) as [final_pages w1].
    eexists. eexists. split; [reflexivity|]. simpl. auto.
Qed.

(** X17: a path that contains ["youtube.com"] or ["youtu.be"] takes the
    YouTube path whatever its extension.  The run then asks no worker,
    never raises, and ends after the YouTube node: with the error
    ["Invalid YouTube URL"] when no video id is found, with the transcript
    as its data when the fetch succeeds, and with status ["failed"] when
    the fetch raises. *)
Theorem youtube_run (st : GraphState) (w : W) :
  str_contains "youtube.com" (file_path st) = true \/
  str_contains "youtu.be" (file_path st) = true ->
  exists final,
    workflow st w = Some (Ok (final, [Router; ProcessYoutube]), w) /\
    (get_video_id (file_path st) = None ->
     status final = "failed" /\ error final = Some "Invalid YouTube URL") /\
    (forall video_id segments,
       get_video_id (file_path st) = Some video_id ->
       video_id <> EmptyString ->
       fetch_segments video_id = Ok segments ->
       status final = "completed" /\
       rag_ready_data final
       = [YoutubeTranscript (String.append "YouTube_" video_id)
            (file_path st) video_id segments]) /\
    (forall video_id e,
       get_video_id (file_path st) = Some video_id ->
       video_id <> EmptyString ->
       fetch_segments video_id = Raise e ->
       status final = "failed" /\
       error final
       = Some (String.append "Transcript unavailable: " (exn_str e))).
Proof.
  intros Hy.
  assert (R : router st = set_routed st "youtube").
  { unfold node_router.
    destruct Hy as [Hy | Hy]; rewrite Hy; [reflexivity|].
    rewrite orb_true_r. reflexivity. }
  unfold app_workflow. simpl. unfold route_next_step. rewrite R. simpl.
  eexists. split; [reflexivity|].
  unfold node_process_youtube. simpl.
  split; [|split].
  - intros G. rewrite G. simpl. auto.
  - intros video_id segments G NE F. rewrite G.
    destruct (String.eqb video_id EmptyString) eqn:Z.
    + apply String.eqb_eq in Z. contradiction.
    + rewrite F. simpl. auto.
  - intros video_id e G NE F. rewrite G.
    destruct (String.eqb video_id EmptyString) eqn:Z.
    + apply String.eqb_eq in Z. contradiction.
    + rewrite F. simpl. auto.
Qed.

End WorkflowFacts.

(* ===================================================================== *)
(** ** What the enrichment writes *)
(* ===================================================================== *)

Section EnrichmentFacts.

Context {W : Type}.
Variable query : W -> string -> payload -> result pyval * W.
Variable py_str : pyval -> string.
Variable abspath : string -> string.
Variable crop_save : box -> string -> result unit.
Variable temp_path : nat -> nat -> string.

Local Abbreviation enrich_one :=
  (enrich_block query py_str abspath crop_save temp_path).
Local Abbreviation enrich_all :=
  (run_workers_on_blocks query py_str abspath crop_save temp_path).

Lemma enrich_block_unavailable (page_num idx : nat) (b : block) (w : W) :
  workers_unavailable query ->
  fst (enrich_one page_num idx b w) = of_block b.
Proof.
  intros U. unfold enrich_block.
  destruct (degenerate (bbox b)); [reflexivity|].
  unfold try_except, dispatch, table_arm, vlm_arm, ocr_arm, bindM, lift, ret.
  repeat match goal with
  | |- context [query ?w ?n ?d] =>
      let H := fresh "U" in
      pose proof (U w n d) as H;
      destruct (query w n d) as [[[]|?] ?]; simpl in H;
      destruct H as [H | [? H]]; try discriminate; simpl
  | |- context [if ?c then _ else _] => destruct c; simpl
  | |- context [match crop_save ?x ?y with _ => _ end] =>
      destruct (crop_save x y); simpl
  end; reflexivity.
Qed.

(** X18: when no worker is available (every call of the worker layer
    returns [None] or raises), the enrichment loop returns every block as
    it was: no placeholder text is written. *)
Theorem enrichment_without_workers (page_num idx : nat)
    (blocks : list block) (w : W) :
  workers_unavailable query ->
  fst (enrich_all page_num idx blocks w) = map of_block blocks.
Proof.
  intros U. revert idx w.
  induction blocks as [|b rest IH]; intros idx w; simpl; [reflexivity|].
  pose proof (enrich_block_unavailable page_num idx b w U) as E.
  destruct (enrich_one page_num idx b w) as [e w1]. simpl in E. subst e.
  specialize (IH (S idx) w1).
  destruct (enrich_all page_num (S idx) rest w1) as [es w2].
  simpl in *. rewrite IH. reflexivity.
Qed.

Ltac split_cases H :=
  repeat (match type of H with
          | context [match ?x with _ => _ end] => destruct x eqn:?
          | context [if ?c then _ else _] => destruct c eqn:?
          end; simpl in H; try discriminate).

Lemma table_arm_returns (b : block) (path : string) (w w' : W)
    (e : eblock) :
  table_arm query abspath crop_save b path w = (Ok e, w') ->
  table_arm_result b e.
Proof.
  unfold table_arm, ocr_text, bindM, lift, ret. intros H.
  split_cases H.
  all: injection H as <- <-.
  all: try (left; reflexivity).
  - right. left.
    match goal with
    | M : (if truthy ?m then _ else _) = Ok true |- _ =>
        exists m; destruct (truthy m) eqn:T; [|discriminate];
        destruct (py_in "[TABLE_" m) as [[|]|] eqn:P; try discriminate
    end.
    split; [reflexivity|]. split; reflexivity.
  - right. right. left. reflexivity.
  - right. right. right. eexists. split; [eassumption | reflexivity].
Qed.

Lemma vlm_arm_returns (b : block) (path : string) (w w' : W) (e : eblock) :
  vlm_arm query py_str abspath crop_save b path w = (Ok e, w') ->
  vlm_arm_result b e.
Proof.
  unfold vlm_arm, bindM, lift, ret. intros H.
  split_cases H.
  all: injection H as <- <-.
  all: try (left; reflexivity).
  all: right; eexists; reflexivity.
Qed.

Lemma ocr_arm_returns (b : block) (path : string) (w w' : W) (e : eblock) :
  ocr_arm query abspath crop_save b path w = (Ok e, w') ->
  ocr_arm_result b e.
Proof.
  unfold ocr_arm, ocr_text, bindM, lift, ret. intros H.
  split_cases H.
  all: injection H as <- <-.
  all: try (left; reflexivity).
  - right. left. reflexivity.
  - right. right. eexists. split; [eassumption | reflexivity].
Qed.

(** X19: what the enrichment can write into a block, by arm.  A table
    block comes out unchanged, or with a non-empty table reconstruction
    that has no ["[TABLE_"] marker in it, or with the text of the fallback
    recognition, which is not blank, or with ["[NO_TEXT_FOUND]"].  An
    image block to crop comes out unchanged or with a description that
    starts with ["[IMAGE_DESCRIPTION]"] and a line break.  A block to send
    to recognition comes out unchanged, or with recognised text that is
    not blank and action ["ocr_extracted"], or with
    ["[OCR_NO_TEXT_FOUND]"] and its action unchanged. *)
Theorem enrichment_outcomes (page_num idx : nat) (b : block) (w : W) :
  (type b = "table" ->
   table_arm_result b (fst (enrich_one page_num idx b w))) /\
  (type b = "image" -> action b = "crop_image" ->
   vlm_arm_result b (fst (enrich_one page_num idx b w))) /\
  (type b <> "table" -> action b = "send_to_ocr" ->
   ocr_arm_result b (fst (enrich_one page_num idx b w))).
Proof.
  unfold enrich_block, try_except, dispatch.
  split; [|split].
  - intros T. rewrite T. simpl.
    destruct (degenerate (bbox b)); [left; reflexivity|].
    destruct (table_arm query abspath crop_save b
                (temp_path page_num idx) w) as [[e|x] w'] eqn:A;
      [|left; reflexivity].
    simpl. apply (table_arm_returns _ _ _ _ _ A).
  - intros T A. rewrite T, A. simpl.
    destruct (degenerate (bbox b)); [left; reflexivity|].
    destruct (vlm_arm query py_str abspath crop_save b
                (temp_path page_num idx) w) as [[e|x] w'] eqn:V;
      [|left; reflexivity].
    simpl. apply (vlm_arm_returns _ _ _ _ _ V).
  - intros T A. rewrite A.
    destruct (degenerate (bbox b)); [left; reflexivity|].
    destruct (String.eqb (type b) "table") eqn:Tb.
    { apply String.eqb_eq in Tb. contradiction. }
    simpl.
    destruct (ocr_arm query abspath crop_save b
                (temp_path page_num idx) w) as [[e|x] w'] eqn:O;
      [|left; reflexivity].
    simpl. apply (ocr_arm_returns _ _ _ _ _ O).
Qed.

(** X20: a table block whose content is not blank and holds no
    ["[IMAGE_BINARY]"] is returned as it is and no worker is asked about
    it (the state of the worker layer is as before).  This is so for the
    ["[EMPTY_TABLE]"] block the merge engine builds for a table detection
    with no text inside. *)
Theorem table_with_content_is_skipped (page_num idx : nat) (b : block)
    (w : W) :
  (type b = "table" -> table_has_content b = true ->
   enrich_one page_num idx b w = (of_block b, w)) /\
  (forall t : detection,
     enrich_one page_num idx (empty_table_block t) w
     = (of_block (empty_table_block t), w)).
Proof.
  assert (G : forall c : block,
            type c = "table" -> table_has_content c = true ->
            enrich_one page_num idx c w = (of_block c, w)).
  { intros c T C. unfold enrich_block.
    destruct (degenerate (bbox c)); [reflexivity|].
    unfold try_except, dispatch, table_arm. rewrite T. simpl.
    unfold table_has_content in C. apply andb_prop in C.
    destruct C as [C1 C2]. apply negb_true_iff in C1, C2.
    rewrite C1, C2. reflexivity. }
  split; [apply G|].
  intros t. apply G; reflexivity.
Qed.

End EnrichmentFacts.

Lemma table_with_content_is_skipped_witness :
  enrich_block query_decode_failed str_decode_failed same_path crop_ok
    one_temp_path 1 0
    (Block "table" (Box 0 0 200 200) "extract_table_logic" "Q1 Revenue") tt
  = (of_block
       (Block "table" (Box 0 0 200 200) "extract_table_logic" "Q1 Revenue"),
     tt).
Proof.
  apply (proj1 (table_with_content_is_skipped query_decode_failed
                  str_decode_failed same_path crop_ok one_temp_path 1 0
                  (Block "table" (Box 0 0 200 200) "extract_table_logic"
                     "Q1 Revenue") tt)); reflexivity.
Defined.

Lemma enrichment_outcomes_witness :
  ocr_arm_result note_block
    (fst (enrich_block query_decode_failed str_decode_failed same_path
            crop_ok one_temp_path 1 2 note_block tt)).
Proof.
  apply (proj2 (proj2 (enrichment_outcomes query_decode_failed
                         str_decode_failed same_path crop_ok one_temp_path
                         1 2 note_block tt))).
  - discriminate.
  - reflexivity.
Defined.

(* ===================================================================== *)
(** ** The low-signal filter *)
(* ===================================================================== *)

(** X21: the low-signal filter keeps the order of the blocks, keeps every
    block that is not a text or title block whatever its content, and
    leaves only text and title blocks whose content has at least two
    characters, counted as code points, once the whitespace of Unicode is
    stripped from both ends; filtering twice changes nothing more. *)
Theorem low_signal_filter (blocks : list block) :
  sublist (cleaned_blocks blocks) blocks /\
  List.filter (fun b => negb (text_like (type b))) (cleaned_blocks blocks)
  = List.filter (fun b => negb (text_like (type b))) blocks /\
  Forall (fun b => text_like (type b) = true ->
                   (2 <= str_len (strip (content b)))%nat)
    (cleaned_blocks blocks) /\
  cleaned_blocks (cleaned_blocks blocks) = cleaned_blocks blocks.
Proof.
  unfold cleaned_blocks. split; [|split; [|split]].
  - induction blocks as [|b rest IH]; simpl; [constructor|].
    destruct (negb (low_signal b)).
    + apply sublist_skip. exact IH.
    + apply sublist_cons. exact IH.
  - induction blocks as [|b rest IH]; simpl; [reflexivity|].
    unfold low_signal at 1.
    destruct (text_like (type b)) eqn:T; simpl.
    + destruct (negb _); simpl; [rewrite T; simpl|]; exact IH.
    + rewrite T. simpl. rewrite IH. reflexivity.
  - apply Forall_forall. intros b Hb T.
    apply filter_In in Hb. destruct Hb as [_ Hb].
    apply negb_true_iff in Hb. unfold low_signal in Hb.
    rewrite T in Hb. simpl in Hb. apply orb_false_elim in Hb.
    destruct Hb as [_ Hb]. apply Nat.ltb_ge in Hb. exact Hb.
  - induction blocks as [|b rest IH]; simpl; [reflexivity|].
    destruct (negb (low_signal b)) eqn:K; simpl; [rewrite K|];
      rewrite ?IH; reflexivity.
Qed.

Lemma low_signal_filter_witness :
  cleaned_blocks [letter_block; word_block] = [word_block] /\
  Forall (fun b => text_like (type b) = true ->
                   (2 <= str_len (strip (content b)))%nat)
    (cleaned_blocks [letter_block; word_block]).
Proof.
  split; [reflexivity|].
  apply (proj1 (proj2 (proj2 (low_signal_filter [letter_block; word_block])))).
Defined.

(* --------------------------------------------------------------------- *)
(** *** Example runs *)

Lemma layout_failure_reaches_enrichment_witness :
  app_workflow query_none str_decode_failed ext_pdf same_path same_path
    no_ffmpeg crop_ok one_temp_path images_on_disk layout_raises
    no_video_id no_segments exn_text report tt
  = Some (Raise KeyError, tt).
Proof.
  apply (proj1 (layout_failure_reaches_enrichment query_none
                  str_decode_failed ext_pdf same_path same_path no_ffmpeg
                  crop_ok one_temp_path images_on_disk layout_raises
                  no_video_id no_segments exn_text report tt OSError
                  eq_refl eq_refl)).
  reflexivity.
Defined.

Lemma youtube_run_witness :
  exists final,
    app_workflow query_decode_failed str_decode_failed ext_mp3 same_path
      same_path no_ffmpeg crop_ok one_temp_path images_on_disk no_layout
      no_video_id no_segments exn_text video_link tt
    = Some (Ok (final, [Router; ProcessYoutube]), tt) /\
    status final = "failed" /\
    error final = Some "Invalid YouTube URL".
Proof.
  destruct (youtube_run query_decode_failed str_decode_failed ext_mp3
              same_path same_path no_ffmpeg crop_ok one_temp_path
              images_on_disk no_layout no_video_id no_segments exn_text
              video_link tt) as (final & R & I & _).
  - right. reflexivity.
  - exists final. split; [exact R|]. apply I. reflexivity.
Defined.

Lemma enrichment_without_workers_witness :
  fst (run_workers_on_blocks query_none str_decode_failed same_path crop_ok
         one_temp_path 1 0 [caption_block; flat_table; note_block] tt)
  = map of_block [caption_block; flat_table; note_block].
Proof.
  apply (enrichment_without_workers query_none str_decode_failed same_path
           crop_ok one_temp_path 1 0).
  intros w name data. left. reflexivity.
Defined.

(* ===================================================================== *)
(** ** The chunker *)
(* ===================================================================== *)

Section ChunkerFacts.

Variable py_str : pyval -> string.
Variable split_text : pyval -> result (list string).

Local Abbreviation chunks_of_block := (block_chunks py_str split_text).
Local Abbreviation chunks_of_blocks := (blocks_chunks py_str split_text).
Local Abbreviation chunks_of_document := (document_chunks py_str split_text).
Local Abbreviation chunks_of_json := (process_json py_str split_text).
Local Abbreviation loop := (audio_loop py_str).

(** X22: the data of a YouTube run gives no chunk: its entries are not
    audio transcriptions, so [process_json] reads them as pages, and they
    have no blocks. *)
Theorem youtube_data_gives_no_chunks (data : list rag_entry)
    (file_id : string) :
  Forall (fun entry => is_youtube_entry entry = true) data ->
  chunks_of_json data file_id = Ok [].
Proof.
  intros F.
  assert (D : chunks_of_document file_id data = Ok []).
  { induction F as [|entry rest He _ IH]; [reflexivity|].
    simpl. destruct entry; try discriminate. simpl. rewrite IH. reflexivity. }
  unfold process_json. destruct data as [|entry rest]; [reflexivity|].
  inversion F as [|? ? He _]; subst.
  destruct entry; try discriminate. exact D.
Qed.

Lemma final_type_table (b_type action : string) :
  final_type b_type action = "table" <-> b_type = "table".
Proof.
  unfold final_type. split.
  - destruct (String.eqb b_type "table") eqn:T;
      [intros _; apply String.eqb_eq; exact T|].
    repeat case_match; discriminate.
  - intros ->. reflexivity.
Qed.

Lemma split_chunks_facts (file_id : string) (page_num : nat) (b : eblock)
    (ftype : string) (pieces : list string) :
  forall i,
    map chunk_text (split_chunks py_str file_id page_num b ftype i pieces)
    = map PyStr pieces /\
    Forall (fun c => chunk_type c = ftype /\ chunk_file_id c = file_id /\
                     chunk_page c = Some page_num /\
                     chunk_source c = "document")
      (split_chunks py_str file_id page_num b ftype i pieces).
Proof.
  induction pieces as [|t rest IH]; intros i; simpl.
  - split; [reflexivity | constructor].
  - destruct (IH (S i)) as [E F]. rewrite E. split; [reflexivity|].
    constructor; [simpl; auto | exact F].
Qed.

(** X23: the chunks of one block.  A block whose content is falsy or
    shorter than five, a string being measured in code points, gives no
    chunk.  A table block that is not skipped
    gives exactly one chunk, whose text is the whole content: a table is
    never split, whatever its length.  Any other block that is not skipped
    gives one chunk for each piece the splitter returns, in order, under
    the type [final_type] gives it.  Every chunk carries the file id and
    the page number. *)
Theorem chunks_of_one_block (file_id : string) (page_num : nat)
    (b : eblock) :
  (truthy (e_content b) = false \/
   (exists n, py_len (e_content b) = Ok n /\ (n < 5)%nat) ->
   chunks_of_block file_id page_num b = Ok []) /\
  (chunked_block b -> e_type b = "table" ->
   exists c,
     chunks_of_block file_id page_num b = Ok [c] /\
     chunk_text c = e_content b /\ chunk_type c = "table" /\
     chunk_file_id c = file_id /\ chunk_page c = Some page_num) /\
  (forall pieces,
     chunked_block b -> e_type b <> "table" ->
     split_text (e_content b) = Ok pieces ->
     exists cs,
       chunks_of_block file_id page_num b = Ok cs /\
       map chunk_text cs = map PyStr pieces /\
       Forall (fun c => chunk_type c = final_type (e_type b) (e_action b) /\
                        chunk_type c <> "table" /\
                        chunk_file_id c = file_id /\
                        chunk_page c = Some page_num) cs).
Proof.
  unfold block_chunks. cbv zeta. split; [|split].
  - intros [T | (n & L & Hn)].
    + rewrite T. reflexivity.
    + destruct (truthy (e_content b)); [|reflexivity].
      simpl. rewrite L. simpl.
      assert (E : (n <? 5)%nat = true) by (apply Nat.ltb_lt; exact Hn).
      rewrite E. reflexivity.
  - intros (T & n & L & Hn) Ty. rewrite T, L. simpl.
    assert (E : (n <? 5)%nat = false) by (apply Nat.ltb_ge; exact Hn).
    rewrite E, Ty. simpl.
    eexists. split; [reflexivity|]. simpl. auto.
  - intros pieces (T & n & L & Hn) Ty S. rewrite T, L. simpl.
    assert (E : (n <? 5)%nat = false) by (apply Nat.ltb_ge; exact Hn).
    rewrite E.
    destruct (String.eqb (final_type (e_type b) (e_action b)) "table") eqn:F.
    { apply String.eqb_eq in F. apply final_type_table in F. contradiction. }
    rewrite S. simpl.
    destruct (split_chunks_facts file_id page_num b
                (final_type (e_type b) (e_action b)) pieces 0%nat)
      as [Et Ft].
    eexists. split; [reflexivity|]. split; [exact Et|].
    eapply Forall_impl; [|exact Ft]. simpl.
    intros c (C1 & C2 & C3 & _). rewrite C1.
    split; [reflexivity|]. split; [|auto].
    intros Ht. apply final_type_table in Ht. contradiction.
Qed.

(* --------------------------------------------------------------------- *)
(** *** Audio transcripts *)

Lemma str_len_append (a b : string) :
  str_len (String.append a b) = (str_len a + str_len b)%nat.
Proof.
  induction a as [|ch a IH]; [reflexivity|].
  change (String.append (String ch a) b) with (String ch (String.append a b)).
  cbn [str_len]. rewrite IH. destruct (is_continuation ch); reflexivity.
Qed.

Lemma group_text_snoc (group : list pyval) (seg : pyval) :
  group_text (group ++ [seg])
  = String.append (group_text group) (segment_piece seg).
Proof. unfold group_text. rewrite fold_left_app. reflexivity. Qed.

Lemma group_text_removelast (group : list pyval) :
  (str_len (group_text (removelast group))
   <= str_len (group_text group))%nat.
Proof.
  destruct group as [|s g]; [apply Nat.le_refl|].
  rewrite (app_removelast_last s (l := s :: g)) at 2 by discriminate.
  rewrite group_text_snoc, str_len_append. lia.
Qed.

Lemma group_start_snoc (group : list pyval) (seg : pyval) :
  group <> [] -> group_start (group ++ [seg]) = group_start group.
Proof. destruct group; [contradiction | reflexivity]. Qed.

Lemma well_formed_segment_get (seg : pyval) :
  well_formed_segment seg ->
  py_get seg "start" (PyNum 0) = Ok (segment_start seg).
Proof.
  intros (text & E). unfold segment_text in E. unfold segment_start.
  destruct seg; try discriminate. reflexivity.
Qed.

Lemma Forall_removelast_cons {A : Type} (P : A -> Prop) (x : A)
    (l : list A) :
  P x -> Forall P (removelast l) -> Forall P (removelast (x :: l)).
Proof.
  intros Hx Hl. destruct l as [|y l']; [constructor|].
  change (removelast (x :: y :: l')) with (x :: removelast (y :: l')).
  constructor; assumption.
Qed.

Lemma audio_loop_groups (file_id : string) (segments : list pyval) :
  Forall well_formed_segment segments ->
  forall current_chunk start_time group,
    current_chunk = group_text group ->
    (group <> [] ->
     start_time = group_start group /\ current_chunk <> EmptyString) ->
    (str_len current_chunk <= 1000)%nat ->
    exists grouped,
      loop file_id segments current_chunk start_time group = Ok grouped /\
      concat (map snd grouped) = group ++ segments /\
      Forall (audio_group_ok py_str file_id) grouped /\
      Forall (fun cg => (1000 < str_len (group_text (snd cg)))%nat)
        (removelast grouped).
Proof.
  induction 1 as [|seg rest Hseg _ IH]; intros cur start group Hc Hg Hl.
  - simpl. destruct (String.eqb cur EmptyString) eqn:Z.
    + apply String.eqb_eq in Z. exists []. split; [reflexivity|].
      destruct group as [|g0 g'].
      * repeat split; constructor.
      * destruct (Hg ltac:(discriminate)) as [_ NE]. contradiction.
    + apply String.eqb_neq in Z.
      assert (NE : group <> []).
      { intros ->. apply Z. exact Hc. }
      destruct (Hg NE) as [Hs _].
      eexists. split; [reflexivity|]. simpl. rewrite app_nil_r.
      split; [reflexivity|]. split; [|constructor].
      constructor; [|constructor].
      split; [exact NE|]. split; [subst; reflexivity|]. simpl.
      pose proof (group_text_removelast group). subst cur. lia.
  - pose proof Hseg as (text & Et).
    assert (Ep : segment_piece seg = String.append text " ")
      by (unfold segment_piece; rewrite Et; reflexivity).
    simpl. rewrite Et. simpl.
    assert (Es : (if String.eqb cur EmptyString
                  then py_get seg "start" (PyNum 0) else Ok start)
                 = Ok (group_start (group ++ [seg]))).
    { destruct (String.eqb cur EmptyString) eqn:Z.
      - apply String.eqb_eq in Z.
        destruct group as [|g0 g'].
        + simpl. apply well_formed_segment_get. exact Hseg.
        + destruct (Hg ltac:(discriminate)) as [_ NE]. contradiction.
      - apply String.eqb_neq in Z.
        assert (NE : group <> []) by (intros ->; apply Z; exact Hc).
        destruct (Hg NE) as [Hs _].
        rewrite group_start_snoc by exact NE. rewrite Hs. reflexivity. }
    rewrite Es. simpl.
    assert (Ec : String.append cur (String.append text " ")
                 = group_text (group ++ [seg]))
      by (rewrite group_text_snoc, Ep, Hc; reflexivity).
    rewrite Ec.
    destruct (1000 <? str_len (group_text (group ++ [seg])))%nat
      eqn:Big.
    + apply Nat.ltb_lt in Big.
      destruct (IH EmptyString (group_start (group ++ [seg])) [])
        as (others & Eo & Co & Fo & Lo).
      * reflexivity.
      * intros NE. contradiction.
      * simpl. lia.
      * rewrite Eo. simpl. eexists. split; [reflexivity|]. simpl.
        rewrite Co. simpl. split; [rewrite <- app_assoc; reflexivity|].
        split.
        -- constructor; [|exact Fo].
           split; [destruct group; discriminate|]. simpl.
           split; [reflexivity|].
           rewrite removelast_last. subst cur. exact Hl.
        -- apply Forall_removelast_cons; [exact Big | exact Lo].
    + apply Nat.ltb_ge in Big.
      destruct (IH (group_text (group ++ [seg]))
                  (group_start (group ++ [seg])) (group ++ [seg]))
        as (grouped & Eg & Cg & Fg & Lg).
      * reflexivity.
      * intros _. split; [reflexivity|].
        rewrite <- Ec. intros Z.
        assert (L : str_len
                      (String.append cur (String.append text " ")) = 0%nat)
          by (rewrite Z; reflexivity).
        rewrite !str_len_append in L. simpl in L. lia.
      * exact Big.
      * exists grouped. split; [exact Eg|].
        split; [rewrite Cg, <- app_assoc; reflexivity|].
        split; assumption.
Qed.

(** X24: [_process_audio] on segments that are dictionaries with a string
    for text; lengths are counted in code points.  The segments are cut
    into consecutive groups, one chunk per group, so no segment is lost or
    repeated; there is no chunk exactly when there is no segment.  The
    text of a chunk is the texts of its group, each followed by a space,
    stripped; its timestamp is the start of the first segment of the
    group.  Every group but the last is longer than 1000 characters, and
    no group was longer than 1000 before its last segment was added. *)
Theorem audio_chunks_keep_every_segment (file_id : string)
    (items : list pyval) :
  Forall well_formed_segment items ->
  exists grouped,
    _process_audio py_str file_id (PyList items) = Ok (map fst grouped) /\
    concat (map snd grouped) = items /\
    (grouped = [] <-> items = []) /\
    Forall (fun cg =>
              snd cg <> [] /\
              chunk_text (fst cg) = PyStr (strip (group_text (snd cg))) /\
              chunk_timestamp (fst cg) = Some (group_start (snd cg)) /\
              chunk_type (fst cg) = "audio_transcript" /\
              (str_len (group_text (removelast (snd cg))) <= 1000)%nat)
      grouped /\
    Forall (fun cg => (1000 < str_len (group_text (snd cg)))%nat)
      (removelast grouped).
Proof.
  intros F.
  destruct (audio_loop_groups file_id items F EmptyString (PyNum 0) [])
    as (grouped & E & C & G & L).
  - reflexivity.
  - intros NE. contradiction.
  - simpl. lia.
  - exists grouped. unfold _process_audio. simpl. rewrite E. simpl.
    split; [reflexivity|]. split; [exact C|]. split; [|split; [|exact L]].
    + split.
      * intros ->. simpl in C. symmetry. exact C.
      * intros ->. destruct grouped as [|[c g] rest]; [reflexivity|].
        inversion G as [|? ? (NE & _) _]; subst. simpl in *.
        destruct g; [contradiction | discriminate].
    + eapply Forall_impl; [|exact G]. intros [c g] (NE & Ec & Hl).
      simpl in *. subst c. simpl. auto.
Qed.

End ChunkerFacts.

Lemma chunks_of_one_block_witness :
  (exists c,
     block_chunks str_decode_failed (fun _ => Ok [])
       "file-1" 3 (of_block (empty_table_block upper_table)) = Ok [c] /\
     chunk_text c = PyStr "[EMPTY_TABLE]" /\ chunk_type c = "table") /\
  block_chunks str_decode_failed (fun _ => Ok [])
    "file-1" 3
    (EBlock "text" (Box 0 0 100 20) "extract_text"
       (PyStr (str_repeat 4 beh)))
  = Ok [].
Proof.
  split.
  - destruct (chunks_of_one_block str_decode_failed (fun _ => Ok [])
                "file-1" 3 (of_block (empty_table_block upper_table)))
      as (_ & T & _).
    destruct T as (c & E & Tx & Ty & _).
    + split; [reflexivity|]. exists 13%nat. split; [reflexivity | lia].
    + reflexivity.
    + exists c. split; [exact E|]. split; [exact Tx | exact Ty].
  - apply (proj1 (chunks_of_one_block str_decode_failed (fun _ => Ok [])
                    "file-1" 3
                    (EBlock "text" (Box 0 0 100 20) "extract_text"
                       (PyStr (str_repeat 4 beh))))).
    right. exists 4%nat. split; [reflexivity | lia].
Defined.

Lemma youtube_data_gives_no_chunks_witness :
  process_json str_decode_failed (fun _ => Ok [])
    [YoutubeTranscript "YouTube_abc" "https://youtu.be/abc" "abc"
       (PyList [PyDict [("start", PyNum 0); ("end", PyNum 2);
                       ("text", PyStr "hello")]])]
    "yt_abc"
  = Ok [].
Proof.
  apply (youtube_data_gives_no_chunks str_decode_failed (fun _ => Ok [])).
  repeat constructor.
Defined.

Lemma audio_chunks_keep_every_segment_witness :
  exists grouped,
    _process_audio str_decode_failed "file-1"
      (PyList [PyDict [("start", PyNum 0); ("text", PyStr "hello")];
               PyDict [("start", PyNum 2); ("text", PyStr "world")]])
    = Ok (map fst grouped) /\
    concat (map snd grouped)
    = [PyDict [("start", PyNum 0); ("text", PyStr "hello")];
       PyDict [("start", PyNum 2); ("text", PyStr "world")]].
Proof.
  destruct (audio_chunks_keep_every_segment str_decode_failed "file-1"
              [PyDict [("start", PyNum 0); ("text", PyStr "hello")];
               PyDict [("start", PyNum 2); ("text", PyStr "world")]])
    as (grouped & E & C & _).
  - repeat constructor; eexists; reflexivity.
  - exists grouped. split; [exact E | exact C].
Defined.

(** A transcript of 600 Arabic letters is 1200 bytes and 601 characters
    with its closing space: it stays in one chunk. *)
Example audio_arabic_transcript_one_chunk :
  exists c,
    _process_audio str_decode_failed "file-1"
      (PyList [PyDict [("start", PyNum 0);
                       ("text", PyStr (str_repeat 600 beh))]])
    = Ok [c] /\
    chunk_text c = PyStr (str_repeat 600 beh).
Proof. eexists. split; vm_compute; reflexivity. Qed.

(* ===================================================================== *)
(** ** The structural fallbacks *)
(* ===================================================================== *)

Lemma docx_blocks_from (paragraphs : list string) :
  forall j : nat,
    (j <= 30)%nat ->
    let blocks := docx_blocks paragraphs (50 + 30 * Z.of_nat j) in
    map content blocks = firstn (31 - j) (docx_texts paragraphs) /\
    forall k b,
      nth_error blocks k = Some b ->
      type b = "text" /\ action b = "extract_text" /\
      bbox b = Box 50 (inject_Z (50 + 30 * Z.of_nat (j + k))) 750
                 (inject_Z (50 + 30 * Z.of_nat (j + k) + 20)).
Proof.
  induction paragraphs as [|para rest IH]; intros j Hj; cbv zeta.
  - simpl. split; [destruct (31 - j)%nat; reflexivity|].
    intros [|k] b; discriminate.
  - simpl. unfold docx_texts. simpl.
    fold (docx_texts rest).
    destruct (String.eqb (strip para) EmptyString) eqn:Z; simpl.
    + apply (IH j Hj).
    + destruct (950 <? 50 + 30 * Z.of_nat j + 30)%Z eqn:B.
      * apply Z.ltb_lt in B. assert (j = 30%nat) by lia. subst j.
        simpl. split; [reflexivity|].
        intros [|[|k]] b; simpl; try discriminate.
        intros [= <-]. simpl. auto.
      * apply Z.ltb_ge in B. assert (Hj' : (S j <= 30)%nat) by lia.
        destruct (IH (S j) Hj') as [E N]. cbv zeta in E, N.
        replace (50 + 30 * Z.of_nat (S j))%Z
          with (50 + 30 * Z.of_nat j + 30)%Z in E, N by lia.
        replace (31 - j)%nat with (S (31 - S j)) by lia.
        simpl. rewrite E. split; [reflexivity|].
        intros [|k] b; simpl.
        -- intros [= <-]. simpl. rewrite Nat.add_0_r. auto.
        -- intros Hb. destruct (N k b Hb) as (T & A & Bx).
           split; [exact T|]. split; [exact A|].
           rewrite Bx. replace (S j + k)%nat with (j + S k)%nat by lia.
           reflexivity.
Qed.

(** X25: [process_docx_structurally] returns one page.  Its blocks are the
    stripped texts of the paragraphs that are not blank, in order, but of
    the first 31 of them only: later paragraphs are left out.  The block at
    position k is a text block with box [50, 50+30k, 750, 70+30k]. *)
Theorem docx_structural_layout (paragraphs : list string) :
  exists blocks,
    process_docx_structurally paragraphs = [Page 1 blocks] /\
    map content blocks = firstn 31 (docx_texts paragraphs) /\
    (length blocks <= 31)%nat /\
    forall k b,
      nth_error blocks k = Some b ->
      type b = "text" /\ action b = "extract_text" /\
      bbox b = Box 50 (inject_Z (50 + 30 * Z.of_nat k)) 750
                 (inject_Z (70 + 30 * Z.of_nat k)).
Proof.
  exists (docx_blocks paragraphs 50). split; [reflexivity|].
  destruct (docx_blocks_from paragraphs 0 ltac:(lia)) as [E N].
  cbv zeta in E, N.
  change (50 + 30 * Z.of_nat 0)%Z with 50%Z in E, N.
  change (31 - 0)%nat with 31%nat in E.
  split; [exact E|]. split.
  - rewrite <- (length_map content (docx_blocks paragraphs 50)), E,
      length_firstn.
    lia.
  - intros k b Hb. destruct (N k b Hb) as (T & A & Bx).
    split; [exact T|]. split; [exact A|]. rewrite Bx.
    change (0 + k)%nat with k.
    replace (50 + 30 * Z.of_nat k + 20)%Z with (70 + 30 * Z.of_nat k)%Z
      by lia.
    reflexivity.
Qed.

Lemma inject_Z_lt (a b : Z) : (a < b)%Z -> inject_Z a < inject_Z b.
Proof. intros H. rewrite <- Zlt_Qlt. exact H. Qed.

Lemma shape_blocks_proper (s : shape) :
  Forall (fun b => proper_box (bbox b)) (shape_blocks s).
Proof.
  unfold shape_blocks. destruct (negb (has_left s)); [constructor|].
  cbv zeta.
  destruct ((emu_to_px (width s) <=? 0)%Z || (emu_to_px (height s) <=? 0)%Z)
    eqn:D; [constructor|].
  apply orb_false_elim in D. destruct D as [Dw Dh].
  apply Z.leb_gt in Dw, Dh.
  assert (P : proper_box
                (Box (inject_Z (emu_to_px (left s)))
                   (inject_Z (emu_to_px (shape_top s)))
                   (inject_Z (emu_to_px (left s) + emu_to_px (width s)))
                   (inject_Z (emu_to_px (shape_top s)
                              + emu_to_px (height s))))).
  { split; simpl; apply inject_Z_lt; lia. }
  assert (One : forall t a c,
             Forall (fun b => proper_box (bbox b))
               [Block t
                  (Box (inject_Z (emu_to_px (left s)))
                     (inject_Z (emu_to_px (shape_top s)))
                     (inject_Z (emu_to_px (left s) + emu_to_px (width s)))
                     (inject_Z (emu_to_px (shape_top s)
                                + emu_to_px (height s))))
                  a c]).
  { intros t a c. constructor; [exact P | constructor]. }
  apply Forall_app_2; [|apply Forall_app_2].
  - destruct (shape_type s); [|constructor|constructor].
    destruct (image_loads s); [apply One | constructor].
  - destruct (shape_type s); [constructor|apply One|constructor].
  - destruct (shape_text s) as [text|]; [|constructor].
    destruct (String.eqb (strip text) EmptyString);
      [constructor | apply One].
Qed.

Lemma emu_to_px_small (v : Z) : (v < 9525)%Z -> (emu_to_px v <= 0)%Z.
Proof.
  intros H. unfold emu_to_px.
  destruct (Z_lt_le_dec v 0) as [N | N].
  - replace v with (- (- v))%Z by lia.
    rewrite Z.quot_opp_l by lia.
    pose proof (Z.quot_pos (- v) 9525 ltac:(lia) ltac:(lia)). lia.
  - rewrite Z.quot_small; lia.
Qed.

(** X26: the structural slide path never yields a degenerate box.  A shape
    without position, or narrower or lower than one pixel (9525 EMU), gives
    no block; every block a shape gives has positive width and height, and
    so has every block of the slide after the consecutive merge. *)
Theorem slide_blocks_are_proper (shapes : list shape) :
  (forall s, has_left s = false \/ (width s < 9525)%Z \/
             (height s < 9525)%Z ->
             shape_blocks s = []) /\
  Forall (fun b => proper_box (bbox b)) (flat_map shape_blocks shapes) /\
  Forall (fun b => proper_box (bbox b)) (slide_blocks shapes).
Proof.
  assert (F : Forall (fun b => proper_box (bbox b))
                (flat_map shape_blocks shapes)).
  { induction shapes as [|s rest IH]; simpl; [constructor|].
    apply Forall_app_2; [apply shape_blocks_proper | exact IH]. }
  split; [|split; [exact F | apply merge_keeps_proper_boxes; exact F]].
  intros s H. unfold shape_blocks.
  destruct (has_left s); [|reflexivity]. simpl.
  destruct H as [H | [H | H]]; [discriminate | |].
  - pose proof (emu_to_px_small _ H) as Q.
    apply Z.leb_le in Q. rewrite Q. reflexivity.
  - pose proof (emu_to_px_small _ H) as Q.
    apply Z.leb_le in Q. rewrite Q. rewrite orb_true_r. reflexivity.
Qed.

(* ===================================================================== *)
(** ** The vector store *)
(* ===================================================================== *)

Lemma slice_from (A : Type) (l : list A) (i size : nat) :
  slice l i (i + size)%nat = firstn size (skipn i l).
Proof. unfold slice. replace (i + size - i)%nat with size by lia. reflexivity. Qed.

Lemma range_from_batches (A : Type) (size : nat) (l : list A) :
  (0 < size)%nat ->
  forall fuel i,
    (length l <= fuel + i)%nat ->
    concat (map (fun j => slice l j (j + size)%nat)
              (range_from fuel i (length l) size))
    = skipn i l /\
    Forall (fun j => (j < length l)%nat)
      (range_from fuel i (length l) size).
Proof.
  intros Hs. induction fuel as [|fuel IH]; intros i Hf; simpl.
  - split; [|constructor]. symmetry. apply skipn_all2. lia.
  - destruct (i <? length l)%nat eqn:Lt.
    + apply Nat.ltb_lt in Lt.
      destruct (IH (i + size)%nat ltac:(lia)) as [E F].
      simpl. rewrite E. split; [|constructor; [exact Lt | exact F]].
      rewrite slice_from.
      replace (skipn (i + size) l) with (skipn size (skipn i l)).
      * apply firstn_skipn.
      * rewrite skipn_skipn. f_equal. lia.
    + apply Nat.ltb_ge in Lt. split; [|constructor].
      symmetry. apply skipn_all2. exact Lt.
Qed.

Lemma batches_cover (A : Type) (size : nat) (l : list A) :
  (0 < size)%nat ->
  concat (batches size l) = l /\
  Forall (fun b => b <> [] /\ (length b <= size)%nat) (batches size l).
Proof.
  intros Hs. unfold batches, range_step.
  destruct (range_from_batches A size l Hs (length l) 0 ltac:(lia))
    as [E F].
  split; [exact E|].
  apply Forall_map. eapply Forall_impl; [|exact F].
  intros j Hj. simpl in Hj |- *. rewrite slice_from. split.
  - intros N. apply (f_equal (@length A)) in N.
    rewrite length_firstn, length_skipn in N. simpl in N. lia.
  - rewrite length_firstn. lia.
Qed.

Lemma slice_map (A B : Type) (f : A -> B) (l : list A) (i j : nat) :
  slice (map f l) i j = map f (slice l i j).
Proof. unfold slice. rewrite skipn_map, firstn_map. reflexivity. Qed.

Section VectorStoreFacts.

Variable vector : Type.
Variable embed_content : list pyval -> option (list vector).

Lemma embed_batches_failure (texts : list pyval) (starts : list nat) :
  forall acc,
    Exists (fun i => embed_content (slice texts i (i + 90)%nat) = None) starts ->
    embed_batches vector embed_content starts texts acc = [].
Proof.
  induction starts as [|i rest IH]; intros acc E; [inversion E|].
  simpl. destruct (embed_content (slice texts i (i + 90)%nat)) as [vs|] eqn:Q;
    [|reflexivity].
  inversion E as [? ? N | ? ? R]; subst; [congruence|].
  apply IH. exact R.
Qed.

Lemma embed_batches_success (texts : list pyval) (starts : list nat) :
  forall acc,
    Forall (fun i =>
              exists vs,
                embed_content (slice texts i (i + 90)%nat) = Some vs /\
                length vs = length (slice texts i (i + 90)%nat)) starts ->
    exists vss,
      embed_batches vector embed_content starts texts acc
      = acc ++ concat vss /\
      Forall2 (fun i vs =>
                 embed_content (slice texts i (i + 90)%nat) = Some vs /\
                 length vs = length (slice texts i (i + 90)%nat)) starts vss.
Proof.
  induction starts as [|i rest IH]; intros acc F.
  - exists []. simpl. rewrite app_nil_r. split; [reflexivity | constructor].
  - inversion F as [|? ? (vs & Q & L) R]; subst.
    destruct (IH (acc ++ vs) R) as (vss & E & F2).
    exists (vs :: vss). simpl. rewrite Q, E, <- app_assoc.
    split; [reflexivity|]. constructor; [split; assumption | exact F2].
Qed.

Lemma Forall2_concat_length (A B : Type) (f : A -> list B)
    (xs : list A) (vss : list (list vector)) :
  Forall2 (fun x vs => length vs = length (f x)) xs vss ->
  length (concat vss) = length (concat (map f xs)).
Proof.
  induction 1 as [|x vs xs vss L _ IH]; [reflexivity|].
  simpl. rewrite !length_app, L, IH. reflexivity.
Qed.

Variable collection : Type.
Variable upsert : collection -> upsert_call vector -> result unit * collection.

Local Abbreviation store := (add_chunks vector embed_content collection upsert).
Local Abbreviation after := (collection_after vector collection upsert).

(** X27: when one of the embedding calls raises, [_generate_embeddings]
    returns the empty list, whatever the earlier batches gave; [add_chunks]
    on chunks then returns without a single upsert and leaves the
    collection as it was, so nothing of the file is stored. *)
Theorem embedding_failure_stores_nothing (chunks : list chunk)
    (c : collection) :
  Exists (fun batch => embed_content batch = None)
    (batches 90 (map chunk_text chunks)) ->
  _generate_embeddings vector embed_content (map chunk_text chunks) = [] /\
  store chunks c = (Ok tt, c, []).
Proof.
  intros E.
  assert (G : _generate_embeddings vector embed_content
                (map chunk_text chunks) = []).
  { unfold _generate_embeddings. apply embed_batches_failure.
    unfold batches in E. apply Exists_exists in E.
    destruct E as (b & Hb & N). apply in_map_iff in Hb.
    destruct Hb as (i & <- & Hi).
    apply Exists_exists. exists i. split; assumption. }
  split; [exact G|].
  unfold add_chunks. destruct chunks as [|c0 rest]; [reflexivity|].
  cbv zeta. rewrite G. reflexivity.
Qed.

Lemma map_fst_combine_eq (A B : Type) (a : list A) :
  forall b : list B, length a = length b -> map fst (combine a b) = a.
Proof.
  induction a as [|x a IH]; intros [|y b] L; simpl in *;
    try discriminate; [reflexivity|].
  rewrite IH by lia. reflexivity.
Qed.

Lemma map_snd_combine_eq (A B : Type) (a : list A) :
  forall b : list B, length a = length b -> map snd (combine a b) = b.
Proof.
  induction a as [|x a IH]; intros [|y b] L; simpl in *;
    try discriminate; [reflexivity|].
  rewrite IH by lia. reflexivity.
Qed.

Lemma collection_after_snoc (calls : list (upsert_call vector))
    (call : upsert_call vector) (c : collection) :
  after (calls ++ [call]) c = snd (upsert (after calls c) call).
Proof. unfold collection_after. rewrite fold_left_app. reflexivity. Qed.

(** The loop of [add_chunks]: the calls made are those of the first
    [sent] starts, each on the collection the call before it left; all of
    them when the loop returns, and the last of them raised when it
    raises. *)
Lemma upsert_batches_prefix (ids : list string) (texts : list pyval)
    (embeddings : list vector)
    (metadatas : list (string * option nat * option pyval * string * string))
    (starts : list nat) :
  let call_at := fun i =>
    Upsert (slice ids i (i + 500)%nat) (slice texts i (i + 500)%nat)
      (slice embeddings i (i + 500)%nat)
      (slice metadatas i (i + 500)%nat) in
  forall c made, exists sent,
    (sent <= length starts)%nat /\
    snd (upsert_batches vector collection upsert starts ids texts embeddings
           metadatas c made)
    = made ++ map call_at (firstn sent starts) /\
    snd (fst (upsert_batches vector collection upsert starts ids texts
                embeddings metadatas c made))
    = after (map call_at (firstn sent starts)) c /\
    (fst (fst (upsert_batches vector collection upsert starts ids texts
                 embeddings metadatas c made)) = Ok tt ->
     sent = length starts) /\
    (forall x,
       fst (fst (upsert_batches vector collection upsert starts ids texts
                   embeddings metadatas c made)) = Raise x ->
       exists earlier i,
         firstn sent starts = earlier ++ [i] /\
         fst (upsert (after (map call_at earlier) c) (call_at i))
         = Raise x) /\
    ((forall c' call, fst (upsert c' call) = Ok tt) ->
     fst (fst (upsert_batches vector collection upsert starts ids texts
                 embeddings metadatas c made)) = Ok tt).
Proof.
  cbv zeta. induction starts as [|i rest IH]; intros c made.
  - exists 0%nat. simpl. rewrite app_nil_r.
    split; [lia|]. split; [reflexivity|]. split; [reflexivity|].
    split; [reflexivity|]. split; [discriminate | reflexivity].
  - cbn [upsert_batches]. cbv zeta.
    destruct (upsert c _) as [[[]|x] c'] eqn:U.
    + destruct (IH c' (made ++ [Upsert (slice ids i (i + 500)%nat)
                                  (slice texts i (i + 500)%nat)
                                  (slice embeddings i (i + 500)%nat)
                                  (slice metadatas i (i + 500)%nat)]))
        as (sent & Hs & Hm & Hc & Ho & Hr & Ha).
      exists (S sent). simpl firstn. simpl map.
      split; [simpl; lia|]. split.
      { rewrite Hm, <- app_assoc. reflexivity. }
      split.
      { rewrite Hc. unfold collection_after. simpl. rewrite U. reflexivity. }
      split; [intros K; simpl; f_equal; apply Ho; exact K|].
      split; [|exact Ha].
      intros x K. destruct (Hr x K) as (earlier & j & E1 & E2).
      exists (i :: earlier), j. split; [rewrite E1; reflexivity|].
      unfold collection_after in *. simpl. rewrite U. exact E2.
    + exists 1%nat. simpl.
      split; [lia|]. split; [reflexivity|].
      split; [unfold collection_after; simpl; rewrite U; reflexivity|].
      split; [discriminate|]. split.
      * intros x' [= <-]. exists [], i. split; [reflexivity|].
        unfold collection_after. simpl. rewrite U. reflexivity.
      * intros A. specialize (A c (Upsert (slice ids i (i + 500)%nat)
                                     (slice texts i (i + 500)%nat)
                                     (slice embeddings i (i + 500)%nat)
                                     (slice metadatas i (i + 500)%nat))).
        rewrite U in A. discriminate.
Qed.

(** X28: when every embedding call returns one vector for each text of its
    batch, [add_chunks] hands every chunk to [collection.upsert] in order
    and with its own vector: the texts are embedded batch by batch, the
    chunks and the vectors, paired by position, are cut into consecutive
    groups of at most 500, and each call carries the ids, documents,
    vectors and metadata of one group, on the collection as the call
    before left it.  When no call raises, every group is sent exactly
    once.  When a call raises, the exception leaves [add_chunks]: the
    groups before it have been sent and those after it never are. *)
Theorem add_chunks_upserts_every_chunk (chunks : list chunk)
    (c : collection) :
  (forall batch, exists vs,
      embed_content batch = Some vs /\ length vs = length batch) ->
  exists (vss : list (list vector)) (groups : list (list (chunk * vector)))
         (sent : nat),
    Forall2 (fun batch vs => embed_content batch = Some vs)
      (batches 90 (map chunk_text chunks)) vss /\
    _generate_embeddings vector embed_content (map chunk_text chunks)
    = concat vss /\
    length (concat vss) = length chunks /\
    concat groups = combine chunks (concat vss) /\
    Forall (fun g => g <> [] /\ (length g <= 500)%nat) groups /\
    (sent <= length groups)%nat /\
    snd (store chunks c) = map upsert_of (firstn sent groups) /\
    snd (fst (store chunks c))
    = after (map upsert_of (firstn sent groups)) c /\
    (fst (fst (store chunks c)) = Ok tt -> sent = length groups) /\
    (forall x, fst (fst (store chunks c)) = Raise x ->
       exists earlier g,
         firstn sent groups = earlier ++ [g] /\
         fst (upsert (after (map upsert_of earlier) c) (upsert_of g))
         = Raise x) /\
    ((forall c' call, fst (upsert c' call) = Ok tt) ->
     fst (fst (store chunks c)) = Ok tt /\
     snd (store chunks c) = map upsert_of groups).
Proof.
  intros H.
  destruct (embed_batches_success (map chunk_text chunks)
              (range_step (length (map chunk_text chunks)) 90) [])
    as (vss & E & F2).
  { apply Forall_forall. intros i _. apply H. }
  simpl in E. fold (_generate_embeddings vector embed_content
                      (map chunk_text chunks)) in E.
  assert (L : length (concat vss) = length chunks).
  { rewrite (Forall2_concat_length nat pyval
               (fun i => slice (map chunk_text chunks) i (i + 90)%nat)
               (range_step (length (map chunk_text chunks)) 90) vss).
    - destruct (batches_cover pyval 90 (map chunk_text chunks) ltac:(lia))
        as [C _].
      unfold batches in C. rewrite C. apply length_map.
    - eapply Forall2_impl; [|exact F2]. intros i vs [_ Q]. exact Q. }
  assert (S : store chunks c
              = upsert_batches vector collection upsert
                  (range_step (length chunks) 500)
                  (map chunk_id chunks) (map chunk_text chunks)
                  (concat vss) (map chunk_metadata chunks) c []).
  { clear F2 H. unfold add_chunks. destruct chunks as [|c0 rest].
    - reflexivity.
    - cbv zeta. rewrite E, length_map, L, Nat.eqb_refl. reflexivity. }
  destruct (batches_cover (chunk * vector) 500 (combine chunks (concat vss))
              ltac:(lia)) as [C B].
  set (groups := batches 500 (combine chunks (concat vss))) in *.
  set (starts := range_step (length chunks) 500) in *.
  assert (G : groups
              = map (fun i => slice (combine chunks (concat vss)) i
                                (i + 500)%nat) starts).
  { unfold groups, batches, starts.
    rewrite length_combine, L, Nat.min_id. reflexivity. }
  assert (K : forall i,
            Upsert (slice (map chunk_id chunks) i (i + 500)%nat)
              (slice (map chunk_text chunks) i (i + 500)%nat)
              (slice (concat vss) i (i + 500)%nat)
              (slice (map chunk_metadata chunks) i (i + 500)%nat)
            = upsert_of (slice (combine chunks (concat vss)) i
                           (i + 500)%nat)).
  { intros i. unfold upsert_of.
    rewrite <- !(map_map fst), <- !slice_map.
    rewrite (map_fst_combine_eq _ _ chunks (concat vss))
      by (symmetry; exact L).
    rewrite (map_snd_combine_eq _ _ chunks (concat vss))
      by (symmetry; exact L).
    rewrite !slice_map. reflexivity. }
  assert (KM : forall l,
             map (fun i =>
                    Upsert (slice (map chunk_id chunks) i (i + 500)%nat)
                      (slice (map chunk_text chunks) i (i + 500)%nat)
                      (slice (concat vss) i (i + 500)%nat)
                      (slice (map chunk_metadata chunks) i (i + 500)%nat)) l
             = map upsert_of
                 (map (fun i => slice (combine chunks (concat vss)) i
                                  (i + 500)%nat) l)).
  { intros l. rewrite map_map. apply map_ext. exact K. }
  destruct (upsert_batches_prefix (map chunk_id chunks)
              (map chunk_text chunks) (concat vss)
              (map chunk_metadata chunks) starts c [])
    as (sent & Hs & Hm & Hc & Ho & Hr & Ha).
  exists vss, groups, sent.
  split.
  { unfold batches. apply Forall2_fmap_l.
    eapply Forall2_impl; [|exact F2]. intros i vs [Q _]. exact Q. }
  split; [exact E|]. split; [exact L|]. split; [exact C|].
  split; [exact B|].
  assert (FG : firstn sent groups
               = map (fun i => slice (combine chunks (concat vss)) i
                                 (i + 500)%nat) (firstn sent starts)).
  { rewrite G. apply firstn_map. }
  split; [rewrite G, length_map; exact Hs|].
  rewrite S, FG, <- KM.
  split; [exact Hm|]. split; [exact Hc|].
  split; [intros R; rewrite G, length_map; apply Ho; exact R|].
  split.
  - intros x R. destruct (Hr x R) as (earlier & i & E1 & E2).
    exists (map (fun i => slice (combine chunks (concat vss)) i
                            (i + 500)%nat) earlier),
           (slice (combine chunks (concat vss)) i (i + 500)%nat).
    split.
    + rewrite E1, map_app. reflexivity.
    + rewrite <- KM, <- K. exact E2.
  - intros A. pose proof (Ha A) as R. split; [exact R|].
    rewrite Hm, (Ho R), firstn_all, G, <- KM. reflexivity.
Qed.

End VectorStoreFacts.

Lemma concat_length_bound (A : Type) (n : nat) (groups : list (list A)) :
  Forall (fun g => g <> [] /\ (length g <= n)%nat) groups ->
  (length (concat groups) <= n * length groups)%nat.
Proof.
  induction 1 as [|g rest [_ Hg] _ IH]; simpl; [lia|].
  rewrite length_app. lia.
Qed.

Lemma embedding_failure_stores_nothing_witness :
  add_chunks nat embed_refused (list string) upsert_append
    (repeat one_chunk 100) []
  = (Ok tt, [], []).
Proof.
  apply (embedding_failure_stores_nothing nat embed_refused (list string)
           upsert_append (repeat one_chunk 100) []).
  vm_compute. constructor. reflexivity.
Defined.

Lemma add_chunks_upserts_every_chunk_witness :
  exists groups,
    add_chunks nat embed_zero (list string) upsert_append
      (repeat one_chunk 501) []
    = (Ok tt,
       collection_after nat (list string) upsert_append
         (map upsert_of groups) [],
       map upsert_of groups) /\
    concat groups = combine (repeat one_chunk 501) (repeat 0%nat 501) /\
    (2 <= length groups)%nat.
Proof.
  destruct (add_chunks_upserts_every_chunk nat embed_zero (list string)
              upsert_append (repeat one_chunk 501) [])
    as (vss & groups & sent & _ & E & L & C & B & _ & M & S & O & _ & A).
  - intros batch. eexists. split; [reflexivity | apply length_map].
  - destruct A as [R M']; [reflexivity|].
    assert (V : concat vss = repeat 0%nat 501).
    { rewrite <- E. vm_compute. reflexivity. }
    rewrite V in C.
    exists groups. split; [|split; [exact C|]].
    + rewrite (O R), firstn_all in S.
      destruct (add_chunks nat embed_zero (list string) upsert_append
                  (repeat one_chunk 501) []) as [[r c'] made].
      cbn [fst snd] in R, S, M'. subst r c' made. reflexivity.
    + pose proof (concat_length_bound _ 500 groups B) as Bd.
      rewrite C, length_combine, !repeat_length in Bd. simpl in Bd. lia.
Defined.

(** A collection that refuses a call of more than 400 records: of 501
    chunks the first call raises, nothing is stored and the second group
    is never sent. *)
Example add_chunks_refused_call :
  exists call,
    add_chunks nat embed_zero (list string) upsert_small
      (repeat one_chunk 501) []
    = (Raise OSError, [], [call]) /\
    length (up_ids call) = 500%nat.
Proof. eexists. split; vm_compute; reflexivity. Qed.

(* ===================================================================== *)
(** ** The file handlers of the layout engine *)
(* ===================================================================== *)

Lemma str_in_app (x : string) (l1 l2 : list string) :
  str_in x (l1 ++ l2) = str_in x l1 || str_in x l2.
Proof. unfold str_in. apply existsb_app. Qed.

Section FileHandlerFacts.

Context {W : Type}.
Variable query : W -> string -> payload -> result pyval * W.
Variable py_str : pyval -> string.
Variable splitext_lower : string -> string.
Variable splitext_root : string -> string.
Variable basename : string -> string.
Variable abspath : string -> string.
Variable extract_audio_from_video : string -> option string.
Variable crop_save : box -> string -> result unit.
Variable temp_path : nat -> nat -> string.
Variable annotated_image_exists : nat -> bool.
Variable get_video_id : string -> option string.
Variable fetch_segments : string -> result pyval.
Variable exn_str : exn -> string.
Variable path_exists : string -> bool.
Variable make_output_dir : string -> result unit.
Variable process_pdf : string -> result (list (page block)).
Variable process_image : string -> result (list (page block)).
Variable convert_docx : string -> string -> bool.
Variable convert_pptx : string -> string -> bool.
Variable open_docx : string -> option (list string).
Variable open_pptx : string -> option (list (list shape)).
Variable visualize_page : nat -> list block -> result unit.

Local Abbreviation engine_process_file :=
  (HybridLayoutEngine.process_file splitext_lower splitext_root abspath
     path_exists make_output_dir process_pdf process_image convert_docx
     convert_pptx open_docx open_pptx visualize_page).
Local Abbreviation workflow_on_engine :=
  (app_workflow query py_str splitext_lower basename abspath
     extract_audio_from_video crop_save temp_path annotated_image_exists
     engine_process_file get_video_id fetch_segments exn_str).

(** X29: a file of a type the layout engine has no handler for.  When the
    path is no YouTube link and its extension is neither an audio or video
    one nor one of the engine's, the engine returns no page without
    raising; the run then goes through the layout and enrichment nodes,
    asks no worker, and ends with status ["completed"], no data and the
    error field as it was: the unsupported type is not reported as a
    failure. *)
Theorem unsupported_file_completes_empty (st : GraphState) (w : W) :
  str_contains "youtube.com" (file_path st) = false ->
  str_contains "youtu.be" (file_path st) = false ->
  str_in (splitext_lower (file_path st))
    (SUPPORTED_AUDIO ++ SUPPORTED_VIDEO ++ layout_extensions) = false ->
  make_output_dir (file_path st) = Ok tt ->
  engine_process_file (file_path st) = Ok [] /\
  exists final,
    workflow_on_engine st w
    = Some (Ok (final, [Router; AnalyzeLayout; EnrichContent]), w) /\
    status final = "completed" /\
    rag_ready_data final = [] /\
    error final = error st /\
    file_type final = "document".
Proof.
  intros Y1 Y2 X D.
  rewrite !str_in_app in X.
  apply orb_false_elim in X. destruct X as [Xa X].
  apply orb_false_elim in X. destruct X as [Xv Xl].
  assert (P : engine_process_file (file_path st) = Ok []).
  { unfold HybridLayoutEngine.process_file. rewrite D. simpl.
    unfold layout_extensions, str_in in Xl. simpl in Xl.
    repeat (apply orb_false_elim in Xl;
            let E := fresh "E" in destruct Xl as [E Xl]; try rewrite E).
    unfold str_in. simpl.
    repeat match goal with
           | H : String.eqb _ _ = false |- _ => rewrite H; clear H
           end.
    reflexivity. }
  split; [exact P|].
  unfold app_workflow. simpl. unfold route_next_step, node_router.
  rewrite Y1, Y2, Xa, Xv. simpl.
  unfold node_enrich_content, node_analyze_layout. simpl. rewrite P. simpl.
  eexists. split; [reflexivity|]. simpl. auto.
Qed.

Lemma pptx_pages_shape (slides : list (list shape)) :
  (forall i blocks, visualize_page i blocks = Ok tt) ->
  forall i,
    exists pages,
      HybridLayoutEngine.pptx_pages visualize_page slides i = Ok pages /\
      map page_number pages = seq (S i) (length slides) /\
      map page_blocks pages = map slide_blocks slides.
Proof.
  intros V. induction slides as [|shapes rest IH]; intros i; simpl.
  - exists []. auto.
  - rewrite V. simpl. destruct (IH (S i)) as (pages & E & N & B).
    rewrite E. simpl. eexists. split; [reflexivity|]. simpl.
    rewrite N, B. auto.
Qed.

(** X30: the office handlers, once the output directory is there.  When a
    pdf of the same name lies beside a Word or PowerPoint file, the result
    is that of [process_pdf] on that pdf: the office file is neither
    converted nor opened.  When there is none and the conversion fails,
    the Word fallback never raises and returns no page or the single page
    of the paragraph blocks, and the PowerPoint fallback, when every page
    can be drawn, returns one page per slide, numbered from 1, holding the
    merged blocks of the slide. *)
Theorem office_file_handlers (path : string) :
  make_output_dir path = Ok tt ->
  let pdf_path := abspath (String.append (splitext_root path) ".pdf") in
  (str_in (splitext_lower path) [".pptx"; ".ppt"; ".docx"; ".doc"] = true ->
   path_exists pdf_path = true ->
   engine_process_file path = process_pdf pdf_path) /\
  (str_in (splitext_lower path) [".docx"; ".doc"] = true ->
   path_exists pdf_path = false ->
   convert_docx (abspath path) pdf_path = false ->
   engine_process_file path = Ok [] \/
   exists paragraphs,
     open_docx (abspath path) = Some paragraphs /\
     engine_process_file path = Ok [Page 1 (docx_blocks paragraphs 50)]) /\
  (forall slides,
     str_in (splitext_lower path) [".pptx"; ".ppt"] = true ->
     path_exists pdf_path = false ->
     convert_pptx (abspath path) pdf_path = false ->
     open_pptx (abspath path) = Some slides ->
     (forall i blocks, visualize_page i blocks = Ok tt) ->
     exists pages,
       engine_process_file path = Ok pages /\
       map page_number pages = seq 1 (length slides) /\
       map page_blocks pages = map slide_blocks slides).
Proof.
  intros D. cbv zeta.
  unfold HybridLayoutEngine.process_file. rewrite D. simpl.
  unfold str_in. simpl.
  split; [|split].
  - intros X Pe.
    repeat (apply orb_prop in X; destruct X as [X | X]);
      try discriminate; apply String.eqb_eq in X; rewrite X; simpl;
      unfold HybridLayoutEngine.process_pptx, HybridLayoutEngine.process_docx;
      rewrite Pe; reflexivity.
  - intros X Pe Cv.
    assert (Q : HybridLayoutEngine.process_docx splitext_root abspath
                  path_exists process_pdf convert_docx open_docx
                  visualize_page path = Ok [] \/
                exists paragraphs,
                  open_docx (abspath path) = Some paragraphs /\
                  HybridLayoutEngine.process_docx splitext_root abspath
                    path_exists process_pdf convert_docx open_docx
                    visualize_page path
                  = Ok [Page 1 (docx_blocks paragraphs 50)]).
    { unfold HybridLayoutEngine.process_docx. rewrite Pe. simpl.
      rewrite Cv. unfold HybridLayoutEngine.process_docx_structurally_from.
      destruct (open_docx (abspath path)) as [paragraphs|]; [|left; reflexivity].
      destruct (visualize_page 1 (docx_blocks paragraphs 50));
        [right; exists paragraphs; split; reflexivity | left; reflexivity]. }
    repeat (apply orb_prop in X; destruct X as [X | X]);
      try discriminate; apply String.eqb_eq in X; rewrite X; simpl; exact Q.
  - intros slides X Pe Cv Op V.
    assert (Q : exists pages,
                HybridLayoutEngine.process_pptx splitext_root abspath
                  path_exists process_pdf convert_pptx open_pptx
                  visualize_page path = Ok pages /\
                map page_number pages = seq 1 (length slides) /\
                map page_blocks pages = map slide_blocks slides).
    { unfold HybridLayoutEngine.process_pptx. rewrite Pe. simpl.
      rewrite Cv. unfold HybridLayoutEngine.process_pptx_structurally_from.
      rewrite Op. apply pptx_pages_shape. exact V. }
    repeat (apply orb_prop in X; destruct X as [X | X]);
      try discriminate; apply String.eqb_eq in X; rewrite X; simpl; exact Q.
Qed.

End FileHandlerFacts.

Lemma unsupported_file_completes_empty_witness :
  exists final,
    app_workflow query_none str_decode_failed ext_txt same_path same_path
      no_ffmpeg crop_ok one_temp_path images_on_disk
      (HybridLayoutEngine.process_file ext_txt same_path same_path
         no_pdf_beside dir_made no_layout no_layout no_conversion
         no_conversion three_paragraphs no_slides drawn)
      no_video_id no_segments exn_text notes tt
    = Some (Ok (final, [Router; AnalyzeLayout; EnrichContent]), tt) /\
    status final = "completed" /\
    rag_ready_data final = [].
Proof.
  destruct (unsupported_file_completes_empty query_none str_decode_failed
              ext_txt same_path same_path same_path no_ffmpeg crop_ok
              one_temp_path images_on_disk no_video_id no_segments exn_text
              no_pdf_beside dir_made no_layout no_layout no_conversion
              no_conversion three_paragraphs no_slides drawn notes tt
              eq_refl eq_refl eq_refl eq_refl)
    as [_ (final & R & S & D & _)].
  exists final. split; [exact R|]. split; [exact S | exact D].
Defined.

Lemma office_file_handlers_witness :
  HybridLayoutEngine.process_file ext_docx same_path same_path no_pdf_beside
    dir_made no_layout no_layout no_conversion no_conversion
    three_paragraphs no_slides drawn "notes.docx" = Ok [] \/
  exists paragraphs,
    three_paragraphs "notes.docx" = Some paragraphs /\
    HybridLayoutEngine.process_file ext_docx same_path same_path
      no_pdf_beside dir_made no_layout no_layout no_conversion no_conversion
      three_paragraphs no_slides drawn "notes.docx"
    = Ok [Page 1 (docx_blocks paragraphs 50)].
Proof.
  apply (proj1 (proj2 (office_file_handlers ext_docx same_path same_path
                         no_pdf_beside dir_made no_layout no_layout
                         no_conversion no_conversion three_paragraphs
                         no_slides drawn "notes.docx" eq_refl)));
    reflexivity.
Defined.
